(** * WasmBlake2s: a shallow embedding of lib/hash/WasmBlake2s.ts

  The hashing engine of the merkle library keeps a WebAssembly instance
  whose linear memory is shared with the host.  The TypeScript class
  [WasmBlake2s] copies buffers into that memory, calls the exported
  WebAssembly functions and copies digests out.

  The embedding threads the WebAssembly instance (linear memory, arena
  bookkeeping, a counter of hash invocations) through an error-and-state
  monad.  The TypeScript methods are translated statement by statement.
  The WebAssembly exports themselves (lib/assembly) are not part of the
  sources at hand; they are modelled from the specification and marked as
  such. *)

From Stdlib Require Import ZArith Lia Bool.
From Stdlib.Strings Require Import Byte.
From stdpp Require Import base list vector.

Local Open Scope Z_scope.

(** ** JavaScript number operations used by the class *)

Module JS.

(** ToInt32 and ToUint32 of ECMAScript, on integral numbers. *)
Definition ToUint32 (x : Z) : Z := x mod 2 ^ 32.

Definition ToInt32 (x : Z) : Z :=
  let y := x mod 2 ^ 32 in if y <? 2 ^ 31 then y else y - 2 ^ 32.

(** [a << b] *)
Definition shl (a b : Z) : Z :=
  ToInt32 (Z.shiftl (ToInt32 a) (ToUint32 b mod 32)).

(** [a >>> b] *)
Definition ushr (a b : Z) : Z :=
  Z.shiftr (ToUint32 a) (ToUint32 b mod 32).

(** [a & b] *)
Definition and (a b : Z) : Z :=
  ToInt32 (Z.land (ToInt32 a) (ToInt32 b)).

(** [a % b]; [None] stands for NaN. *)
Definition rem (a b : Z) : option Z :=
  if b =? 0 then None else Some (Z.rem a b).

(** [Number.isInteger(a / b)] for integral [a] and [b]: a division by zero
    gives an infinity or NaN, which is not an integer. *)
Definition div_isInteger (a b : Z) : bool :=
  if b =? 0 then false else a mod b =? 0.

(** Relative index of [subarray] and [slice]: a negative index counts from
    the end, and every index is clamped to the length. *)
Definition rel_index (i len : Z) : Z :=
  if i <? 0 then Z.max (len + i) 0 else Z.min i len.

End JS.

(** ** Linear memory *)

Abbreviation bytes := (list byte).

Definition blen (d : bytes) : Z := Z.of_nat (length d).

Module Mem.

(** [len] bytes starting at [off]. *)
Definition read (m : bytes) (off len : Z) : bytes :=
  take (Z.to_nat len) (drop (Z.to_nat off) m).

(** [m] with [d] stored at [off]. *)
Definition write (m : bytes) (off : Z) (d : bytes) : bytes :=
  take (Z.to_nat off) m ++ d ++ drop (Z.to_nat off + length d) m.

Definition in_bounds (m : bytes) (off len : Z) : bool :=
  (0 <=? off) && (0 <=? len) && (off + len <=? blen m).

(** [subarray(b, e)] and [slice(b, e)] of a typed array or buffer. *)
Definition slice (m : bytes) (b e : Z) : bytes :=
  let b' := JS.rel_index b (blen m) in
  let e' := JS.rel_index e (blen m) in
  read m b' (Z.max (e' - b') 0).

End Mem.

(** ** The WebAssembly instance: linear memory and arena *)

(** The errors a call can end with.  The class throws plain [Error] objects;
    the constructors name them after the condition that raises them.
    [RangeError] and [TypeError] are the host's own, [MemoryTrap] is an
    access outside the linear memory from inside the instance. *)
Inductive Error :=
| InvalidElementSize
| MisalignedBuffer
| AllocationFailure
| InvalidAddress
| RangeError
| TypeError
| MemoryTrap.

(** [memory] is [wasm.memory.buffer]; [blocks] are the arena blocks handed
    out and not yet released, as (address, size); [heapTop] is the first
    address the arena has never handed out; [hashCalls] counts the
    invocations of the hash primitive. *)
Record Wasm := mkWasm {
  memory : bytes;
  blocks : list (Z * Z);
  heapTop : Z;
  hashCalls : nat
}.

Definition set_memory (m : bytes) (s : Wasm) : Wasm :=
  mkWasm m (blocks s) (heapTop s) (hashCalls s).

Inductive Result (A : Type) :=
| Ok (a : A) (s : Wasm)
| Throw (e : Error) (s : Wasm).
Arguments Ok {A} a s.
Arguments Throw {A} e s.

(** The instance a call ends with, whether it returns or throws. *)
Definition final {A} (r : Result A) : Wasm :=
  match r with Ok _ s => s | Throw _ s => s end.

(** Computations on the instance that return or throw. *)
Definition M (A : Type) : Type := Wasm -> Result A.

Definition ret {A} (a : A) : M A := fun s => Ok a s.

Definition throw {A} (e : Error) : M A := fun s => Throw e s.

Definition bind {A B} (c : M A) (k : A -> M B) : M B :=
  fun s => match c s with
           | Ok a s' => k a s'
           | Throw e s' => Throw e s'
           end.

Declare Scope wasm_scope.
Delimit Scope wasm_scope with wasm.
Notation "x <- c ;; k" := (bind c (fun x => k))
  (at level 100, c at next level, right associativity) : wasm_scope.
Notation "c ;; k" := (bind c (fun _ => k))
  (at level 100, right associativity) : wasm_scope.
Local Open Scope wasm_scope.

Definition when (b : bool) (c : M unit) : M unit := if b then c else ret tt.

(** [memU8.set(d, off)] on a view of the current memory: a [RangeError] when
    the data does not fit. *)
Definition U8_set (d : bytes) (off : Z) : M unit := fun s =>
  if Mem.in_bounds (memory s) off (blen d)
  then Ok tt (set_memory (Mem.write (memory s) off d) s)
  else Throw RangeError s.

(** [Buffer.from(memU8.subarray(b, e))]: a copy of the bytes. *)
Definition U8_subarray (b e : Z) : M bytes := fun s =>
  Ok (Mem.slice (memory s) b e) s.

(** [wasm.memory.buffer.slice(b, e)]: a copy of the bytes, too. *)
Definition memory_slice (b e : Z) : M bytes := fun s =>
  Ok (Mem.slice (memory s) b e) s.

Module Arena.

Definition align16 (a : Z) : Z := (a + 15) / 16 * 16.

(** Modelled from the spec: [Arena.allocate] ([wasm.newArray], exported by
    lib/assembly, which is not among the sources).  It reserves a fresh
    range of the requested size above everything handed out so far, behind
    a block header, growing the memory when the range does not fit; the
    bytes of the range are whatever the memory holds there.  A negative
    size is an allocation failure. *)
Definition newArray (n : Z) : M Z := fun s =>
  if n <? 0 then Throw AllocationFailure s
  else
    let a := align16 (heapTop s) + 16 in
    let m := memory s in
    Ok a (mkWasm (m ++ replicate (Z.to_nat (a + n) - length m) x00)
                 ((a, n) :: blocks s) (a + n) (hashCalls s)).

Fixpoint remove_block (a : Z) (l : list (Z * Z)) : option (list (Z * Z)) :=
  match l with
  | [] => None
  | b :: l' =>
      if b.1 =? a then Some l'
      else match remove_block a l' with
           | Some r => Some (b :: r)
           | None => None
           end
  end.

(** Modelled from the spec: [Arena.release] ([wasm.__release]).  Releasing
    an address that is not outstanding is a fatal programming error. *)
Definition release (a : Z) : M unit := fun s =>
  match remove_block a (blocks s) with
  | Some l => Ok tt (mkWasm (memory s) l (heapTop s) (hashCalls s))
  | None => Throw InvalidAddress s
  end.

End Arena.

(** ** Buffers and vectors of the host *)

(** A [Buffer] is a view of the instance's memory ([buffer ===
    wasm.memory.buffer]) or owns storage of its own. *)
Inductive Buffer :=
| WasmView (byteOffset byteLength : Z)
| HostBuffer (data : bytes).

Definition isWasm (b : Buffer) : bool :=
  match b with WasmView _ _ => true | HostBuffer _ => false end.

Definition byteOffset (b : Buffer) : Z :=
  match b with WasmView off _ => off | HostBuffer _ => 0 end.

Definition byteLength (b : Buffer) : Z :=
  match b with WasmView _ len => len | HostBuffer d => blen d end.

(** The bytes a buffer holds when it is read in memory [m]. *)
Definition contents (m : bytes) (b : Buffer) : bytes :=
  match b with
  | WasmView off len => Mem.read m off len
  | HostBuffer d => d
  end.

Definition bufferBytes (b : Buffer) : M bytes := fun s =>
  Ok (contents (memory s) b) s.

(** [Buffer.from(b.slice(start))] *)
Definition bufferSlice (b : Buffer) (start : Z) : M bytes := fun s =>
  let d := contents (memory s) b in
  Ok (Mem.slice d start (blen d)) s.

(** The [Vector] interface: [length], [elementSize] and [toBuffer()]. *)
Record Vector := mkVector {
  v_length : Z;
  v_elementSize : Z;
  toBuffer : Buffer
}.

(** [new WasmVector(memory, base, length, elementSize)] *)
Definition WasmVector (base length elementSize : Z) : Vector :=
  mkVector length elementSize (WasmView base (length * elementSize)).

(** Element [i] of a vector, read in memory [m]. *)
Definition element (m : bytes) (v : Vector) (i : Z) : bytes :=
  Mem.read (contents m (toBuffer v)) (i * v_elementSize v) (v_elementSize v).

Definition DIGEST_SIZE : Z := 32.

Definition NULL_BUFFER : bytes := replicate 32 x00.

Abbreviation Digest := (vec byte 32).

(** [get digestSize()] *)
Definition digestSize : Z := DIGEST_SIZE.

(** Little-endian encoding, for the [BigUint64Array] view of the memory. *)
Definition byte_of_Z (z : Z) : byte :=
  default x00 (Byte.of_N (Z.to_N (z mod 256))).

Fixpoint le_bytes (n : nat) (v : Z) : bytes :=
  match n with
  | O => []
  | S n' => byte_of_Z v :: le_bytes n' (v / 256)
  end.

Fixpoint le_value (d : bytes) : Z :=
  match d with
  | [] => 0
  | b :: d' => Z.of_N (Byte.to_N b) + 256 * le_value d'
  end.

(** [memU64[idx] = BigInt(v)] on a view of the current memory.  The view has
    one element per whole 8 bytes; an index outside of it is ignored. *)
Definition U64_set (idx v : Z) : M unit := fun s =>
  if (0 <=? idx) && (idx <? blen (memory s) / 8)
  then Ok tt (set_memory (Mem.write (memory s) (idx * 8) (le_bytes 8 (v mod 2 ^ 64))) s)
  else Ok tt s.

(** A view of the memory that lies inside the part of it the arena has
    handed out; a buffer of the host is any byte string. *)
Definition buffer_ok (s : Wasm) (b : Buffer) : bool :=
  match b with
  | WasmView off len => (0 <=? off) && (0 <=? len) && (off + len <=? heapTop s)
  | HostBuffer _ => true
  end.

(** The invariant of a [Vector]: its buffer holds [length] elements of
    [elementSize] bytes. *)
Definition vector_ok (s : Wasm) (v : Vector) : bool :=
  (0 <=? v_length v) && (0 <? v_elementSize v) && (v_elementSize v <? 2 ^ 30)
  && (byteLength (toBuffer v) =? v_length v * v_elementSize v)
  && buffer_ok s (toBuffer v).

(** Slot [i] of a buffer of digests. *)
Definition slot (buf : bytes) (i : Z) : bytes :=
  Mem.read buf (i * DIGEST_SIZE) DIGEST_SIZE.

(** ** The engine *)

Section Engine.

(** The hash primitive: an opaque, deterministic function from byte strings
    to 32-byte digests (BLAKE2s-256 in the library). *)
Variable H : bytes -> Digest.

(** [this.iRef] and [this.oRef]: the addresses of the instance's reserved
    input and output regions; [iCap] is the size of the input region. *)
Variables iRef oRef iCap : Z.

Definition oEnd : Z := oRef + DIGEST_SIZE.

(** *** The WebAssembly exports *)

(** [len] bytes of the memory at [off]; an access outside the memory
    traps. *)
Definition load (off len : Z) : M bytes := fun s =>
  if Mem.in_bounds (memory s) off len
  then Ok (Mem.read (memory s) off len) s
  else Throw MemoryTrap s.

(** One run of the hash primitive on [input], the digest stored at
    [resRef]. *)
Definition emit (input : bytes) (resRef : Z) : M unit := fun s =>
  if Mem.in_bounds (memory s) resRef DIGEST_SIZE
  then Ok tt (mkWasm (Mem.write (memory s) resRef (vec_to_list (H input)))
                     (blocks s) (heapTop s) (S (hashCalls s)))
  else Throw MemoryTrap s.

(** Modelled from the spec: [HashPrimitive.hash] ([wasm.hash(vRef, vLength,
    resRef)], exported by lib/assembly, which is not among the sources):
    the digest of the [vLength] bytes at [vRef] is written to [resRef]. *)
Definition wasm_hash (vRef vLength resRef : Z) : M unit :=
  input <- load vRef vLength ;;
  emit input resRef.

(** Modelled from the spec: [HashPrimitive.hashStrided]
    ([wasm.hashValues1(vRef, resRef, vElementSize, vElementCount)]):
    [vElementCount] digests, the i-th over the [vElementSize] bytes at
    [vRef + i * vElementSize], written contiguously from [resRef] on.  The
    callers continue writing at the returned address, which is the one
    after the last digest. *)
Fixpoint hashValues1_loop (n : nat) (vRef resRef vElementSize : Z) : M Z :=
  match n with
  | O => ret resRef
  | S n' =>
      wasm_hash vRef vElementSize resRef ;;
      hashValues1_loop n' (vRef + vElementSize) (resRef + DIGEST_SIZE) vElementSize
  end.

Definition hashValues1 (vRef resRef vElementSize vElementCount : Z) : M Z :=
  hashValues1_loop (Z.to_nat vElementCount) vRef resRef vElementSize.

(** Modelled from the spec: [HashPrimitive.hashAdjacentPairs]
    ([wasm.hashValues2(vRef, resRef, vElementSize, vElementCount)]):
    [vElementCount] digests, each over [vElementSize] bytes, that is two
    adjacent nodes.  [buildMerkleNodes] calls it once, with the address of
    the last pair of the tree buffer and the address of the last slot above
    the lowest row, so the walk is towards the front of the buffer: the
    source moves back by [vElementSize] and the destination by one digest
    after every hash, and the rows above the lowest are produced one after
    the other. *)
Fixpoint hashValues2_loop (n : nat) (vRef resRef vElementSize : Z) : M Z :=
  match n with
  | O => ret resRef
  | S n' =>
      wasm_hash vRef vElementSize resRef ;;
      hashValues2_loop n' (vRef - vElementSize) (resRef - DIGEST_SIZE) vElementSize
  end.

Definition hashValues2 (vRef resRef vElementSize vElementCount : Z) : M Z :=
  hashValues2_loop (Z.to_nat vElementCount) vRef resRef vElementSize.

(** Modelled from the spec: the batched merge-by-row primitive
    ([wasm.mergeArrayElements(vRefs, resRef, vCount, elementCount,
    elementSize)]): [vRefs] is an array of [vCount] 64-bit addresses of
    vectors; for every row index the row's element of every vector, in
    vector order, is concatenated and hashed, the digests written
    contiguously from [resRef] on. *)
Fixpoint loadRefs (n : nat) (vRefs : Z) : M (list Z) :=
  match n with
  | O => ret []
  | S n' =>
      d <- load vRefs 8 ;;
      rest <- loadRefs n' (vRefs + 8) ;;
      ret (le_value d :: rest)
  end.

Fixpoint loadRow (refs : list Z) (i elementSize : Z) : M bytes :=
  match refs with
  | [] => ret []
  | r :: refs' =>
      d <- load (r + i * elementSize) elementSize ;;
      rest <- loadRow refs' i elementSize ;;
      ret (d ++ rest)
  end.

Fixpoint mergeRows (n : nat) (refs : list Z) (resRef i elementSize : Z) : M unit :=
  match n with
  | O => ret tt
  | S n' =>
      row <- loadRow refs i elementSize ;;
      emit row resRef ;;
      mergeRows n' refs (resRef + DIGEST_SIZE) (i + 1) elementSize
  end.

Definition mergeArrayElements (vRefs resRef vCount elementCount elementSize : Z)
  : M unit :=
  refs <- loadRefs (Z.to_nat vCount) vRefs ;;
  mergeRows (Z.to_nat elementCount) refs resRef 0 elementSize.

(** *** The public methods of [WasmBlake2s] *)

(** [digest(value)].  The value is copied into the memory whatever its
    backing store, so only its bytes matter.  The view [memU8] is taken
    again after [newArray] when the memory has moved, so it is always a view
    of the current memory. *)
Definition digest (value : bytes) : M bytes :=
  (if blen value <? 4096 then
     U8_set value iRef ;;
     wasm_hash iRef (blen value) oRef
   else
     vRef <- Arena.newArray (blen value) ;;
     U8_set value vRef ;;
     wasm_hash vRef (blen value) oRef ;;
     Arena.release vRef) ;;
  U8_subarray oRef oEnd.

(** [merge(a, b)] *)
Definition merge (a b : bytes) : M bytes :=
  U8_set a iRef ;;
  U8_set b (iRef + blen a) ;;
  wasm_hash iRef (blen a + blen b) oRef ;;
  U8_subarray oRef oEnd.

(** The blocks of [buildMerkleNodes], in the order of the source. *)

(** "if the leaves buffer belongs to some other WASM memory, copy it into
    local memory": the address of the leaves and whether it is a copy to
    release. *)
Definition copyLeaves (lBuffer : Buffer) : M (Z * bool) :=
  if negb (isWasm lBuffer) then
    lRef <- Arena.newArray (byteLength lBuffer) ;;
    d <- bufferBytes lBuffer ;;
    U8_set d lRef ;;
    ret (lRef, true)
  else ret (byteOffset lBuffer, false).

(** "if the number of leaves was odd, process the last leaf" *)
Definition processLastLeaf (leaves : Vector) (lBuffer : Buffer)
    (evenLeafCount resRef : Z) : M Z :=
  if negb (evenLeafCount =? v_length leaves) then
    lastLeaf <- bufferSlice lBuffer (byteLength lBuffer - v_elementSize leaves) ;;
    U8_set lastLeaf iRef ;;
    U8_set NULL_BUFFER (iRef + blen lastLeaf) ;;
    wasm_hash iRef (blen lastLeaf + DIGEST_SIZE) resRef ;;
    ret (resRef + DIGEST_SIZE)
  else ret resRef.

(** [while (resRef < resEnd) { memU8.set(nullParent, resRef); resRef +=
    DIGEST_SIZE; }].  The address grows by 32 in every round, so
    [resEnd - resRef] rounds are never used up. *)
Fixpoint fillLoop (fuel : nat) (nullParent : bytes) (resRef resEnd : Z) : M unit :=
  match fuel with
  | O => ret tt
  | S fuel' =>
      if resRef <? resEnd then
        U8_set nullParent resRef ;;
        fillLoop fuel' nullParent (resRef + DIGEST_SIZE) resEnd
      else ret tt
  end.

(** "if number of leaves was not a power of 2, assume all other leaves are
    NULL" *)
Definition fillNullParents (leaves : Vector) (nodeCount nRef bufferLength resRef : Z)
  : M unit :=
  if v_length leaves <? nodeCount then
    nullParent <- merge NULL_BUFFER NULL_BUFFER ;;
    let resEnd := nRef + bufferLength in
    fillLoop (Z.to_nat (resEnd - resRef)) nullParent resRef resEnd
  else ret tt.

(** "calculate all other tree nodes" *)
Definition calcOtherNodes (nRef parentCount : Z) : M Z :=
  let tIndex := (parentCount - 1) * DIGEST_SIZE in
  let sIndex := JS.shl tIndex 1 in
  hashValues2 (nRef + sIndex) (nRef + tIndex) (JS.shl DIGEST_SIZE 1) parentCount.

(** [buildMerkleNodes(depth, leaves)] *)
Definition buildMerkleNodes (depth : Z) (leaves : Vector) : M bytes :=
  let nodeCount := JS.shl 1 depth in
  let bufferLength := nodeCount * DIGEST_SIZE in
  nRef <- Arena.newArray bufferLength ;;
  let parentCount := JS.ushr nodeCount 1 in
  let evenLeafCount :=
    if JS.and (v_length leaves) 1 =? 0 then v_length leaves
    else v_length leaves - 1 in
  let resRef := nRef + parentCount * DIGEST_SIZE in
  let lBuffer := toBuffer leaves in
  l <- copyLeaves lBuffer ;;
  let lRef := l.1 in
  let releaseLeaves := l.2 in
  resRef <- hashValues1 lRef resRef (JS.shl (v_elementSize leaves) 1)
                        (JS.ushr evenLeafCount 1) ;;
  when releaseLeaves (Arena.release lRef) ;;
  resRef <- processLastLeaf leaves lBuffer evenLeafCount resRef ;;
  fillNullParents leaves nodeCount nRef bufferLength resRef ;;
  calcOtherNodes nRef parentCount ;;
  nBuffer <- memory_slice nRef (nRef + bufferLength) ;;
  Arena.release nRef ;;
  ret nBuffer.

(** The loop of [mergeVectorRows] that builds the array of references:
    [done] is [refsToRelease], a set in insertion order. *)
Fixpoint buildRefs (vectors : list Vector) (vIdx i : Z) (done : list Z)
  : M (list Z) :=
  match vectors with
  | [] => ret done
  | v :: rest =>
      let buffer := toBuffer v in
      r <- (if isWasm buffer then ret (byteOffset buffer, done)
            else
              vRef <- Arena.newArray (byteLength buffer) ;;
              d <- bufferBytes (toBuffer v) ;;
              U8_set d vRef ;;
              ret (vRef, if bool_decide (vRef ∈ done) then done
                         else done ++ [vRef])) ;;
      U64_set (vIdx + i) r.1 ;;
      buildRefs rest vIdx (i + 1) r.2
  end.

Fixpoint releaseAll (refs : list Z) : M unit :=
  match refs with
  | [] => ret tt
  | r :: refs' => Arena.release r ;; releaseAll refs'
  end.

(** [mergeVectorRows(vectors)].  Both element size checks throw a plain
    [Error]; [vectors[0]] of an empty list is [undefined], and reading its
    [length] is a [TypeError]. *)
Definition mergeVectorRows (vectors : list Vector) : M Vector :=
  match vectors with
  | [] => throw TypeError
  | v0 :: _ =>
      let elementCount := v_length v0 in
      let elementSize := v_elementSize v0 in
      if 64 <? elementSize then throw InvalidElementSize
      else if negb (bool_decide (JS.rem 64 elementSize = Some 0))
      then throw InvalidElementSize
      else
        vRefs <- Arena.newArray (Z.of_nat (length vectors) * 8) ;;
        let vIdx := JS.ushr vRefs 3 in
        refsToRelease <- buildRefs vectors vIdx 0 [] ;;
        resRef <- Arena.newArray (elementCount * DIGEST_SIZE) ;;
        mergeArrayElements vRefs resRef (Z.of_nat (length vectors)) elementCount elementSize ;;
        Arena.release vRefs ;;
        releaseAll refsToRelease ;;
        ret (WasmVector resRef elementCount DIGEST_SIZE)
  end.

(** [digestValues(values, valueSize)] *)
Definition digestValues (values : Buffer) (valueSize : Z) : M Vector :=
  if negb (JS.div_isInteger (byteLength values) valueSize)
  then throw MisalignedBuffer
  else
    let elementCount := byteLength values / valueSize in
    v <- (if isWasm values then ret (byteOffset values, false)
          else
            vRef <- Arena.newArray (byteLength values) ;;
            d <- bufferBytes values ;;
            U8_set d vRef ;;
            ret (vRef, true)) ;;
    let vRef := v.1 in
    let releaseValues := v.2 in
    resRef <- Arena.newArray (elementCount * DIGEST_SIZE) ;;
    hashValues1 vRef resRef valueSize elementCount ;;
    when releaseValues (Arena.release vRef) ;;
    ret (WasmVector resRef elementCount DIGEST_SIZE).

(** The invariant of an engine: the input region, which holds every value
    below the threshold of [digest], and the output region lie in the
    memory, below the addresses the arena hands out. *)
Definition engine_ok (s : Wasm) : bool :=
  (0 <=? iRef) && (4096 <=? iCap) && (iRef + iCap <=? heapTop s)
  && (0 <=? oRef) && (oEnd <=? heapTop s)
  && (heapTop s <=? blen (memory s)).

End Engine.

(** ** A sample engine, to run the methods on *)

Module Sample.

(** A stand-in for the hash primitive: 32 bytes derived from a checksum of
    the input and its length. *)
Definition checksum (d : bytes) : Z :=
  fold_left (fun acc b => (acc * 131 + Z.of_N (Byte.to_N b) + 7) mod 65521)
            d (blen d + 1).

Definition sampleH (d : bytes) : Digest :=
  fun_to_vec (fun k : fin 32 =>
    byte_of_Z (checksum d * (Z.of_nat (fin_to_nat k) + 3) / 5)).

(** An instance with the input region at 0, of 4096 bytes, the output
    region behind it at 4096, and nothing allocated. *)
Definition wasm0 : Wasm := mkWasm (replicate 4160 x00) [] 4160 0.

(** An instance with a memory of 64 bytes only. *)
Definition smallWasm : Wasm := mkWasm (replicate 64 x00) [] 64 0.

(** A leaf of 32 equal bytes. *)
Definition leaf (k : Z) : bytes := replicate 32 (byte_of_Z k).

Definition leaves (n : Z) (d : bytes) : Vector := mkVector n 32 (HostBuffer d).

Definition oneLeaf : Vector := leaves 1 (leaf 1).

Definition twoLeaves : Vector := leaves 2 (leaf 1 ++ leaf 2).

Definition threeLeaves : Vector := leaves 3 (leaf 1 ++ leaf 2 ++ leaf 3).

Definition fourLeaves : Vector := leaves 4 (leaf 1 ++ leaf 2 ++ leaf 3 ++ leaf 4).

(** An instance with two leaves in a block of the arena, and the vector of
    these leaves. *)
Definition residentWasm : Wasm :=
  mkWasm (replicate 4176 x00 ++ leaf 1 ++ leaf 2) [(4176, 64)] 4240 0.

Definition residentLeaves : Vector := WasmVector 4176 2 32.

(** An instance with a small input region: the output region at 2384, the
    input region behind it at 2432, and the arena from 3472 on, 1040 bytes
    after the start of the input region, with two leaves in its first
    block; and the vector of these leaves. *)
Definition tightWasm : Wasm :=
  mkWasm (replicate 3472 x00 ++ leaf 1 ++ leaf 2 ++ replicate 4656 x00)
         [(3472, 64)] 3536 0.

Definition tightLeaves : Vector := WasmVector 3472 2 32.

End Sample.


(** ** The vocabulary of the statements *)

(** What a successful allocation gives. *)
Record allocated (n : Z) (s : Wasm) (a : Z) (s' : Wasm) : Prop := {
  alloc_fresh : heapTop s < a;
  alloc_aligned : a mod 8 = 0;
  alloc_top : heapTop s' = a + n;
  alloc_fits : heapTop s' <= blen (memory s');
  alloc_grows : exists k, memory s' = memory s ++ k;
  alloc_blocks : blocks s' = (a, n) :: blocks s;
  alloc_hashCalls : hashCalls s' = hashCalls s
}.

(** The effect of a call that only uses the reserved regions: nothing at or
    above [lo] changes, and the arena is as before. *)
Record scratch_step (lo : Z) (n : nat) (s s' : Wasm) : Prop := {
  ss_length : blen (memory s') = blen (memory s);
  ss_frame : forall off len, lo <= off -> 0 <= len ->
             Mem.read (memory s') off len = Mem.read (memory s) off len;
  ss_blocks : blocks s' = blocks s;
  ss_heapTop : heapTop s' = heapTop s;
  ss_hashCalls : hashCalls s' = (n + hashCalls s)%nat
}.

(** A computation that neither allocates nor releases nor resizes the
    memory, whether it returns or throws. *)
Definition keeps_arena {A} (c : M A) : Prop :=
  forall s,
    blocks (final (c s)) = blocks s
    /\ heapTop (final (c s)) = heapTop s
    /\ blen (memory (final (c s))) = blen (memory s).

(** The errors a computation can end with all satisfy [P]. *)
Definition throws_only {A} (P : Error -> Prop) (c : M A) : Prop :=
  forall s e s', c s = Throw e s' -> P e.

Section Records.

Variable H : bytes -> Digest.

(** The effect of [hashValues1] with [n] records of [size] bytes at [vRef]
    and the digests at [resRef]. *)
Record hashed_records (n size vRef resRef : Z) (s s' : Wasm) : Prop := {
  hr_length : blen (memory s') = blen (memory s);
  hr_blocks : blocks s' = blocks s;
  hr_heapTop : heapTop s' = heapTop s;
  hr_hashCalls : hashCalls s' = (Z.to_nat n + hashCalls s)%nat;
  hr_frame : forall off len, 0 <= off -> 0 <= len ->
             off + len <= resRef \/ resRef + 32 * n <= off ->
             Mem.read (memory s') off len = Mem.read (memory s) off len;
  hr_digest : forall i, 0 <= i < n ->
              Mem.read (memory s') (resRef + 32 * i) 32 =
              vec_to_list (H (Mem.read (memory s) (vRef + i * size) size))
}.

(** The row above a row of nodes: the digests of its adjacent pairs. *)
Fixpoint parents (row : list bytes) : list bytes :=
  match row with
  | l :: r :: rest => vec_to_list (H (l ++ r)) :: parents rest
  | _ => []
  end.

End Records.

(** The arena's top after the vectors of the host among [vs] have been
    copied into the memory, one block each, from the top [top] on. *)
Fixpoint topAfter (vs : list Vector) (top : Z) : Z :=
  match vs with
  | [] => top
  | v :: vs' =>
      match toBuffer v with
      | WasmView _ _ => topAfter vs' top
      | HostBuffer d => topAfter vs' (Arena.align16 top + 16 + blen d)
      end
  end.

(** Where a vector may lie for [mergeVectorRows]: a view of the memory ends
    below [lim]. *)
Definition below (lim : Z) (v : Vector) : Prop :=
  match toBuffer v with
  | WasmView off len => 0 <= off /\ 0 <= len /\ off + len <= lim
  | HostBuffer _ => True
  end.

(** Row [k] of a tree buffer: the [2 ^ k] nodes from index [2 ^ k] on. *)
Definition treeRow (buf : bytes) (k : Z) : list bytes :=
  map (slot buf) (seqZ (2 ^ k) (2 ^ k)).

(** The vectors [mergeVectorRows] is meant for: well-formed, with the
    length and the element size of the first one. *)
Definition uniform (s : Wasm) (cnt es : Z) (v : Vector) : Prop :=
  vector_ok s v = true /\ v_length v = cnt /\ v_elementSize v = es.

(** Leaf [i] of a tree: a leaf of the vector, or the 32 zero bytes that
    stand for an absent leaf. *)
Definition paddedLeaf (m : bytes) (leaves : Vector) (i : Z) : bytes :=
  if i <? v_length leaves then element m leaves i else NULL_BUFFER.

(** The state after the leaves, or the values, have been made resident. *)
Record copied (b : Buffer) (s : Wasm) (lRef : Z) (rel : bool) (s' : Wasm)
  : Prop := {
  cp_lRef : 0 <= lRef;
  cp_len : 0 <= byteLength b;
  cp_top : lRef + byteLength b <= heapTop s';
  cp_fits : heapTop s' <= blen (memory s');
  cp_mono : heapTop s <= heapTop s';
  cp_data : Mem.read (memory s') lRef (byteLength b) = contents (memory s) b;
  cp_below : forall off len, 0 <= off -> 0 <= len -> off + len <= heapTop s ->
             Mem.read (memory s') off len = Mem.read (memory s) off len;
  cp_blocks : blocks s' =
              if rel then (lRef, byteLength b) :: blocks s else blocks s;
  cp_fresh : rel = true -> heapTop s < lRef;
  cp_kind : b = if rel then HostBuffer (contents (memory s) b)
                else WasmView lRef (byteLength b);
  cp_hashCalls : hashCalls s' = hashCalls s
}.

(** The effect of a step that, at or above [lo], writes inside [[a, b)]
    only, and runs the hash primitive [n] times. *)
Record region_step (lo a b : Z) (n : nat) (s s' : Wasm) : Prop := {
  rs_length : blen (memory s') = blen (memory s);
  rs_frame : forall off len, lo <= off -> 0 <= len ->
             off + len <= a \/ b <= off ->
             Mem.read (memory s') off len = Mem.read (memory s) off len;
  rs_blocks : blocks s' = blocks s;
  rs_heapTop : heapTop s' = heapTop s;
  rs_hashCalls : hashCalls s' = (n + hashCalls s)%nat
}.

(** Node [j] of the tree buffer at [nRef]. *)
Definition node (m : bytes) (nRef j : Z) : bytes := Mem.read m (nRef + 32 * j) 32.

(** ** Facts about the number operations and the memory *)

Module JSFacts.
Import JS.

Lemma shl_1 (d : Z) : 0 <= d <= 30 -> shl 1 d = 2 ^ d.
Proof.
  intros Hd. unfold shl, ToInt32, ToUint32.
  assert (H32 : (2:Z) ^ 32 = 4294967296) by reflexivity.
  assert (H31 : (2:Z) ^ 31 = 2147483648) by reflexivity.
  rewrite (Z.mod_small 1) by lia. simpl (1 <? _).
  rewrite (Z.mod_small d) by lia. rewrite (Z.mod_small d) by lia.
  rewrite Z.shiftl_1_l.
  assert (0 < 2 ^ d) by (apply Z.pow_pos_nonneg; lia).
  assert (2 ^ d <= 2 ^ 30) by (apply Z.pow_le_mono_r; lia).
  assert ((2:Z) ^ 30 = 1073741824) by reflexivity.
  rewrite Z.mod_small by lia.
  destruct (Z.ltb_spec (2 ^ d) (2 ^ 31)); lia.
Qed.

Lemma shl_by_1 (a : Z) : 0 <= a < 2 ^ 30 -> shl a 1 = 2 * a.
Proof.
  intros Ha. unfold shl, ToInt32, ToUint32.
  assert (H32 : (2:Z) ^ 32 = 4294967296) by reflexivity.
  assert (H31 : (2:Z) ^ 31 = 2147483648) by reflexivity.
  assert (H30 : (2:Z) ^ 30 = 1073741824) by reflexivity.
  rewrite (Z.mod_small a) by lia.
  destruct (Z.ltb_spec a (2 ^ 31)); [|lia].
  change (1 mod 2 ^ 32 mod 32) with 1.
  rewrite Z.shiftl_mul_pow2 by lia. change (2 ^ 1) with 2.
  rewrite Z.mod_small by lia.
  destruct (Z.ltb_spec (a * 2) (2 ^ 31)); lia.
Qed.

Lemma ushr_by_1 (a : Z) : 0 <= a < 2 ^ 32 -> ushr a 1 = a / 2.
Proof.
  intros Ha. unfold ushr, ToUint32.
  rewrite (Z.mod_small a) by lia.
  change (1 mod 2 ^ 32 mod 32) with 1.
  rewrite Z.shiftr_div_pow2 by lia. reflexivity.
Qed.

Lemma and_1 (a : Z) : 0 <= a < 2 ^ 31 -> and a 1 = a mod 2.
Proof.
  intros Ha. unfold and, ToInt32.
  assert (H32 : (2:Z) ^ 32 = 4294967296) by reflexivity.
  assert (H31 : (2:Z) ^ 31 = 2147483648) by reflexivity.
  rewrite (Z.mod_small a) by lia.
  destruct (Z.ltb_spec a (2 ^ 31)); [|lia].
  change (if 1 mod 2 ^ 32 <? 2 ^ 31 then 1 mod 2 ^ 32 else 1 mod 2 ^ 32 - 2 ^ 32)
    with (Z.ones 1).
  rewrite Z.land_ones by lia. change (2 ^ 1) with 2.
  assert (0 <= a mod 2 < 2) by (apply Z.mod_pos_bound; lia).
  rewrite Z.mod_small by lia.
  destruct (Z.ltb_spec (a mod 2) (2 ^ 31)); lia.
Qed.

Lemma rel_index_in (i len : Z) : 0 <= i <= len -> rel_index i len = i.
Proof.
  intros Hi. unfold rel_index.
  destruct (Z.ltb_spec i 0); lia.
Qed.

End JSFacts.

Module MemFacts.
Import Mem.

Lemma in_bounds_iff (m : bytes) (off len : Z) :
  in_bounds m off len = true <-> 0 <= off /\ 0 <= len /\ off + len <= blen m.
Proof.
  unfold in_bounds. rewrite !andb_true_iff, !Z.leb_le. tauto.
Qed.

Lemma length_read (m : bytes) (off len : Z) :
  0 <= off -> 0 <= len -> off + len <= blen m ->
  blen (read m off len) = len.
Proof.
  unfold read, blen. intros. rewrite length_take, length_drop. lia.
Qed.

Lemma length_write (m : bytes) (off : Z) (d : bytes) :
  0 <= off -> off + blen d <= blen m ->
  blen (write m off d) = blen m.
Proof.
  unfold write, blen. intros.
  rewrite !length_app, length_take, length_drop. lia.
Qed.

Lemma lookup_write (m : bytes) (off : Z) (d : bytes) (i : nat) :
  0 <= off -> off + blen d <= blen m ->
  write m off d !! i =
    if decide (i < Z.to_nat off)%nat then m !! i
    else if decide (i < Z.to_nat off + length d)%nat
         then d !! (i - Z.to_nat off)%nat
         else m !! i.
Proof.
  unfold write, blen. intros Hoff Hlen.
  assert (Hl : length (take (Z.to_nat off) m) = Z.to_nat off)
    by (rewrite length_take; lia).
  destruct (decide (i < Z.to_nat off)%nat) as [Hi|Hi].
  - rewrite lookup_app_l by lia. rewrite lookup_take_lt by lia. reflexivity.
  - rewrite lookup_app_r by lia. rewrite Hl.
    destruct (decide (i < Z.to_nat off + length d)%nat) as [Hj|Hj].
    + rewrite lookup_app_l by lia. reflexivity.
    + rewrite lookup_app_r by lia. rewrite lookup_drop. f_equal. lia.
Qed.

Lemma lookup_read (m : bytes) (off len : Z) (i : nat) :
  0 <= off -> 0 <= len ->
  read m off len !! i =
    if decide (i < Z.to_nat len)%nat then m !! (Z.to_nat off + i)%nat else None.
Proof.
  unfold read. intros.
  destruct (decide (i < Z.to_nat len)%nat).
  - rewrite lookup_take_lt by lia. apply lookup_drop.
  - apply lookup_take_ge. lia.
Qed.

Lemma read_write_same (m : bytes) (off : Z) (d : bytes) :
  0 <= off -> off + blen d <= blen m ->
  read (write m off d) off (blen d) = d.
Proof.
  unfold read, write, blen. intros.
  rewrite drop_app_length' by (rewrite length_take; lia).
  rewrite Nat2Z.id. apply take_app_length.
Qed.

Lemma read_write_disjoint (m : bytes) (off : Z) (d : bytes) (off' len : Z) :
  0 <= off -> off + blen d <= blen m ->
  0 <= off' -> 0 <= len ->
  off' + len <= off \/ off + blen d <= off' ->
  read (write m off d) off' len = read m off' len.
Proof.
  intros Hoff Hd Hoff' Hlen Hdisj. apply list_eq. intros i.
  rewrite !lookup_read by lia.
  destruct (decide (i < Z.to_nat len)%nat); [|reflexivity].
  rewrite lookup_write by lia. unfold blen in *.
  repeat destruct (decide _); try reflexivity; lia.
Qed.

Lemma read_app_l (m k : bytes) (off len : Z) :
  0 <= off -> 0 <= len -> off + len <= blen m ->
  read (m ++ k) off len = read m off len.
Proof.
  unfold read, blen. intros.
  rewrite drop_app_le by lia. rewrite take_app_le; [reflexivity|].
  rewrite length_drop. lia.
Qed.

Lemma read_read (m : bytes) (off len off' len' : Z) :
  0 <= off -> 0 <= off' -> 0 <= len' -> off' + len' <= len ->
  read (read m off len) off' len' = read m (off + off') len'.
Proof.
  intros. apply list_eq. intros i.
  rewrite !lookup_read by lia.
  destruct (decide (i < Z.to_nat len')%nat); [|reflexivity].
  rewrite decide_True by lia. f_equal. lia.
Qed.

Lemma read_split (m : bytes) (off len1 len2 : Z) :
  0 <= off -> 0 <= len1 -> 0 <= len2 ->
  read m off (len1 + len2) = read m off len1 ++ read m (off + len1) len2.
Proof.
  unfold read. intros.
  rewrite Z2Nat.inj_add by lia.
  rewrite (Z2Nat.inj_add off len1) by lia.
  rewrite <- drop_drop.
  generalize (drop (Z.to_nat off) m). intros l.
  rewrite <- (take_drop (Z.to_nat len1) l) at 1.
  destruct (decide (Z.to_nat len1 <= length l)%nat).
  - rewrite take_app_add' by (rewrite length_take; lia). reflexivity.
  - rewrite (drop_ge l) by lia. rewrite app_nil_r.
    rewrite take_take, Nat.min_r by lia. simpl. rewrite take_nil.
    rewrite app_nil_r. rewrite !take_ge by lia. reflexivity.
Qed.

Lemma read_all (m : bytes) : read m 0 (blen m) = m.
Proof.
  unfold read, blen. rewrite Nat2Z.id. simpl. apply firstn_all.
Qed.

Lemma slice_in (m : bytes) (b e : Z) :
  0 <= b <= e -> e <= blen m -> slice m b e = read m b (e - b).
Proof.
  intros. unfold slice. rewrite !JSFacts.rel_index_in by lia.
  f_equal. lia.
Qed.

End MemFacts.

(** ** Facts about the instance *)

Lemma bind_Ok {A B} (c : M A) (k : A -> M B) (s s' : Wasm) (a : A) :
  c s = Ok a s' -> bind c k s = k a s'.
Proof. unfold bind. intros ->. reflexivity. Qed.

Lemma blen_app (a b : bytes) : blen (a ++ b) = blen a + blen b.
Proof. unfold blen. rewrite length_app. lia. Qed.

Lemma blen_nonneg (a : bytes) : 0 <= blen a.
Proof. unfold blen. lia. Qed.

Lemma blen_digest (d : Digest) : blen (vec_to_list d) = 32.
Proof. unfold blen. rewrite length_vec_to_list. reflexivity. Qed.

Lemma blen_NULL_BUFFER : blen NULL_BUFFER = 32.
Proof. reflexivity. Qed.

Module MemMore.
Import Mem MemFacts.

Lemma read_write_two (m : bytes) (off : Z) (a b : bytes) :
  0 <= off -> off + blen a + blen b <= blen m ->
  read (write (write m off a) (off + blen a) b) off (blen a + blen b) = a ++ b.
Proof.
  intros. pose proof (blen_nonneg a). pose proof (blen_nonneg b).
  assert (Hl : blen (write m off a) = blen m) by (apply length_write; lia).
  rewrite read_split by lia. f_equal.
  - rewrite read_write_disjoint by lia. apply read_write_same; lia.
  - apply read_write_same; lia.
Qed.

Lemma read_write_same_len (m : bytes) (off : Z) (d : bytes) (len : Z) :
  0 <= off -> off + blen d <= blen m -> len = blen d ->
  read (write m off d) off len = d.
Proof. intros ? ? ->. apply read_write_same; assumption. Qed.

Lemma read_whole (d : bytes) (len : Z) : len = blen d -> read d 0 len = d.
Proof. intros ->. apply read_all. Qed.

End MemMore.

Module ArenaFacts.
Import Arena.

Lemma align16_ge (a : Z) : a <= align16 a.
Proof.
  unfold align16. pose proof (Z.div_mod (a + 15) 16).
  pose proof (Z.mod_pos_bound (a + 15) 16). lia.
Qed.

Lemma align16_mod (a : Z) : (align16 a + 16) mod 8 = 0.
Proof.
  unfold align16.
  replace ((a + 15) / 16 * 16 + 16) with (((a + 15) / 16 * 2 + 2) * 8) by lia.
  apply Z.mod_mul. lia.
Qed.

Lemma newArray_ok (n : Z) (s : Wasm) :
  0 <= n ->
  exists a s', newArray n s = Ok a s' /\ allocated n s a s'.
Proof.
  intros Hn. unfold newArray.
  destruct (Z.ltb_spec n 0); [lia|].
  eexists _, _. split; [reflexivity|].
  pose proof (align16_ge (heapTop s)).
  constructor; cbn [heapTop memory blocks hashCalls];
    try reflexivity; try lia; eauto using align16_mod.
  unfold blen. rewrite length_app, length_replicate. lia.
Qed.

Lemma release_head (a n : Z) (s : Wasm) (l : list (Z * Z)) :
  blocks s = (a, n) :: l ->
  release a s = Ok tt (mkWasm (memory s) l (heapTop s) (hashCalls s)).
Proof.
  intros Hb. unfold release. rewrite Hb. cbn [remove_block fst].
  rewrite Z.eqb_refl. reflexivity.
Qed.

End ArenaFacts.

Ltac st := cbn [memory blocks heapTop hashCalls set_memory fst snd].

Section EngineFacts.

Variable H : bytes -> Digest.
Variables iRef oRef iCap : Z.

Import Mem MemFacts MemMore Arena ArenaFacts.

Local Abbreviation ok := (engine_ok iRef oRef iCap).

Lemma engine_ok_iff (s : Wasm) :
  ok s = true <->
  0 <= iRef /\ 4096 <= iCap /\ iRef + iCap <= heapTop s /\
  0 <= oRef /\ oRef + 32 <= heapTop s /\ heapTop s <= blen (memory s).
Proof.
  unfold engine_ok, oEnd, DIGEST_SIZE.
  rewrite !andb_true_iff, !Z.leb_le. tauto.
Qed.

Lemma U8_set_ok (d : bytes) (off : Z) (s : Wasm) :
  0 <= off -> off + blen d <= blen (memory s) ->
  U8_set d off s = Ok tt (set_memory (write (memory s) off d) s).
Proof.
  intros. unfold U8_set.
  replace (in_bounds _ _ _) with true; [reflexivity|].
  symmetry. apply in_bounds_iff. pose proof (blen_nonneg d). lia.
Qed.

Lemma load_ok (off len : Z) (s : Wasm) :
  0 <= off -> 0 <= len -> off + len <= blen (memory s) ->
  load off len s = Ok (read (memory s) off len) s.
Proof.
  intros. unfold load.
  replace (in_bounds _ _ _) with true; [reflexivity|].
  symmetry. apply in_bounds_iff. lia.
Qed.

Lemma emit_ok (input : bytes) (resRef : Z) (s : Wasm) :
  0 <= resRef -> resRef + 32 <= blen (memory s) ->
  emit H input resRef s =
    Ok tt (mkWasm (write (memory s) resRef (vec_to_list (H input)))
                  (blocks s) (heapTop s) (S (hashCalls s))).
Proof.
  intros. unfold emit, DIGEST_SIZE.
  replace (in_bounds _ _ _) with true; [reflexivity|].
  symmetry. apply in_bounds_iff. lia.
Qed.

Lemma wasm_hash_ok (vRef vLength resRef : Z) (s : Wasm) :
  0 <= vRef -> 0 <= vLength -> vRef + vLength <= blen (memory s) ->
  0 <= resRef -> resRef + 32 <= blen (memory s) ->
  wasm_hash H vRef vLength resRef s =
    Ok tt (mkWasm (write (memory s) resRef
                     (vec_to_list (H (read (memory s) vRef vLength))))
                  (blocks s) (heapTop s) (S (hashCalls s))).
Proof.
  intros. unfold wasm_hash.
  erewrite bind_Ok by (apply load_ok; lia).
  apply emit_ok; lia.
Qed.

Lemma U8_subarray_ok (b e : Z) (s : Wasm) :
  0 <= b <= e -> e <= blen (memory s) ->
  U8_subarray b e s = Ok (read (memory s) b (e - b)) s.
Proof.
  intros. unfold U8_subarray. rewrite slice_in by lia. reflexivity.
Qed.

Lemma memory_slice_ok (b e : Z) (s : Wasm) :
  0 <= b <= e -> e <= blen (memory s) ->
  memory_slice b e s = Ok (read (memory s) b (e - b)) s.
Proof.
  intros. unfold memory_slice. rewrite slice_in by lia. reflexivity.
Qed.

(** [merge] returns the digest of the concatenation. *)
Lemma merge_ok (a b : bytes) (s : Wasm) (lo : Z) :
  0 <= iRef -> iRef + blen a + blen b <= lo ->
  0 <= oRef -> oRef + 32 <= lo -> lo <= blen (memory s) ->
  exists s', merge H iRef oRef a b s = Ok (vec_to_list (H (a ++ b))) s'
             /\ scratch_step lo 1 s s'.
Proof.
  intros Hi Hab Ho Hoe Hlo.
  pose proof (blen_nonneg a). pose proof (blen_nonneg b).
  unfold merge.
  erewrite bind_Ok by (apply U8_set_ok; lia).
  set (m1 := write (memory s) iRef a).
  assert (Hl1 : blen m1 = blen (memory s)) by (apply length_write; lia).
  erewrite bind_Ok by (apply U8_set_ok; st; lia).
  st.
  set (m2 := write m1 (iRef + blen a) b).
  assert (Hl2 : blen m2 = blen (memory s))
    by (unfold m2; rewrite length_write; lia).
  erewrite bind_Ok by (apply wasm_hash_ok; st; lia).
  st.
  unfold m2 at 2, m1. rewrite read_write_two by lia.
  set (d := vec_to_list (H (a ++ b))).
  assert (Hd : blen d = 32) by apply blen_digest.
  rewrite U8_subarray_ok
    by (unfold oEnd, DIGEST_SIZE; st;
        try rewrite length_write; lia).
  st. unfold oEnd, DIGEST_SIZE.
  replace (oRef + 32 - oRef) with (blen d) by lia.
  rewrite read_write_same by lia.
  eexists. split; [reflexivity|].
  constructor; st; try reflexivity.
  - rewrite length_write; lia.
  - intros off len Hoff Hlen.
    rewrite read_write_disjoint by lia.
    unfold m2. rewrite read_write_disjoint by lia.
    unfold m1. rewrite read_write_disjoint by lia. reflexivity.
Qed.

(** The large branch of [digest], whatever the state of the engine: the
    block is released when the hash returns and stays when it traps. *)
Lemma digest_large (value : bytes) (s : Wasm) :
  4096 <= blen value -> 0 <= heapTop s ->
  let vRef := align16 (heapTop s) + 16 in
  let size := Z.max (blen (memory s)) (vRef + blen value) in
  (0 <= oRef /\ oRef + 32 <= size ->
   exists s', digest H iRef oRef value s = Ok (vec_to_list (H value)) s'
              /\ blocks s' = blocks s
              /\ heapTop s' = vRef + blen value
              /\ heapTop s' <= blen (memory s')
              /\ hashCalls s' = S (hashCalls s))
  /\ (~ (0 <= oRef /\ oRef + 32 <= size) ->
      exists s', digest H iRef oRef value s = Throw MemoryTrap s'
                 /\ blocks s' = (vRef, blen value) :: blocks s).
Proof.
  intros Hbig Htop vRef size.
  pose proof (align16_ge (heapTop s)) as Hge.
  assert (Hgt : heapTop s < vRef) by (unfold vRef; lia).
  clear Hge.
  assert (Hnew : newArray (blen value) s =
            Ok vRef (mkWasm (memory s ++ replicate
                       (Z.to_nat (vRef + blen value) - length (memory s)) x00)
                      ((vRef, blen value) :: blocks s) (vRef + blen value)
                      (hashCalls s))).
  { unfold newArray. destruct (Z.ltb_spec (blen value) 0); [lia|reflexivity]. }
  set (m1 := memory s ++ _) in Hnew.
  assert (Hl1 : blen m1 = size).
  { unfold m1, size, blen. rewrite length_app, length_replicate.
    unfold blen in *. lia. }
  unfold digest.
  destruct (Z.ltb_spec (blen value) 4096) as [|_]; [lia|].
  set (m2 := write m1 vRef value).
  assert (Hl2 : blen m2 = size) by (unfold m2; rewrite length_write; lia).
  assert (Hrd : read m2 vRef (blen value) = value)
    by (apply read_write_same; lia).
  cbv beta delta [bind]. rewrite Hnew.
  rewrite U8_set_ok by (st; lia).
  st. fold m2.
  split.
  - intros [Ho Hoe].
    rewrite wasm_hash_ok by (st; lia).
    st. rewrite Hrd.
    erewrite release_head by reflexivity.
    st.
    set (d := vec_to_list (H value)).
    assert (Hd : blen d = 32) by apply blen_digest.
    rewrite U8_subarray_ok
      by (unfold oEnd, DIGEST_SIZE; st;
          try rewrite length_write; lia).
    st. unfold oEnd, DIGEST_SIZE.
    replace (oRef + 32 - oRef) with (blen d) by lia.
    rewrite read_write_same by lia.
    eexists. split; [reflexivity|].
    st.
    rewrite length_write by lia. repeat split; lia.
  - intros Hbad.
    unfold wasm_hash. cbv beta delta [bind].
    rewrite load_ok by (st; lia).
    unfold emit. st.
    replace (in_bounds m2 oRef DIGEST_SIZE) with false.
    + eexists. split; [reflexivity|]. reflexivity.
    + symmetry. apply not_true_is_false. rewrite in_bounds_iff.
      unfold DIGEST_SIZE. lia.
Qed.

(** One run of [digest], with the bytes it writes.  Nothing is asked of
    the input region but room in the memory for a value below the
    threshold; the output region lies below the arena's top. *)
Lemma digest_writes (value : bytes) (s : Wasm) :
  0 <= oRef -> oRef + 32 <= heapTop s -> heapTop s <= blen (memory s) ->
  (blen value < 4096 -> 0 <= iRef /\ iRef + blen value <= blen (memory s)) ->
  exists s',
    digest H iRef oRef value s = Ok (vec_to_list (H value)) s'
    /\ blocks s' = blocks s
    /\ hashCalls s' = S (hashCalls s)
    /\ (forall off len, 0 <= off -> 0 <= len -> off + len <= heapTop s ->
        off + len <= oRef \/ oRef + 32 <= off ->
        (blen value < 4096 -> off + len <= iRef \/ iRef + blen value <= off) ->
        read (memory s') off len = read (memory s) off len)
    /\ (blen value < 4096 -> oRef + 32 <= iRef \/ iRef + blen value <= oRef ->
        read (memory s') iRef (blen value) = value)
    /\ (4096 <= blen value ->
        exists vRef s1,
          newArray (blen value) s = Ok vRef s1
          /\ blocks s1 = (vRef, blen value) :: blocks s
          /\ heapTop s < vRef
          /\ read (memory s') vRef (blen value) = value).
Proof.
  intros Ho Hotop Htop Hsm.
  pose proof (blen_nonneg value) as Hv.
  set (d := vec_to_list (H value)).
  assert (Hd : blen d = 32) by apply blen_digest.
  unfold digest, oEnd, DIGEST_SIZE.
  destruct (Z.ltb_spec (blen value) 4096) as [Hsmall|Hbig].
  - destruct (Hsm Hsmall) as [Hi Hfit].
    cbv beta delta [bind].
    rewrite U8_set_ok by lia. st.
    set (m1 := write (memory s) iRef value).
    assert (Hl1 : blen m1 = blen (memory s)) by (apply length_write; lia).
    rewrite wasm_hash_ok by (st; lia). st.
    unfold m1 at 2. rewrite read_write_same by lia. fold d.
    rewrite U8_subarray_ok by (st; rewrite ?length_write by lia; lia). st.
    rewrite read_write_same_len by lia.
    eexists. split; [reflexivity|]. st.
    split; [reflexivity|]. split; [reflexivity|]. split; [|split].
    + intros off len Hoff Hlen Hend Hdo Hdi. specialize (Hdi Hsmall).
      rewrite read_write_disjoint by lia.
      unfold m1. apply read_write_disjoint; lia.
    + intros _ Hdisj. rewrite read_write_disjoint by lia.
      unfold m1. apply read_write_same; lia.
    + intros Hbig. lia.
  - destruct (newArray_ok (blen value) s Hv) as (vRef & s1 & E1 & A1).
    destruct A1 as [Afresh _ Atop Afits [k Agrow] Ablocks Acalls].
    cbv beta delta [bind]. rewrite E1.
    assert (Hl1 : blen (memory s1) = blen (memory s) + blen k)
      by (rewrite Agrow; apply blen_app).
    pose proof (blen_nonneg k) as Hk.
    rewrite U8_set_ok by lia. st.
    set (m2 := write (memory s1) vRef value).
    assert (Hl2 : blen m2 = blen (memory s1)) by (apply length_write; lia).
    rewrite wasm_hash_ok by (st; lia). st.
    unfold m2 at 2. rewrite read_write_same by lia. fold d.
    erewrite release_head by (st; exact Ablocks). st.
    rewrite U8_subarray_ok by (st; rewrite ?length_write by lia; lia). st.
    rewrite read_write_same_len by lia.
    eexists. split; [reflexivity|]. st.
    split; [reflexivity|]. split; [rewrite Acalls; reflexivity|].
    split; [|split].
    + intros off len Hoff Hlen Hend Hdo _.
      rewrite read_write_disjoint by lia.
      unfold m2. rewrite read_write_disjoint by lia.
      rewrite Agrow. apply read_app_l; lia.
    + intros Hsmall. lia.
    + intros _. exists vRef, s1.
      split; [reflexivity|]. split; [exact Ablocks|]. split; [exact Afresh|].
      rewrite read_write_disjoint by lia.
      unfold m2. apply read_write_same; lia.
Qed.

(** [digest] returns the digest of its argument and leaves the arena as it
    found it. *)
Lemma digest_ok (value : bytes) (s : Wasm) :
  ok s = true ->
  exists s', digest H iRef oRef value s = Ok (vec_to_list (H value)) s'
             /\ blocks s' = blocks s
             /\ ok s' = true
             /\ hashCalls s' = S (hashCalls s).
Proof.
  intros Hok. pose proof Hok as Hok'. apply engine_ok_iff in Hok'.
  destruct Hok' as (Hi & Hcap & Hitop & Ho & Hotop & Htop).
  destruct (Z.ltb_spec (blen value) 4096) as [Hsmall|Hbig].
  - pose proof (blen_nonneg value).
    unfold digest. destruct (Z.ltb_spec (blen value) 4096) as [_|]; [|lia].
    cbv beta delta [bind].
    rewrite U8_set_ok by lia.
    rewrite wasm_hash_ok by (st; rewrite ?length_write; lia).
    st.
    rewrite read_write_same by lia.
    set (d := vec_to_list (H value)).
    assert (Hd : blen d = 32) by apply blen_digest.
    rewrite U8_subarray_ok
      by (unfold oEnd, DIGEST_SIZE; st;
          rewrite ?length_write; rewrite ?length_write; lia).
    st. unfold oEnd, DIGEST_SIZE.
    replace (oRef + 32 - oRef) with (blen d) by lia.
    rewrite read_write_same by (rewrite ?length_write; lia).
    eexists. split; [reflexivity|].
    repeat split; st; try reflexivity.
    apply engine_ok_iff. st.
    rewrite !length_write by (rewrite ?length_write; lia). lia.
  - destruct (digest_large value s Hbig ltac:(lia)) as [Hret _].
    pose proof (align16_ge (heapTop s)).
    destruct Hret as (s' & E & Hb & Ht & Hm & Hc); [lia|].
    exists s'. repeat split; try assumption.
    apply engine_ok_iff. pose proof (blen_nonneg value). lia.
Qed.

(** *** Which errors a call can end with *)

Lemma throws_only_bind {A B} (P : Error -> Prop) (c : M A) (k : A -> M B) :
  throws_only P c -> (forall a, throws_only P (k a)) ->
  throws_only P (bind c k).
Proof.
  intros Hc Hk s e s'. unfold bind.
  destruct (c s) as [a s1|e1 s1] eqn:E.
  - apply Hk.
  - intros [= <- <-]. eapply Hc, E.
Qed.

Lemma throws_only_ret {A} (P : Error -> Prop) (a : A) : throws_only P (ret a).
Proof. intros s e s'. discriminate. Qed.

Lemma throws_only_newArray (P : Error -> Prop) (n : Z) :
  P AllocationFailure -> throws_only P (newArray n).
Proof.
  intros HP s e s'. unfold newArray.
  destruct (n <? 0); [intros [= <- <-]; exact HP | discriminate].
Qed.

Lemma throws_only_release (P : Error -> Prop) (a : Z) :
  P InvalidAddress -> throws_only P (release a).
Proof.
  intros HP s e s'. unfold release.
  destruct (remove_block a (blocks s)); [discriminate | intros [= <- <-]; exact HP].
Qed.

Lemma throws_only_U8_set (P : Error -> Prop) (d : bytes) (off : Z) :
  P RangeError -> throws_only P (U8_set d off).
Proof.
  intros HP s e s'. unfold U8_set.
  destruct (in_bounds _ _ _); [discriminate | intros [= <- <-]; exact HP].
Qed.

Lemma throws_only_U64_set (P : Error -> Prop) (idx v : Z) :
  throws_only P (U64_set idx v).
Proof.
  intros s e s'. unfold U64_set. destruct (_ && _); discriminate.
Qed.

Lemma throws_only_bufferBytes (P : Error -> Prop) (b : Buffer) :
  throws_only P (bufferBytes b).
Proof. intros s e s'. discriminate. Qed.

Lemma throws_only_load (P : Error -> Prop) (off len : Z) :
  P MemoryTrap -> throws_only P (load off len).
Proof.
  intros HP s e s'. unfold load.
  destruct (in_bounds _ _ _); [discriminate | intros [= <- <-]; exact HP].
Qed.

Lemma throws_only_emit (P : Error -> Prop) (input : bytes) (resRef : Z) :
  P MemoryTrap -> throws_only P (emit H input resRef).
Proof.
  intros HP s e s'. unfold emit.
  destruct (in_bounds _ _ _); [discriminate | intros [= <- <-]; exact HP].
Qed.

Lemma throws_only_wasm_hash (P : Error -> Prop) (vRef vLength resRef : Z) :
  P MemoryTrap -> throws_only P (wasm_hash H vRef vLength resRef).
Proof.
  intros HP. apply throws_only_bind; [apply throws_only_load, HP|].
  intros a. apply throws_only_emit, HP.
Qed.

Lemma throws_only_hashValues1 (P : Error -> Prop) (vRef resRef size count : Z) :
  P MemoryTrap -> throws_only P (hashValues1 H vRef resRef size count).
Proof.
  intros HP. unfold hashValues1.
  generalize (Z.to_nat count) as n. intros n. revert vRef resRef.
  induction n as [|n IH]; intros vRef resRef; cbn [hashValues1_loop].
  - apply throws_only_ret.
  - apply throws_only_bind; [apply throws_only_wasm_hash, HP|].
    intros _. apply IH.
Qed.

Lemma throws_only_when (P : Error -> Prop) (b : bool) (c : M unit) :
  throws_only P c -> throws_only P (when b c).
Proof.
  intros Hc. destruct b; [exact Hc | apply throws_only_ret].
Qed.

(** The steps of a call throw the errors of its primitives only. *)
Ltac throws_tac :=
  repeat first
    [ apply throws_only_ret
    | apply throws_only_newArray; discriminate
    | apply throws_only_U8_set; discriminate
    | apply throws_only_bufferBytes
    | apply throws_only_hashValues1; discriminate
    | apply throws_only_when
    | apply throws_only_release; discriminate
    | apply throws_only_bind
    | match goal with
      | |- forall _, throws_only _ _ => intro
      | |- throws_only _ (if ?b then _ else _) => destruct b
      end ].

(** *** The batched hash of records *)

Lemma hashValues1_loop_ok (n : nat) (vRef resRef size : Z) (s : Wasm) :
  0 <= size -> 0 <= vRef -> vRef + Z.of_nat n * size <= blen (memory s) ->
  0 <= resRef -> resRef + 32 * Z.of_nat n <= blen (memory s) ->
  vRef + Z.of_nat n * size <= resRef \/ resRef + 32 * Z.of_nat n <= vRef ->
  exists s', hashValues1_loop H n vRef resRef size s
               = Ok (resRef + 32 * Z.of_nat n) s'
             /\ hashed_records H (Z.of_nat n) size vRef resRef s s'.
Proof.
  revert vRef resRef s.
  induction n as [|n IH]; intros vRef resRef s Hsize Hv Hvb Hr Hrb Hdisj.
  - cbn [hashValues1_loop]. exists s. split.
    + unfold ret. f_equal. lia.
    + constructor; try reflexivity. intros i Hi. lia.
  - cbn [hashValues1_loop]. unfold DIGEST_SIZE.
    assert (Hn : Z.of_nat (S n) = Z.of_nat n + 1) by lia.
    rewrite Hn in *.
    erewrite bind_Ok by (apply wasm_hash_ok; nia).
    set (d := vec_to_list (H (read (memory s) vRef size))).
    assert (Hd : blen d = 32) by apply blen_digest.
    set (s1 := mkWasm _ _ _ _).
    assert (Hl1 : blen (memory s1) = blen (memory s))
      by (unfold s1; st; apply length_write; lia).
    destruct (IH (vRef + size) (resRef + 32) s1) as (s' & E & R);
      try nia.
    exists s'. split.
    + rewrite E. f_equal. lia.
    + destruct R as [Rl Rb Rt Rc Rf Rd].
      constructor.
      * lia.
      * rewrite Rb. reflexivity.
      * rewrite Rt. reflexivity.
      * rewrite Rc. unfold s1. st. lia.
      * intros off len Hoff Hlen Hout.
        rewrite Rf by lia. unfold s1. st. fold d.
        apply read_write_disjoint; lia.
      * intros i Hi.
        destruct (decide (i = 0)) as [->|Hi0].
        -- rewrite Rf by lia. unfold s1. st.
           replace (resRef + 32 * 0) with resRef by lia.
           replace (vRef + 0 * size) with vRef by lia.
           fold d. rewrite <- Hd. apply read_write_same; lia.
        -- replace (resRef + 32 * i) with (resRef + 32 + 32 * (i - 1)) by lia.
           rewrite Rd by lia. unfold s1. st. fold d.
           rewrite read_write_disjoint by nia.
           do 3 f_equal. lia.
Qed.

Lemma hashValues1_ok (vRef resRef size count : Z) (s : Wasm) :
  0 <= size -> 0 <= count ->
  0 <= vRef -> vRef + count * size <= blen (memory s) ->
  0 <= resRef -> resRef + 32 * count <= blen (memory s) ->
  vRef + count * size <= resRef \/ resRef + 32 * count <= vRef ->
  exists s', hashValues1 H vRef resRef size count s
               = Ok (resRef + 32 * count) s'
             /\ hashed_records H count size vRef resRef s s'.
Proof.
  intros. unfold hashValues1.
  destruct (hashValues1_loop_ok (Z.to_nat count) vRef resRef size s)
    as (s' & E & R); rewrite ?Z2Nat.id by lia; try lia.
  exists s'. rewrite Z2Nat.id in E, R by lia. split; assumption.
Qed.

(** *** Copying a buffer of the host into the memory *)

Lemma release_second (a : Z) (b1 : Z * Z) (n : Z) (s : Wasm) (l : list (Z * Z)) :
  blocks s = b1 :: (a, n) :: l -> b1.1 <> a ->
  release a s = Ok tt (mkWasm (memory s) (b1 :: l) (heapTop s) (hashCalls s)).
Proof.
  intros Hb Hne. unfold release. rewrite Hb. cbn [remove_block fst].
  destruct (Z.eqb_spec b1.1 a); [contradiction|].
  rewrite Z.eqb_refl. reflexivity.
Qed.

Lemma buffer_ok_iff (s : Wasm) (b : Buffer) :
  buffer_ok s b = true <->
  match b with
  | WasmView off len => 0 <= off /\ 0 <= len /\ off + len <= heapTop s
  | HostBuffer _ => True
  end.
Proof.
  destruct b as [off len|d]; cbn [buffer_ok]; [|tauto].
  rewrite !andb_true_iff, !Z.leb_le. tauto.
Qed.

Lemma copyLeaves_ok (b : Buffer) (s : Wasm) :
  0 <= heapTop s -> heapTop s <= blen (memory s) -> buffer_ok s b = true ->
  exists lRef rel s', copyLeaves b s = Ok (lRef, rel) s'
                      /\ copied b s lRef rel s'.
Proof.
  intros Htop Hfit Hb. apply buffer_ok_iff in Hb.
  destruct b as [off len|d]; cbn [copyLeaves isWasm negb byteOffset byteLength].
  - exists off, false, s. split; [reflexivity|].
    destruct Hb as (Hoff & Hlen & Hend).
    constructor; cbn [byteLength contents]; try reflexivity; try lia;
      try discriminate.
  - pose proof (blen_nonneg d) as Hd.
    destruct (newArray_ok (blen d) s Hd) as (a & s1 & E & A).
    destruct A as [Afresh _ Atop Afits [k Agrow] Ablocks Acalls].
    cbv beta delta [bind]. rewrite E.
    unfold bufferBytes. cbn [contents].
    rewrite U8_set_ok by lia.
    eexists a, true, _. split; [reflexivity|].
    constructor; st; cbn [byteLength contents]; try lia; try reflexivity.
    + rewrite length_write by lia. lia.
    + apply read_write_same; lia.
    + intros off len Hoff Hlen Hend.
      rewrite read_write_disjoint by lia.
      rewrite Agrow. apply read_app_l; lia.
    + rewrite Ablocks. reflexivity.
Qed.

(** *** [digestValues] *)

Lemma digestValues_run (values : Buffer) (valueSize : Z) (s : Wasm) :
  ok s = true -> buffer_ok s values = true ->
  0 < valueSize -> byteLength values mod valueSize = 0 ->
  exists resRef s',
    let count := byteLength values / valueSize in
    digestValues H values valueSize s
      = Ok (WasmVector resRef count DIGEST_SIZE) s'
    /\ ok s' = true
    /\ 0 <= resRef
    /\ blocks s' = (resRef, count * 32) :: blocks s
    /\ hashCalls s' = (Z.to_nat count + hashCalls s)%nat
    /\ (forall i, 0 <= i < count ->
         read (memory s') (resRef + 32 * i) 32 =
         vec_to_list (H (read (contents (memory s) values)
                              (i * valueSize) valueSize)))
    /\ heapTop s' = resRef + count * 32
    /\ (forall off len, 0 <= off -> 0 <= len -> off + len <= heapTop s ->
        read (memory s') off len = read (memory s) off len).
Proof.
  intros Hok Hb Hvs Hmod.
  apply engine_ok_iff in Hok.
  destruct Hok as (Hi & Hcap & Hitop & Ho & Hotop & Htop).
  set (B := byteLength values) in *.
  set (count := B / valueSize).
  assert (HB : B = count * valueSize).
  { unfold count. pose proof (Z.div_mod B valueSize). lia. }
  destruct (copyLeaves_ok values s) as (lRef & rel & s1 & E1 & C);
    [lia | lia | assumption |].
  destruct C as [Cl Clen Ctop Cfits Cmono Cdata Cbelow Cblocks Cfresh Ccalls].
  fold B in Clen, Ctop, Cdata, Cblocks.
  assert (Hc : 0 <= count) by nia.
  destruct (newArray_ok (count * 32) s1 ltac:(lia)) as (a2 & s2 & E2 & A).
  destruct A as [Afresh _ Atop Afits [k Agrow] Ablocks Acalls].
  assert (Hl2 : blen (memory s2) = blen (memory s1) + blen k)
    by (rewrite Agrow; apply blen_app).
  pose proof (blen_nonneg k) as Hk.
  destruct (hashValues1_ok lRef a2 valueSize count s2) as (s3 & E3 & R);
    try lia.
  destruct R as [Rl Rb Rt Rc Rf Rd].
  unfold digestValues.
  replace (JS.div_isInteger (byteLength values) valueSize) with true.
  2:{ unfold JS.div_isInteger. destruct (Z.eqb_spec valueSize 0); [lia|].
      symmetry. apply Z.eqb_eq. exact Hmod. }
  cbn [negb]. fold B. fold count.
  assert (Ecopy : (if isWasm values then ret (byteOffset values, false)
                   else vRef <- newArray B ;; d <- bufferBytes values ;;
                        U8_set d vRef ;; ret (vRef, true)) s
                  = Ok (lRef, rel) s1).
  { rewrite <- E1. unfold copyLeaves. fold B.
    destruct (isWasm values); reflexivity. }
  erewrite bind_Ok by exact Ecopy. cbn [fst snd].
  unfold DIGEST_SIZE.
  erewrite bind_Ok by exact E2.
  erewrite bind_Ok by exact E3.
  assert (Hrd : forall s4, memory s4 = memory s3 ->
            forall i, 0 <= i < count ->
            read (memory s4) (a2 + 32 * i) 32 =
            vec_to_list (H (read (contents (memory s) values)
                                 (i * valueSize) valueSize))).
  { intros s4 -> i Hi'. rewrite Rd by lia. do 2 f_equal.
    rewrite Agrow. rewrite read_app_l by nia.
    rewrite <- Cdata. rewrite read_read by nia. reflexivity. }
  assert (Hfr : forall s4, memory s4 = memory s3 ->
            forall off len, 0 <= off -> 0 <= len -> off + len <= heapTop s ->
            read (memory s4) off len = read (memory s) off len).
  { intros s4 -> off len Hoff Hlen Hend.
    rewrite Rf by lia. rewrite Agrow. rewrite read_app_l by lia.
    apply Cbelow; lia. }
  destruct rel; cbn [when].
  - erewrite bind_Ok.
    2:{ apply release_second with (n := B) (l := blocks s).
        - rewrite Rb, Ablocks, Cblocks. reflexivity.
        - cbn [fst]. specialize (Cfresh eq_refl). lia. }
    exists a2. eexists. cbv zeta. split; [reflexivity|].
    st. split; [|split; [|split; [|split]]].
    + apply engine_ok_iff. st. lia.
    + lia.
    + reflexivity.
    + lia.
    + split; [apply Hrd; reflexivity|]. split; [lia|].
      apply Hfr. reflexivity.
  - exists a2, s3. cbv zeta. split; [reflexivity|].
    split; [|split; [|split; [|split]]].
    + apply engine_ok_iff. lia.
    + lia.
    + rewrite Rb, Ablocks, Cblocks. reflexivity.
    + lia.
    + split; [apply Hrd; reflexivity|]. split; [lia|].
      apply Hfr. reflexivity.
Qed.

Lemma digestValues_ok (values : Buffer) (valueSize : Z) (s : Wasm) :
  ok s = true -> buffer_ok s values = true ->
  0 < valueSize -> byteLength values mod valueSize = 0 ->
  exists resRef s',
    let count := byteLength values / valueSize in
    digestValues H values valueSize s
      = Ok (WasmVector resRef count DIGEST_SIZE) s'
    /\ ok s' = true
    /\ 0 <= resRef
    /\ blocks s' = (resRef, count * 32) :: blocks s
    /\ hashCalls s' = (Z.to_nat count + hashCalls s)%nat
    /\ forall i, 0 <= i < count ->
         read (memory s') (resRef + 32 * i) 32 =
         vec_to_list (H (read (contents (memory s) values)
                              (i * valueSize) valueSize)).
Proof.
  intros Hok Hb Hvs Hmod.
  destruct (digestValues_run values valueSize s Hok Hb Hvs Hmod)
    as (resRef & s' & E & Hok' & Hres & Hbl & Hc & Hd & _).
  exists resRef, s'. cbv zeta in *. repeat split; assumption.
Qed.

(** *** The blocks of [buildMerkleNodes] *)

Lemma region_step_refl (lo a b : Z) (s : Wasm) : region_step lo a b 0 s s.
Proof. constructor; reflexivity. Qed.

Lemma scratch_region_step (lo a b : Z) (n : nat) (s s' : Wasm) :
  scratch_step lo n s s' -> region_step lo a b n s s'.
Proof.
  intros [Hl Hf Hb Ht Hc]. constructor; try assumption.
  intros off len Hoff Hlen _. apply Hf; assumption.
Qed.

Lemma region_step_trans (lo a b : Z) (n1 n2 : nat) (s1 s2 s3 : Wasm) :
  region_step lo a b n1 s1 s2 -> region_step lo a b n2 s2 s3 ->
  region_step lo a b (n2 + n1) s1 s3.
Proof.
  intros [Hl1 Hf1 Hb1 Ht1 Hc1] [Hl2 Hf2 Hb2 Ht2 Hc2].
  constructor; try congruence; try lia.
  intros off len Hoff Hlen Hout. rewrite Hf2, Hf1 by assumption. reflexivity.
Qed.

(** The last leaf of an odd number of leaves. *)
Lemma processLastLeaf_odd (leaves : Vector) (lBuffer : Buffer)
    (evenLeafCount resRef lo : Z) (D : bytes) (s : Wasm) :
  evenLeafCount <> v_length leaves ->
  contents (memory s) lBuffer = D -> byteLength lBuffer = blen D ->
  0 < v_elementSize leaves <= blen D ->
  0 <= iRef -> iRef + v_elementSize leaves + 32 <= lo ->
  lo <= resRef -> resRef + 32 <= blen (memory s) ->
  exists s',
    processLastLeaf H iRef leaves lBuffer evenLeafCount resRef s
      = Ok (resRef + 32) s'
    /\ region_step lo resRef (resRef + 32) 1 s s'
    /\ read (memory s') resRef 32 =
       vec_to_list (H (read D (blen D - v_elementSize leaves) (v_elementSize leaves)
                       ++ NULL_BUFFER)).
Proof.
  intros Hodd HD HB Hes Hi Hcap Hlo Hres.
  set (es := v_elementSize leaves) in *.
  unfold processLastLeaf. fold es.
  destruct (Z.eqb_spec evenLeafCount (v_length leaves)) as [|_]; [contradiction|].
  cbn [negb]. cbv beta zeta delta [bind bufferSlice].
  rewrite HD, HB.
  rewrite slice_in by lia.
  replace (blen D - (blen D - es)) with es by lia.
  set (lastLeaf := read D (blen D - es) es).
  assert (Hll : blen lastLeaf = es) by (apply length_read; lia).
  rewrite Hll.
  rewrite U8_set_ok by lia. st.
  set (m1 := write (memory s) iRef lastLeaf).
  assert (Hl1 : blen m1 = blen (memory s)) by (apply length_write; lia).
  pose proof blen_NULL_BUFFER as Hnull.
  rewrite U8_set_ok by (st; lia). st.
  set (m2 := write m1 (iRef + es) NULL_BUFFER).
  assert (Hl2 : blen m2 = blen (memory s))
    by (unfold m2; rewrite length_write; lia).
  unfold DIGEST_SIZE.
  rewrite wasm_hash_ok by (st; lia). st.
  assert (Hin : read m2 iRef (es + 32) = lastLeaf ++ NULL_BUFFER).
  { pose proof (read_write_two (memory s) iRef lastLeaf NULL_BUFFER) as Htwo.
    rewrite Hll, Hnull in Htwo. apply Htwo; lia. }
  rewrite Hin.
  set (d := vec_to_list (H (lastLeaf ++ NULL_BUFFER))).
  assert (Hd : blen d = 32) by apply blen_digest.
  eexists. split; [reflexivity|]. split.
  - constructor; st; try reflexivity.
    + rewrite length_write by lia. lia.
    + intros off len Hoff Hlen Hout.
      rewrite read_write_disjoint by lia.
      unfold m2. rewrite read_write_disjoint by lia.
      unfold m1. rewrite read_write_disjoint by lia. reflexivity.
  - st. rewrite <- Hd. apply read_write_same; lia.
Qed.

(** The loop that fills the rest of the lowest row: [fuel] rounds are
    enough for [k <= fuel] slots. *)
Lemma fillLoop_ok (k : nat) (fuel : nat) (nullParent : bytes)
    (resRef lo : Z) (s : Wasm) :
  blen nullParent = 32 -> 0 <= lo -> (k <= fuel)%nat ->
  lo <= resRef -> 0 <= resRef ->
  resRef + 32 * Z.of_nat k <= blen (memory s) ->
  exists s',
    fillLoop fuel nullParent resRef (resRef + 32 * Z.of_nat k) s = Ok tt s'
    /\ region_step lo resRef (resRef + 32 * Z.of_nat k) 0 s s'
    /\ forall j, 0 <= j < Z.of_nat k ->
       read (memory s') (resRef + 32 * j) 32 = nullParent.
Proof.
  intros Hnp Hlo0. revert fuel resRef s.
  induction k as [|k IH]; intros fuel resRef s Hfuel Hlo Hres Hfit.
  - exists s. split; [|split].
    + destruct fuel; cbn [fillLoop]; [reflexivity|].
      destruct (Z.ltb_spec resRef (resRef + 32 * Z.of_nat 0)); [lia|reflexivity].
    + apply region_step_refl.
    + intros j Hj. lia.
  - destruct fuel as [|fuel]; [lia|]. cbn [fillLoop].
    destruct (Z.ltb_spec resRef (resRef + 32 * Z.of_nat (S k))); [|lia].
    unfold DIGEST_SIZE.
    erewrite bind_Ok by (apply U8_set_ok; lia).
    set (s1 := set_memory _ s).
    assert (Hl1 : blen (memory s1) = blen (memory s))
      by (unfold s1; st; apply length_write; lia).
    destruct (IH fuel (resRef + 32) s1) as (s' & E & R & Hslots); try lia.
    replace (resRef + 32 + 32 * Z.of_nat k) with (resRef + 32 * Z.of_nat (S k))
      in E, R by lia.
    exists s'. split; [exact E|]. split.
    + destruct R as [Rl Rf Rb Rt Rc]. constructor.
      * lia.
      * intros off len Hoff Hlen Hout. rewrite Rf by lia.
        unfold s1. st. apply read_write_disjoint; lia.
      * rewrite Rb. reflexivity.
      * rewrite Rt. reflexivity.
      * rewrite Rc. reflexivity.
    + intros j Hj. destruct (decide (j = 0)) as [->|Hj0].
      * destruct R as [Rl Rf Rb Rt Rc].
        replace (resRef + 32 * 0) with resRef by lia.
        rewrite Rf by lia. unfold s1. st.
        rewrite <- Hnp. apply read_write_same; lia.
      * replace (resRef + 32 * j) with (resRef + 32 + 32 * (j - 1)) by lia.
        apply Hslots. lia.
Qed.

(** The walk of [hashValues2] over [n] parents, from parent [n - 1] down to
    parent 0: the nodes from [n] on are left alone, and every parent from 1
    on is the digest of its two children. *)
Lemma hashValues2_loop_ok (n : nat) (nRef : Z) (s : Wasm) :
  0 <= nRef -> nRef + 64 * Z.of_nat n <= blen (memory s) ->
  exists r s',
    hashValues2_loop H n (nRef + 64 * (Z.of_nat n - 1))
                     (nRef + 32 * (Z.of_nat n - 1)) 64 s = Ok r s'
    /\ region_step 0 nRef (nRef + 32 * Z.of_nat n) n s s'
    /\ forall j, 1 <= j < Z.of_nat n ->
       node (memory s') nRef j =
       vec_to_list (H (node (memory s') nRef (2 * j)
                       ++ node (memory s') nRef (2 * j + 1))).
Proof.
  revert s. induction n as [|n IH]; intros s HnRef Hfit.
  - exists (nRef + 32 * (Z.of_nat 0 - 1)), s. split; [reflexivity|]. split.
    + apply region_step_refl.
    + intros j Hj. lia.
  - cbn [hashValues2_loop]. unfold DIGEST_SIZE.
    replace (Z.of_nat (S n) - 1) with (Z.of_nat n) by lia.
    assert (Hn : Z.of_nat (S n) = Z.of_nat n + 1) by lia.
    erewrite bind_Ok by (apply wasm_hash_ok; lia).
    set (src := read (memory s) (nRef + 64 * Z.of_nat n) 64).
    set (d := vec_to_list (H src)).
    assert (Hd : blen d = 32) by apply blen_digest.
    set (s1 := mkWasm _ _ _ _).
    assert (Hl1 : blen (memory s1) = blen (memory s))
      by (unfold s1; st; apply length_write; lia).
    destruct (IH s1) as (r & s' & E & R & Hnodes); try lia.
    replace (nRef + 64 * Z.of_nat n - 64) with (nRef + 64 * (Z.of_nat n - 1)) by lia.
    replace (nRef + 32 * Z.of_nat n - 32) with (nRef + 32 * (Z.of_nat n - 1)) by lia.
    exists r, s'. split; [exact E|].
    destruct R as [Rl Rf Rb Rt Rc].
    assert (Hn1 : forall off len, 0 <= off -> 0 <= len ->
              off + len <= nRef + 32 * Z.of_nat n \/ nRef + 32 * Z.of_nat n + 32 <= off ->
              read (memory s1) off len = read (memory s) off len).
    { intros off len Hoff Hlen Hout. unfold s1. st. fold d.
      apply read_write_disjoint; lia. }
    split.
    + constructor.
      * lia.
      * intros off len Hoff Hlen Hout. rewrite Rf by lia. apply Hn1; lia.
      * rewrite Rb. reflexivity.
      * rewrite Rt. reflexivity.
      * rewrite Rc. unfold s1. st. lia.
    + intros j Hj. destruct (decide (j = Z.of_nat n)) as [->|Hjn].
      * unfold node.
        rewrite !Rf by lia.
        rewrite (Hn1 (nRef + 32 * (2 * Z.of_nat n))) by lia.
        rewrite (Hn1 (nRef + 32 * (2 * Z.of_nat n + 1))) by lia.
        unfold s1. st. fold d.
        rewrite read_write_same_len by lia.
        unfold d, src. do 2 f_equal.
        replace (nRef + 32 * (2 * Z.of_nat n + 1))
          with (nRef + 64 * Z.of_nat n + 32) by lia.
        replace (nRef + 32 * (2 * Z.of_nat n)) with (nRef + 64 * Z.of_nat n) by lia.
        apply (read_split (memory s) (nRef + 64 * Z.of_nat n) 32 32); lia.
      * apply Hnodes. lia.
Qed.

Lemma vector_ok_iff (s : Wasm) (v : Vector) :
  vector_ok s v = true <->
  0 <= v_length v /\ 0 < v_elementSize v < 2 ^ 30
  /\ byteLength (toBuffer v) = v_length v * v_elementSize v
  /\ buffer_ok s (toBuffer v) = true.
Proof.
  unfold vector_ok.
  rewrite !andb_true_iff, !Z.leb_le, !Z.ltb_lt, Z.eqb_eq. tauto.
Qed.

(** The bytes of a buffer that is valid in [s], read in [s]. *)
Lemma blen_contents (s : Wasm) (b : Buffer) :
  heapTop s <= blen (memory s) -> buffer_ok s b = true ->
  blen (contents (memory s) b) = byteLength b.
Proof.
  intros Hfit Hb. apply buffer_ok_iff in Hb.
  destruct b as [off len|d]; cbn [contents byteLength]; [|reflexivity].
  apply length_read; lia.
Qed.

(** Both branches of [processLastLeaf]: the slot behind the pairs is
    written when the number of leaves is odd. *)
Lemma processLastLeaf_ok (leaves : Vector) (lBuffer : Buffer)
    (resRef lo : Z) (D : bytes) (s : Wasm) :
  let L := v_length leaves in
  let es := v_elementSize leaves in
  0 <= L ->
  contents (memory s) lBuffer = D -> byteLength lBuffer = blen D ->
  blen D = L * es -> 0 < es ->
  0 <= iRef -> (L mod 2 = 1 -> iRef + es + 32 <= lo) -> 0 <= lo ->
  lo <= resRef -> resRef + 32 * (L mod 2) <= blen (memory s) ->
  exists s',
    processLastLeaf H iRef leaves lBuffer
      (if L mod 2 =? 0 then L else L - 1) resRef s
      = Ok (resRef + 32 * (L mod 2)) s'
    /\ region_step lo resRef (resRef + 32 * (L mod 2)) (Z.to_nat (L mod 2)) s s'
    /\ (L mod 2 = 1 ->
        read (memory s') resRef 32 =
        vec_to_list (H (read D (blen D - es) es ++ NULL_BUFFER))).
Proof.
  intros L es HL HD HB HDl Hes Hi Hcap Hlo0 Hlo Hfit.
  pose proof (Z.mod_pos_bound L 2 ltac:(lia)) as Hmod.
  destruct (Z.eqb_spec (L mod 2) 0) as [Heven|Hodd].
  - rewrite Heven. exists s. split; [|split].
    + unfold processLastLeaf. fold L. rewrite Z.eqb_refl. cbn [negb].
      unfold ret. f_equal. lia.
    + replace (resRef + 32 * 0) with resRef by lia. apply region_step_refl.
    + intros Hone; lia.
  - assert (Hone : L mod 2 = 1) by lia. rewrite Hone.
    assert (HL1 : 1 <= L).
    { destruct (decide (L = 0)) as [->|]; [discriminate Hone | lia]. }
    destruct (processLastLeaf_odd leaves lBuffer (L - 1) resRef lo D s)
      as (s' & E & R & Hslot); fold L es; try lia; try assumption.
    + nia.
    + exists s'. replace (resRef + 32 * 1) with (resRef + 32) by lia.
      split; [exact E|]. split; [exact R|]. intros _. exact Hslot.
Qed.

(** Both branches of [fillNullParents]: the [k] slots from [resRef] to the
    end of the buffer are filled when there are fewer leaves than the tree
    holds. *)
Lemma fillNullParents_step (leaves : Vector)
    (nodeCount nRef resRef k lo : Z) (s : Wasm) :
  0 <= iRef -> 0 <= oRef -> 0 <= lo ->
  (v_length leaves < nodeCount -> iRef + 64 <= lo /\ oRef + 32 <= lo) ->
  lo <= nRef -> nRef <= resRef -> 0 <= k ->
  nRef + nodeCount * 32 = resRef + 32 * k ->
  resRef + 32 * k <= blen (memory s) ->
  (nodeCount <= v_length leaves -> k = 0) ->
  exists s',
    fillNullParents H iRef oRef leaves nodeCount nRef (nodeCount * DIGEST_SIZE)
      resRef s = Ok tt s'
    /\ region_step lo resRef (resRef + 32 * k)
         (if v_length leaves <? nodeCount then 1 else 0) s s'
    /\ forall j, 0 <= j < k ->
       read (memory s') (resRef + 32 * j) 32 =
       vec_to_list (H (NULL_BUFFER ++ NULL_BUFFER)).
Proof.
  intros Hi Ho Hlo0 Hscr Hlo Hres Hk Hend Hfit Hfull.
  unfold fillNullParents, DIGEST_SIZE.
  destruct (Z.ltb_spec (v_length leaves) nodeCount) as [Hlt|Hge].
  - destruct (Hscr Hlt) as [Hcap Hoe].
    destruct (merge_ok NULL_BUFFER NULL_BUFFER s lo) as (s1 & E1 & S1);
      rewrite ?blen_NULL_BUFFER; try lia.
    erewrite bind_Ok by exact E1.
    pose proof S1 as [Sl Sf Sb St Sc].
    rewrite Hend. replace (resRef + 32 * k - resRef) with (32 * k) by lia.
    destruct (fillLoop_ok (Z.to_nat k) (Z.to_nat (32 * k))
                (vec_to_list (H (NULL_BUFFER ++ NULL_BUFFER))) resRef lo s1)
      as (s' & E & R & Hslots);
      rewrite ?Z2Nat.id by lia; try lia; try apply blen_digest.
    rewrite Z2Nat.id in E, R, Hslots by lia.
    exists s'. split; [exact E|]. split; [|exact Hslots].
    apply (region_step_trans _ _ _ 1 0 s s1 s'); [|exact R].
    apply scratch_region_step. exact S1.
  - rewrite (Hfull Hge). exists s. split; [reflexivity|]. split.
    + apply region_step_refl.
    + intros j Hj. lia.
Qed.

Lemma fillNullParents_ok (leaves : Vector)
    (nodeCount nRef resRef k : Z) (s : Wasm) :
  0 <= iRef -> iRef + 64 <= nRef -> 0 <= oRef -> oRef + 32 <= nRef ->
  nRef <= resRef -> 0 <= k ->
  nRef + nodeCount * 32 = resRef + 32 * k ->
  resRef + 32 * k <= blen (memory s) ->
  (nodeCount <= v_length leaves -> k = 0) ->
  exists s',
    fillNullParents H iRef oRef leaves nodeCount nRef (nodeCount * DIGEST_SIZE)
      resRef s = Ok tt s'
    /\ region_step nRef resRef (resRef + 32 * k)
         (if v_length leaves <? nodeCount then 1 else 0) s s'
    /\ forall j, 0 <= j < k ->
       read (memory s') (resRef + 32 * j) 32 =
       vec_to_list (H (NULL_BUFFER ++ NULL_BUFFER)).
Proof.
  intros. apply fillNullParents_step; lia.
Qed.

(** The rows above the lowest one. *)
Lemma calcOtherNodes_ok (nRef parentCount : Z) (s : Wasm) :
  0 <= parentCount <= 2 ^ 25 -> 0 <= nRef ->
  nRef + 64 * parentCount <= blen (memory s) ->
  exists r s',
    calcOtherNodes H nRef parentCount s = Ok r s'
    /\ region_step 0 nRef (nRef + 32 * parentCount) (Z.to_nat parentCount) s s'
    /\ forall j, 1 <= j < parentCount ->
       node (memory s') nRef j =
       vec_to_list (H (node (memory s') nRef (2 * j)
                       ++ node (memory s') nRef (2 * j + 1))).
Proof.
  intros Hp HnRef Hfit. unfold calcOtherNodes, hashValues2, DIGEST_SIZE.
  change (JS.shl 32 1) with 64.
  destruct (decide (parentCount = 0)) as [->|Hp0].
  - cbn [Z.to_nat hashValues2_loop]. eexists _, s. split; [reflexivity|].
    split; [|intros j Hj; lia].
    replace (nRef + 32 * 0) with nRef by lia. apply region_step_refl.
  - assert (H25 : (2:Z) ^ 25 = 33554432) by reflexivity.
    rewrite JSFacts.shl_by_1
      by (change ((2:Z) ^ 30) with 1073741824; lia).
    destruct (hashValues2_loop_ok (Z.to_nat parentCount) nRef s)
      as (r & s' & E & R & Hnodes); rewrite ?Z2Nat.id by lia; try lia.
    rewrite Z2Nat.id in E, R, Hnodes by lia.
    exists r, s'. split; [|split; assumption].
    rewrite <- E. f_equal; lia.
Qed.

(** *** [buildMerkleNodes] *)

Lemma pow2_half (depth : Z) :
  0 <= depth ->
  (2 ^ depth = 1 /\ 2 ^ depth / 2 = 0)
  \/ (2 ^ depth = 2 * (2 ^ depth / 2) /\ 1 <= 2 ^ depth / 2).
Proof.
  intros Hd. destruct (decide (depth = 0)) as [->|Hd0].
  - left. split; reflexivity.
  - right.
    assert (Hp : 2 ^ depth = 2 ^ (depth - 1) * 2).
    { rewrite Z.mul_comm, <- Z.pow_succ_r by lia. f_equal. lia. }
    assert (0 < 2 ^ (depth - 1)) by (apply Z.pow_pos_nonneg; lia).
    rewrite Hp, Z.div_mul by lia. lia.
Qed.

(** The whole call: the buffer it returns, slot by slot, with the leaves
    read in the memory the call starts from. *)
Lemma buildMerkleNodes_run (depth : Z) (leaves : Vector) (lo : Z) (s : Wasm) :
  let L := v_length leaves in
  let es := v_elementSize leaves in
  let N := 2 ^ depth in
  let p := N / 2 in
  let D := contents (memory s) (toBuffer leaves) in
  0 <= iRef -> 0 <= oRef ->
  0 <= lo -> lo <= heapTop s -> heapTop s <= blen (memory s) ->
  vector_ok s leaves = true ->
  0 <= depth <= 26 -> L <= N ->
  (L mod 2 = 1 -> iRef + es + 32 <= lo) ->
  (L < N -> iRef + 64 <= lo /\ oRef + 32 <= lo) ->
  exists buf s',
    buildMerkleNodes H iRef oRef depth leaves s = Ok buf s'
    /\ blen buf = 32 * N
    /\ blocks s' = blocks s
    /\ (heapTop s <= heapTop s' /\ heapTop s' <= blen (memory s'))
    /\ hashCalls s' =
       (Z.to_nat (L / 2 + L mod 2 + (if L <? N then 1 else 0) + p)%Z
        + hashCalls s)%nat
    /\ (forall i, 0 <= i < L / 2 ->
        slot buf (p + i) = vec_to_list (H (read D (i * (2 * es)) (2 * es))))
    /\ (L mod 2 = 1 ->
        slot buf (p + L / 2) =
        vec_to_list (H (read D (blen D - es) es ++ NULL_BUFFER)))
    /\ (forall i, L / 2 + L mod 2 <= i < N - p ->
        slot buf (p + i) = vec_to_list (H (NULL_BUFFER ++ NULL_BUFFER)))
    /\ (forall j, 1 <= j < p ->
        slot buf j =
        vec_to_list (H (slot buf (2 * j) ++ slot buf (2 * j + 1))))
    /\ (forall off len, lo <= off -> 0 <= len -> off + len <= heapTop s ->
        read (memory s') off len = read (memory s) off len).
Proof.
  intros L es N p D Hi Ho Hlo0 Hlo Htop Hv Hdepth HLN Hodd Hpad.
  apply vector_ok_iff in Hv. destruct Hv as (HL & Hes & HB & Hbuf).
  fold L es in HL, Hes, HB.
  assert (H26 : (2:Z) ^ 26 = 67108864) by reflexivity.
  assert (H30 : (2:Z) ^ 30 = 1073741824) by reflexivity.
  assert (H31 : (2:Z) ^ 31 = 2147483648) by reflexivity.
  assert (H32 : (2:Z) ^ 32 = 4294967296) by reflexivity.
  assert (HN : 1 <= N <= 2 ^ 26).
  { unfold N. split.
    - pose proof (Z.pow_pos_nonneg 2 depth). lia.
    - apply Z.pow_le_mono_r; lia. }
  pose proof (pow2_half depth ltac:(lia)) as HNp. fold N p in HNp.
  assert (HshlN : JS.shl 1 depth = N) by (apply JSFacts.shl_1; lia).
  assert (Hushr : JS.ushr N 1 = p) by (apply JSFacts.ushr_by_1; lia).
  assert (Hand : JS.and L 1 = L mod 2) by (apply JSFacts.and_1; lia).
  assert (Hshles : JS.shl es 1 = 2 * es) by (apply JSFacts.shl_by_1; lia).
  pose proof (Z.div_mod L 2 ltac:(lia)) as HLdm.
  pose proof (Z.mod_pos_bound L 2 ltac:(lia)) as Hc.
  assert (Hq : 0 <= L / 2) by (apply Z.div_pos; lia).
  set (q := L / 2) in *. set (c := L mod 2) in *.
  assert (HushrE : JS.ushr (if c =? 0 then L else L - 1) 1 = q).
  { destruct (Z.eqb_spec c 0).
    - rewrite JSFacts.ushr_by_1 by lia. reflexivity.
    - rewrite JSFacts.ushr_by_1 by lia.
      replace (L - 1) with (q * 2) by lia. apply Z.div_mul. lia. }
  assert (Hsl : p + q + c <= N) by lia.
  assert (Hfull : N <= L -> N - p - q - c = 0) by lia.
  assert (HDl : blen D = L * es).
  { unfold D. rewrite blen_contents by assumption. exact HB. }
  assert (Hsrc : q * (2 * es) <= L * es) by nia.
  unfold buildMerkleNodes. fold L es.
  rewrite HshlN, Hushr, Hand, Hshles, HushrE.
  unfold DIGEST_SIZE.
  clearbody N p.
  (* the tree buffer *)
  destruct (newArray_ok (N * 32) s ltac:(lia)) as (nRef & s1 & E1 & A1).
  erewrite bind_Ok by exact E1.
  destruct A1 as [A1fresh _ A1top A1fits [k1 A1grow] A1blocks A1calls].
  (* the leaves *)
  assert (Hbuf1 : buffer_ok s1 (toBuffer leaves) = true).
  { apply buffer_ok_iff. apply buffer_ok_iff in Hbuf.
    destruct (toBuffer leaves); [lia|exact I]. }
  destruct (copyLeaves_ok (toBuffer leaves) s1) as (lRef & rel & s2 & E2 & C2);
    [lia | lia | exact Hbuf1 |].
  erewrite bind_Ok by exact E2. cbn [fst snd].
  destruct C2 as [Cl Clen Ctop Cfits Cmono Cdata Cbelow Cblocks Cfresh Ckind Ccalls].
  assert (HD1 : contents (memory s1) (toBuffer leaves) = D).
  { unfold D. apply buffer_ok_iff in Hbuf.
    destruct (toBuffer leaves); cbn [contents]; [|reflexivity].
    rewrite A1grow. apply read_app_l; lia. }
  assert (Hwasm : rel = false -> lRef + L * es <= heapTop s).
  { intros ->. apply buffer_ok_iff in Hbuf. rewrite Ckind in Hbuf. lia. }
  assert (Cdata' : read (memory s2) lRef (L * es) = D).
  { rewrite <- HB, <- HD1. exact Cdata. }
  rewrite HB in Ctop, Cblocks.
  assert (Hdisj : lRef + L * es <= nRef \/ nRef + 32 * N <= lRef).
  { destruct rel; [right; specialize (Cfresh eq_refl); lia | left].
    specialize (Hwasm eq_refl). lia. }
  (* the pairs of leaves *)
  destruct (hashValues1_ok lRef (nRef + p * 32) (2 * es) q s2)
    as (s3 & E3 & R3); try lia.
  erewrite bind_Ok by exact E3.
  destruct R3 as [R3l R3b R3t R3c R3f R3d].
  assert (Hrel : exists s4, when rel (release lRef) s3 = Ok tt s4
                   /\ memory s4 = memory s3 /\ heapTop s4 = heapTop s3
                   /\ hashCalls s4 = hashCalls s3
                   /\ blocks s4 = (nRef, N * 32) :: blocks s).
  { destruct rel; cbn [when].
    - eexists. split.
      + apply release_head with (n := L * es) (l := (nRef, N * 32) :: blocks s).
        rewrite R3b, Cblocks, A1blocks. reflexivity.
      + st. repeat split.
    - exists s3. split; [reflexivity|]. repeat split.
      rewrite R3b, Cblocks, A1blocks. reflexivity. }
  destruct Hrel as (s4 & E4 & M4 & T4 & C4 & B4).
  erewrite bind_Ok by exact E4.
  assert (HD4 : contents (memory s4) (toBuffer leaves) = D).
  { rewrite M4. rewrite Ckind. destruct rel; cbn [contents].
    - exact HD1.
    - rewrite HB. rewrite R3f by (specialize (Hwasm eq_refl); lia).
      exact Cdata'. }
  assert (Hl4 : blen (memory s4) = blen (memory s2)) by (rewrite M4; exact R3l).
  (* the last leaf *)
  destruct (processLastLeaf_ok leaves (toBuffer leaves)
              (nRef + p * 32 + 32 * q) lo D s4)
    as (s5 & E5 & R5 & O5); fold L es c; try lia; try assumption.
  fold L c in E5. erewrite bind_Ok by exact E5.
  fold L es c in R5, O5.
  (* the padding *)
  destruct (fillNullParents_step leaves N nRef (nRef + p * 32 + 32 * q + 32 * c)
              (N - p - q - c) lo s5)
    as (s6 & E6 & R6 & F6); fold L; try lia.
  { destruct R5 as [R5l _ _ _ _]. lia. }
  erewrite bind_Ok by exact E6. fold L in R6.
  (* the rows above *)
  assert (Hl6 : blen (memory s6) = blen (memory s2)).
  { destruct R5 as [R5l _ _ _ _]. destruct R6 as [R6l _ _ _ _]. lia. }
  destruct (calcOtherNodes_ok nRef p s6) as (r7 & s7 & E7 & R7 & T7); try lia.
  erewrite bind_Ok by exact E7.
  assert (Hl7 : blen (memory s7) = blen (memory s2)).
  { destruct R7 as [R7l _ _ _ _]. lia. }
  erewrite bind_Ok by (apply memory_slice_ok; lia).
  replace (nRef + N * 32 - nRef) with (32 * N) by lia.
  erewrite bind_Ok.
  2:{ apply release_head with (n := N * 32) (l := blocks s).
      destruct R7 as [_ _ R7b _ _]. destruct R6 as [_ _ R6b _ _].
      destruct R5 as [_ _ R5b _ _]. congruence. }
  unfold ret.
  set (buf := read (memory s7) nRef (32 * N)).
  exists buf. eexists. split; [reflexivity|].
  assert (Hslot : forall j, 0 <= j < N -> slot buf j = node (memory s7) nRef j).
  { intros j Hj. unfold slot, node, buf, DIGEST_SIZE.
    rewrite read_read by lia. f_equal. lia. }
  assert (Hn76 : forall j, p <= j < N ->
            node (memory s7) nRef j = node (memory s6) nRef j).
  { intros j Hj. unfold node. destruct R7 as [_ R7f _ _ _]. apply R7f; lia. }
  assert (Hn65 : forall j, 0 <= j < p + q + c ->
            node (memory s6) nRef j = node (memory s5) nRef j).
  { intros j Hj. unfold node. destruct R6 as [_ R6f _ _ _]. apply R6f; lia. }
  assert (Hn54 : forall j, 0 <= j < p + q ->
            node (memory s5) nRef j = node (memory s4) nRef j).
  { intros j Hj. unfold node. destruct R5 as [_ R5f _ _ _]. apply R5f; lia. }
  st. split; [|split; [|split; [|split; [|split; [|split; [|split; [|split]]]]]]].
  - unfold buf. apply length_read; lia.
  - reflexivity.
  - destruct R7 as [R7l _ _ R7t _]. destruct R6 as [R6l _ _ R6t _].
    destruct R5 as [R5l _ _ R5t _]. st. lia.
  - destruct R7 as [_ _ _ _ R7c]. destruct R6 as [_ _ _ _ R6c].
    destruct R5 as [_ _ _ _ R5c].
    rewrite R7c, R6c, R5c, C4, R3c, Ccalls, A1calls.
    destruct (L <? N); lia.
  - intros i Hi'. rewrite Hslot, Hn76, Hn65, Hn54 by lia.
    unfold node. rewrite M4.
    replace (nRef + 32 * (p + i)) with (nRef + p * 32 + 32 * i) by lia.
    rewrite R3d by lia. do 2 f_equal.
    rewrite <- Cdata'. rewrite read_read by nia. reflexivity.
  - intros Hone. rewrite Hslot, Hn76, Hn65 by lia.
    unfold node.
    replace (nRef + 32 * (p + q)) with (nRef + p * 32 + 32 * q) by lia.
    apply O5. exact Hone.
  - intros i Hi'. rewrite Hslot, Hn76 by lia.
    unfold node.
    replace (nRef + 32 * (p + i))
      with (nRef + p * 32 + 32 * q + 32 * c + 32 * (i - q - c)) by lia.
    apply F6. lia.
  - intros j Hj. rewrite !Hslot by lia. apply T7. exact Hj.
  - intros off len Hoff Hlen Hend.
    destruct R7 as [_ R7f _ _ _]. destruct R6 as [_ R6f _ _ _].
    destruct R5 as [_ R5f _ _ _].
    rewrite R7f, R6f, R5f, M4, R3f, Cbelow by lia.
    rewrite A1grow. apply read_app_l; lia.
Qed.

Lemma buildMerkleNodes_ok (depth : Z) (leaves : Vector) (s : Wasm) :
  let L := v_length leaves in
  let es := v_elementSize leaves in
  let N := 2 ^ depth in
  let p := N / 2 in
  let D := contents (memory s) (toBuffer leaves) in
  ok s = true -> vector_ok s leaves = true ->
  0 <= depth <= 26 -> L <= N ->
  (L mod 2 = 1 -> es + 32 <= iCap) ->
  exists buf s',
    buildMerkleNodes H iRef oRef depth leaves s = Ok buf s'
    /\ blen buf = 32 * N
    /\ blocks s' = blocks s
    /\ ok s' = true
    /\ hashCalls s' =
       (Z.to_nat (L / 2 + L mod 2 + (if L <? N then 1 else 0) + p)%Z
        + hashCalls s)%nat
    /\ (forall i, 0 <= i < L / 2 ->
        slot buf (p + i) = vec_to_list (H (read D (i * (2 * es)) (2 * es))))
    /\ (L mod 2 = 1 ->
        slot buf (p + L / 2) =
        vec_to_list (H (read D (blen D - es) es ++ NULL_BUFFER)))
    /\ (forall i, L / 2 + L mod 2 <= i < N - p ->
        slot buf (p + i) = vec_to_list (H (NULL_BUFFER ++ NULL_BUFFER)))
    /\ (forall j, 1 <= j < p ->
        slot buf j =
        vec_to_list (H (slot buf (2 * j) ++ slot buf (2 * j + 1)))).
Proof.
  intros L es N p D Hok Hv Hdepth HLN Hodd.
  apply engine_ok_iff in Hok.
  destruct Hok as (Hi & Hcap & Hitop & Ho & Hotop & Htop).
  destruct (buildMerkleNodes_run depth leaves
              (Z.max (iRef + iCap) (oRef + 32)) s)
    as (buf & s' & E & Hlen & Hbl & Hfit & Hc & Hpairs & Hlast & Hpad & Htree & _);
    try assumption; try lia.
  { intros Hone. specialize (Hodd Hone). fold es in Hodd. lia. }
  exists buf, s'. split; [exact E|]. split; [exact Hlen|].
  split; [exact Hbl|]. split; [apply engine_ok_iff; lia|].
  repeat (split; [assumption|]). assumption.
Qed.

(** *** The claims about [digest], [merge] and [digestValues] *)

(** C1. For all byte buffers [a] and [b] whose combined length is within
    the capacity of the input region, [merge(a, b)] returns the same 32-byte
    digest as [digest] applied to the concatenation of [a] and [b]. *)
Theorem merge_digest_concat (a b : bytes) (s : Wasm) :
  ok s = true -> blen a + blen b <= iCap ->
  exists d s1 s2,
    merge H iRef oRef a b s = Ok d s1
    /\ digest H iRef oRef (a ++ b) s = Ok d s2
    /\ blen d = 32.
Proof.
  intros Hok Hcap. pose proof Hok as Hok'. apply engine_ok_iff in Hok'.
  destruct (merge_ok a b s (heapTop s)) as (s1 & E1 & _); try lia.
  destruct (digest_ok (a ++ b) s Hok) as (s2 & E2 & _).
  exists (vec_to_list (H (a ++ b))), s1, s2.
  repeat split; try assumption. apply blen_digest.
Qed.

(** C6. For every byte buffer [values] and every positive [valueSize] that
    divides [values.byteLength], [digestValues(values, valueSize)] returns a
    vector of [values.byteLength / valueSize] elements of 32 bytes, whose
    i-th element is what [digest] returns for the i-th record of
    [valueSize] bytes of [values]. *)
Theorem digestValues_records (values : Buffer) (valueSize : Z) (s : Wasm) :
  ok s = true -> buffer_ok s values = true ->
  0 < valueSize -> byteLength values mod valueSize = 0 ->
  exists v s',
    digestValues H values valueSize s = Ok v s'
    /\ v_length v = byteLength values / valueSize
    /\ v_elementSize v = 32
    /\ forall i, 0 <= i < v_length v ->
       forall t, ok t = true ->
       exists t',
         digest H iRef oRef
           (read (contents (memory s) values) (i * valueSize) valueSize) t
         = Ok (element (memory s') v i) t'.
Proof.
  intros Hok Hb Hvs Hmod.
  destruct (digestValues_ok values valueSize s Hok Hb Hvs Hmod)
    as (resRef & s' & E & Hok' & Hres & Hbl & Hc & Hd).
  cbv zeta in E.
  eexists _, s'. split; [exact E|].
  cbn [WasmVector v_length v_elementSize]. repeat split.
  intros i Hi t Ht.
  destruct (digest_ok (read (contents (memory s) values) (i * valueSize) valueSize)
              t Ht) as (t' & Et & _).
  exists t'. rewrite Et. f_equal.
  unfold element, WasmVector.
  cbn [toBuffer v_elementSize v_length contents] in *. unfold DIGEST_SIZE.
  rewrite read_read by lia.
  rewrite <- Hd by lia. f_equal. lia.
Qed.

(** C8. For a positive [valueSize], [digestValues(values, valueSize)] throws
    the error for a misaligned buffer if and only if [values.byteLength] is
    not a multiple of [valueSize]; the check comes first, so that the
    instance is then exactly as before the call: nothing hashed, nothing
    allocated. *)
Theorem digestValues_misaligned (values : Buffer) (valueSize : Z) (s : Wasm) :
  0 < valueSize ->
  (byteLength values mod valueSize <> 0 ->
   digestValues H values valueSize s = Throw MisalignedBuffer s)
  /\ (byteLength values mod valueSize = 0 ->
      forall s', digestValues H values valueSize s <> Throw MisalignedBuffer s').
Proof.
  intros Hvs. unfold digestValues, JS.div_isInteger.
  destruct (Z.eqb_spec valueSize 0); [lia|].
  destruct (Z.eqb_spec (byteLength values mod valueSize) 0) as [Hz|Hnz];
    cbn [negb]; split; try contradiction; try reflexivity.
  intros _ s' E.
  assert (Hrest : throws_only (fun e => e <> MisalignedBuffer)
            (v <- (if isWasm values then ret (byteOffset values, false)
                   else vRef <- newArray (byteLength values) ;;
                        d <- bufferBytes values ;;
                        U8_set d vRef ;; ret (vRef, true)) ;;
             resRef <- newArray (byteLength values / valueSize * DIGEST_SIZE) ;;
             hashValues1 H v.1 resRef valueSize (byteLength values / valueSize) ;;
             when v.2 (release v.1) ;;
             ret (WasmVector resRef (byteLength values / valueSize) DIGEST_SIZE))).
  { throws_tac. }
  exact (Hrest _ _ _ E eq_refl).
Qed.


(** *** [mergeVectorRows] *)

Lemma throws_only_loadRefs (P : Error -> Prop) (n : nat) (vRefs : Z) :
  P MemoryTrap -> throws_only P (loadRefs n vRefs).
Proof.
  intros HP. revert vRefs.
  induction n as [|n IH]; intros vRefs; cbn [loadRefs].
  - apply throws_only_ret.
  - apply throws_only_bind; [apply throws_only_load, HP|]. intros d.
    apply throws_only_bind; [apply IH|]. intros r. apply throws_only_ret.
Qed.

Lemma throws_only_loadRow (P : Error -> Prop) (refs : list Z) (i size : Z) :
  P MemoryTrap -> throws_only P (loadRow refs i size).
Proof.
  intros HP.
  induction refs as [|r refs IH]; cbn [loadRow].
  - apply throws_only_ret.
  - apply throws_only_bind; [apply throws_only_load, HP|]. intros d.
    apply throws_only_bind; [apply IH|]. intros x. apply throws_only_ret.
Qed.

Lemma throws_only_mergeArrayElements (P : Error -> Prop)
    (vRefs resRef vCount elementCount elementSize : Z) :
  P MemoryTrap ->
  throws_only P (mergeArrayElements H vRefs resRef vCount elementCount elementSize).
Proof.
  intros HP. unfold mergeArrayElements.
  apply throws_only_bind; [apply throws_only_loadRefs, HP|]. intros refs.
  generalize 0. generalize (Z.to_nat elementCount) as n. intros n. revert resRef.
  induction n as [|n IH]; intros resRef i; cbn [mergeRows].
  - apply throws_only_ret.
  - apply throws_only_bind; [apply throws_only_loadRow, HP|]. intros row.
    apply throws_only_bind; [apply throws_only_emit, HP|]. intros _.
    apply IH.
Qed.

Lemma throws_only_buildRefs (P : Error -> Prop) (vectors : list Vector)
    (vIdx i : Z) (done : list Z) :
  P AllocationFailure -> P RangeError ->
  throws_only P (buildRefs vectors vIdx i done).
Proof.
  intros HA HR. revert i done.
  induction vectors as [|v rest IH]; intros i done; cbn [buildRefs].
  - apply throws_only_ret.
  - apply throws_only_bind.
    + destruct (isWasm (toBuffer v)); [apply throws_only_ret|].
      apply throws_only_bind; [apply throws_only_newArray, HA|]. intros vRef.
      apply throws_only_bind; [apply throws_only_bufferBytes|]. intros d.
      apply throws_only_bind; [apply throws_only_U8_set, HR|]. intros _.
      apply throws_only_ret.
    + intros r. apply throws_only_bind; [apply throws_only_U64_set|].
      intros _. apply IH.
Qed.

Lemma throws_only_releaseAll (P : Error -> Prop) (refs : list Z) :
  P InvalidAddress -> throws_only P (releaseAll refs).
Proof.
  intros HP. induction refs as [|r refs IH]; cbn [releaseAll].
  - apply throws_only_ret.
  - apply throws_only_bind; [apply throws_only_release, HP|]. intros _. apply IH.
Qed.

(** C7, as the code has it.  [mergeVectorRows(vectors)] throws the error
    for an invalid element size exactly when the first vector of the list
    has [elementSize > 64] or [64 % elementSize != 0]; the element sizes of
    the other vectors are not looked at.  The check comes first: the
    instance is then exactly as before the call, nothing hashed and nothing
    allocated. *)
Theorem mergeVectorRows_element_size (v0 : Vector) (rest : list Vector) (s : Wasm) :
  let invalid := 64 < v_elementSize v0 \/ JS.rem 64 (v_elementSize v0) <> Some 0 in
  (invalid -> mergeVectorRows H (v0 :: rest) s = Throw InvalidElementSize s)
  /\ (~ invalid ->
      forall s', mergeVectorRows H (v0 :: rest) s <> Throw InvalidElementSize s').
Proof.
  cbv zeta. unfold mergeVectorRows.
  destruct (Z.ltb_spec 64 (v_elementSize v0)) as [Hgt|Hle].
  { split; [reflexivity | intros Hn; exfalso; apply Hn; left; exact Hgt]. }
  destruct (bool_decide_reflect (JS.rem 64 (v_elementSize v0) = Some 0))
    as [Hrem|Hrem]; cbn [negb].
  2:{ split; [reflexivity | intros Hn; exfalso; apply Hn; right; exact Hrem]. }
  split.
  { intros [Hbad|Hbad]; [lia | contradiction]. }
  intros _ s' E.
  revert E. generalize (v0 :: rest) as vectors. intros vectors E.
  assert (Hrest : throws_only (fun e => e <> InvalidElementSize)
    (vRefs <- newArray (Z.of_nat (length vectors) * 8) ;;
     refsToRelease <- buildRefs vectors (JS.ushr vRefs 3) 0 [] ;;
     resRef <- newArray (v_length v0 * DIGEST_SIZE) ;;
     mergeArrayElements H vRefs resRef (Z.of_nat (length vectors))
       (v_length v0) (v_elementSize v0) ;;
     release vRefs ;;
     releaseAll refsToRelease ;;
     ret (WasmVector resRef (v_length v0) DIGEST_SIZE))).
  { repeat first
      [ apply throws_only_ret
      | apply throws_only_newArray; discriminate
      | apply throws_only_buildRefs; discriminate
      | apply throws_only_mergeArrayElements; discriminate
      | apply throws_only_releaseAll; discriminate
      | apply throws_only_release; discriminate
      | apply throws_only_bind
      | match goal with |- forall _, throws_only _ _ => intro end ]. }
  exact (Hrest _ _ _ E eq_refl).
Qed.

(** *** The claims about [buildMerkleNodes] *)

Lemma merge_returns (a b : bytes) (t : Wasm) :
  ok t = true -> blen a + blen b <= iCap ->
  exists t', merge H iRef oRef a b t = Ok (vec_to_list (H (a ++ b))) t'.
Proof.
  intros Ht Hcap. apply engine_ok_iff in Ht.
  destruct (merge_ok a b t (heapTop t)) as (t' & E & _); try lia.
  exists t'. exact E.
Qed.

Lemma blen_element (m : bytes) (v : Vector) (i : Z) :
  0 <= i -> 0 <= v_elementSize v ->
  (i + 1) * v_elementSize v <= blen (contents m (toBuffer v)) ->
  blen (element m v i) = v_elementSize v.
Proof.
  intros Hi Hes Hfit. unfold element. apply length_read; nia.
Qed.

Lemma blen_slot (buf : bytes) (j : Z) :
  0 <= j -> (j + 1) * 32 <= blen buf -> blen (slot buf j) = 32.
Proof.
  intros Hj Hfit. unfold slot, DIGEST_SIZE. apply length_read; lia.
Qed.

(** C2. For leaves of even length [2 * m = 2 ^ depth], the lowest internal
    row of the buffer [buildMerkleNodes(depth, leaves)] returns (its tail
    half, from byte offset [(2 ^ depth / 2) * 32] on) holds, element by
    element, what [merge(leaves[2i], leaves[2i+1])] returns, for [i] from 0
    to [m - 1].  The depth is one for which the buffer fits in a 32-bit
    memory, and two leaves fit in the input region. *)
Theorem buildMerkleNodes_leaf_pairs (depth : Z) (leaves : Vector) (m : Z) (s : Wasm) :
  ok s = true -> vector_ok s leaves = true ->
  0 <= depth <= 26 ->
  v_length leaves = 2 ^ depth -> v_length leaves = 2 * m ->
  2 * v_elementSize leaves <= iCap ->
  exists buf s',
    buildMerkleNodes H iRef oRef depth leaves s = Ok buf s'
    /\ blen buf = 2 ^ depth * 32
    /\ forall i, 0 <= i < m ->
       forall t, ok t = true ->
       exists t',
         merge H iRef oRef (element (memory s) leaves (2 * i))
                           (element (memory s) leaves (2 * i + 1)) t
         = Ok (slot buf (2 ^ depth / 2 + i)) t'.
Proof.
  intros Hok Hv Hdepth HLN HLm Hcap.
  pose proof Hv as Hv'. apply vector_ok_iff in Hv'.
  destruct Hv' as (HL & Hes & HB & Hbuf).
  pose proof Hok as Hok'. apply engine_ok_iff in Hok'.
  assert (Hmod : v_length leaves mod 2 = 0).
  { rewrite HLm, Z.mul_comm. apply Z.mod_mul. lia. }
  destruct (buildMerkleNodes_ok depth leaves s Hok Hv Hdepth ltac:(lia)
              ltac:(lia))
    as (buf & s' & E & Hlen & _ & _ & _ & Hpairs & _).
  exists buf, s'. split; [exact E|]. split; [lia|].
  intros i Hi t Ht.
  set (es := v_elementSize leaves) in *.
  set (D := contents (memory s) (toBuffer leaves)) in *.
  assert (HDl : blen D = v_length leaves * es).
  { unfold D. rewrite blen_contents by (assumption || lia). exact HB. }
  assert (Hq : v_length leaves / 2 = m).
  { rewrite HLm, Z.mul_comm. apply Z.div_mul. lia. }
  assert (Hl0 : blen (element (memory s) leaves (2 * i)) = es)
    by (apply blen_element; fold D es; nia).
  assert (Hl1 : blen (element (memory s) leaves (2 * i + 1)) = es)
    by (apply blen_element; fold D es; nia).
  destruct (merge_returns (element (memory s) leaves (2 * i))
              (element (memory s) leaves (2 * i + 1)) t Ht ltac:(lia))
    as (t' & Et).
  exists t'. rewrite Et. f_equal.
  rewrite Hpairs by lia. do 2 f_equal.
  unfold element. fold D es.
  replace (2 * es) with (es + es) by lia.
  rewrite read_split by nia. f_equal; f_equal; lia.
Qed.

(** C3, as the code has it.  The buffer [buildMerkleNodes] returns has
    exactly [2 ^ depth * 32] bytes, and its nodes are indexed as in a heap:
    every node [j] above the lowest row, [1 <= j < 2 ^ depth / 2], holds
    what [merge] returns for the two adjacent nodes [2j] and [2j + 1] of
    the row below.  The root is therefore the element at index 1, at byte
    offset 32; the element at the front of the buffer is no node of the
    tree. *)
Theorem buildMerkleNodes_tree (depth : Z) (leaves : Vector) (s : Wasm) :
  ok s = true -> vector_ok s leaves = true ->
  0 <= depth <= 26 -> v_length leaves <= 2 ^ depth ->
  (v_length leaves mod 2 = 1 -> v_elementSize leaves + 32 <= iCap) ->
  exists buf s',
    buildMerkleNodes H iRef oRef depth leaves s = Ok buf s'
    /\ blen buf = 2 ^ depth * 32
    /\ forall j, 1 <= j < 2 ^ depth / 2 ->
       forall t, ok t = true ->
       exists t',
         merge H iRef oRef (slot buf (2 * j)) (slot buf (2 * j + 1)) t
         = Ok (slot buf j) t'.
Proof.
  intros Hok Hv Hdepth HLN Hodd.
  pose proof Hok as Hok'. apply engine_ok_iff in Hok'.
  destruct (buildMerkleNodes_ok depth leaves s Hok Hv Hdepth HLN Hodd)
    as (buf & s' & E & Hlen & _ & _ & _ & _ & _ & _ & Htree).
  exists buf, s'. split; [exact E|]. split; [lia|].
  intros j Hj t Ht.
  pose proof (pow2_half depth ltac:(lia)) as HNp.
  assert (Hl0 : blen (slot buf (2 * j)) = 32) by (apply blen_slot; lia).
  assert (Hl1 : blen (slot buf (2 * j + 1)) = 32) by (apply blen_slot; lia).
  destruct (merge_returns (slot buf (2 * j)) (slot buf (2 * j + 1)) t Ht
              ltac:(lia)) as (t' & Et).
  exists t'. rewrite Et. f_equal. symmetry. apply Htree. exact Hj.
Qed.

(** C4. For leaves of odd length the slot of the lowest row right behind
    the slots of the leaf pairs, slot [leaves.length / 2] of that row, holds
    what [merge(lastLeaf, Z)] returns, [Z] being 32 zero bytes. *)
Theorem buildMerkleNodes_odd_leaf (depth : Z) (leaves : Vector) (s : Wasm) :
  ok s = true -> vector_ok s leaves = true ->
  0 <= depth <= 26 -> v_length leaves <= 2 ^ depth ->
  v_length leaves mod 2 = 1 ->
  v_elementSize leaves + 32 <= iCap ->
  exists buf s',
    buildMerkleNodes H iRef oRef depth leaves s = Ok buf s'
    /\ forall t, ok t = true ->
       exists t',
         merge H iRef oRef (element (memory s) leaves (v_length leaves - 1))
                           NULL_BUFFER t
         = Ok (slot buf (2 ^ depth / 2 + v_length leaves / 2)) t'.
Proof.
  intros Hok Hv Hdepth HLN Hmod Hcap.
  pose proof Hv as Hv'. apply vector_ok_iff in Hv'.
  destruct Hv' as (HL & Hes & HB & Hbuf).
  pose proof Hok as Hok'. apply engine_ok_iff in Hok'.
  destruct (buildMerkleNodes_ok depth leaves s Hok Hv Hdepth HLN ltac:(lia))
    as (buf & s' & E & _ & _ & _ & _ & _ & Hlast & _).
  exists buf, s'. split; [exact E|].
  intros t Ht.
  set (es := v_elementSize leaves) in *.
  set (D := contents (memory s) (toBuffer leaves)) in *.
  assert (HDl : blen D = v_length leaves * es).
  { unfold D. rewrite blen_contents by (assumption || lia). exact HB. }
  assert (HL1 : 1 <= v_length leaves).
  { destruct (decide (v_length leaves = 0)) as [Hz|]; [|lia].
    rewrite Hz in Hmod. discriminate Hmod. }
  assert (Hl0 : blen (element (memory s) leaves (v_length leaves - 1)) = es)
    by (apply blen_element; fold D es; nia).
  destruct (merge_returns (element (memory s) leaves (v_length leaves - 1))
              NULL_BUFFER t Ht ltac:(rewrite blen_NULL_BUFFER; lia))
    as (t' & Et).
  exists t'. rewrite Et. f_equal.
  rewrite Hlast by exact Hmod. do 3 f_equal.
  unfold element. fold D es. f_equal. lia.
Qed.

(** C5. With fewer leaves than the tree holds, every slot of the lowest
    row behind the slots made from the leaves (the pairs, and the slot of
    the odd leaf if there is one) holds what [merge(Z, Z)] returns. *)
Theorem buildMerkleNodes_padding (depth : Z) (leaves : Vector) (s : Wasm) :
  ok s = true -> vector_ok s leaves = true ->
  0 <= depth <= 26 -> v_length leaves < 2 ^ depth ->
  (v_length leaves mod 2 = 1 -> v_elementSize leaves + 32 <= iCap) ->
  exists buf s',
    buildMerkleNodes H iRef oRef depth leaves s = Ok buf s'
    /\ blen buf = 2 ^ depth * 32
    /\ forall i,
       v_length leaves / 2 + v_length leaves mod 2 <= i < 2 ^ depth - 2 ^ depth / 2 ->
       forall t, ok t = true ->
       exists t',
         merge H iRef oRef NULL_BUFFER NULL_BUFFER t
         = Ok (slot buf (2 ^ depth / 2 + i)) t'.
Proof.
  intros Hok Hv Hdepth HLN Hodd.
  pose proof Hok as Hok'. apply engine_ok_iff in Hok'.
  destruct (buildMerkleNodes_ok depth leaves s Hok Hv Hdepth ltac:(lia) Hodd)
    as (buf & s' & E & Hlen & _ & _ & _ & _ & _ & Hpad & _).
  exists buf, s'. split; [exact E|]. split; [lia|].
  intros i Hi t Ht.
  destruct (merge_returns NULL_BUFFER NULL_BUFFER t Ht
              ltac:(rewrite blen_NULL_BUFFER; lia)) as (t' & Et).
  exists t'. rewrite Et. f_equal. symmetry. apply Hpad. exact Hi.
Qed.

(** C10. For [depth = 0] the call returns a buffer of 32 bytes and runs the
    hash once; the pass over the rows above the lowest has no parent to
    compute and leaves the instance alone.  With no leaf the slot holds
    what [merge(Z, Z)] returns, with one leaf what [merge(leaves[0], Z)]
    returns. *)
Theorem buildMerkleNodes_depth_0 (leaves : Vector) (s : Wasm) :
  ok s = true -> vector_ok s leaves = true ->
  v_length leaves <= 1 ->
  (v_length leaves = 1 -> v_elementSize leaves + 32 <= iCap) ->
  exists buf s',
    buildMerkleNodes H iRef oRef 0 leaves s = Ok buf s'
    /\ blen buf = 32
    /\ hashCalls s' = S (hashCalls s)
    /\ (forall nRef t,
        exists r, calcOtherNodes H nRef (JS.ushr (JS.shl 1 0) 1) t = Ok r t)
    /\ (v_length leaves = 0 ->
        forall t, ok t = true ->
        exists t', merge H iRef oRef NULL_BUFFER NULL_BUFFER t = Ok buf t')
    /\ (v_length leaves = 1 ->
        forall t, ok t = true ->
        exists t',
          merge H iRef oRef (element (memory s) leaves 0) NULL_BUFFER t
          = Ok buf t').
Proof.
  intros Hok Hv HL1 Hcap.
  pose proof Hv as Hv'. apply vector_ok_iff in Hv'.
  destruct Hv' as (HL & Hes & HB & Hbuf).
  pose proof Hok as Hok'. apply engine_ok_iff in Hok'.
  assert (Hcases : v_length leaves = 0 \/ v_length leaves = 1) by lia.
  destruct (buildMerkleNodes_ok 0 leaves s Hok Hv ltac:(lia))
    as (buf & s' & E & Hlen & _ & _ & Hcalls & _ & Hlast & Hpad & _).
  { change (2 ^ 0) with 1. exact HL1. }
  { intros Hm. apply Hcap. destruct Hcases as [Hz|Ho]; [|exact Ho].
    rewrite Hz in Hm. discriminate Hm. }
  change (2 ^ 0) with 1 in *. change (1 / 2) with 0 in *.
  assert (Hbuf0 : slot buf 0 = buf).
  { unfold slot, DIGEST_SIZE. apply read_whole. lia. }
  exists buf, s'. split; [exact E|]. split; [lia|].
  split; [|split; [|split]].
  - rewrite Hcalls. destruct Hcases as [Hz|Ho].
    + rewrite Hz. reflexivity.
    + rewrite Ho. reflexivity.
  - intros nRef t. exists (nRef + -32). reflexivity.
  - intros Hz t Ht.
    destruct (merge_returns NULL_BUFFER NULL_BUFFER t Ht
                ltac:(rewrite blen_NULL_BUFFER; lia)) as (t' & Et).
    exists t'. rewrite Et. f_equal. rewrite <- Hbuf0.
    symmetry. apply (Hpad 0). rewrite Hz.
    change (0 / 2 + 0 mod 2) with 0. lia.
  - intros Ho t Ht.
    set (es := v_elementSize leaves) in *.
    set (D := contents (memory s) (toBuffer leaves)) in *.
    assert (HDl : blen D = es).
    { unfold D. rewrite blen_contents by (assumption || lia).
      rewrite HB, Ho. lia. }
    assert (Hl0 : blen (element (memory s) leaves 0) = es)
      by (apply blen_element; fold D es; lia).
    destruct (merge_returns (element (memory s) leaves 0) NULL_BUFFER t Ht
                ltac:(rewrite blen_NULL_BUFFER; lia)) as (t' & Et).
    exists t'. rewrite Et. f_equal. rewrite <- Hbuf0.
    rewrite Ho in Hlast. change (0 + 1 / 2) with 0 in Hlast.
    rewrite Hlast by reflexivity. do 3 f_equal.
    unfold element. fold D es. f_equal. lia.
Qed.

(** *** More about [digest] and [merge] *)




Lemma keeps_arena_bind {A B} (c : M A) (k : A -> M B) :
  keeps_arena c -> (forall a, keeps_arena (k a)) -> keeps_arena (bind c k).
Proof.
  intros Hc Hk s. unfold bind. specialize (Hc s).
  destruct (c s) as [x s1|e s1]; cbn [final] in *.
  - specialize (Hk x s1). destruct Hc as (Hb & Ht & Hm).
    destruct Hk as (Hb' & Ht' & Hm'). repeat split; congruence.
  - exact Hc.
Qed.

Lemma keeps_arena_ret {A} (x : A) : keeps_arena (ret x).
Proof. intros s. cbn. repeat split. Qed.

Lemma keeps_arena_U8_set (d : bytes) (off : Z) : keeps_arena (U8_set d off).
Proof.
  intros s. unfold U8_set.
  destruct (in_bounds (memory s) off (blen d)) eqn:E; cbn [final]; st;
    repeat split.
  apply in_bounds_iff in E. apply length_write; lia.
Qed.

Lemma keeps_arena_U8_subarray (b e : Z) : keeps_arena (U8_subarray b e).
Proof. intros s. cbn. repeat split. Qed.

Lemma keeps_arena_load (off len : Z) : keeps_arena (load off len).
Proof.
  intros s. unfold load. destruct (in_bounds _ _ _); cbn; repeat split.
Qed.

Lemma keeps_arena_emit (input : bytes) (resRef : Z) :
  keeps_arena (emit H input resRef).
Proof.
  intros s. unfold emit.
  destruct (in_bounds (memory s) resRef DIGEST_SIZE) eqn:E; cbn [final]; st;
    repeat split.
  apply in_bounds_iff in E. unfold DIGEST_SIZE in E.
  apply length_write; rewrite ?blen_digest; lia.
Qed.

Lemma keeps_arena_wasm_hash (vRef vLength resRef : Z) :
  keeps_arena (wasm_hash H vRef vLength resRef).
Proof.
  apply keeps_arena_bind; [apply keeps_arena_load|].
  intros input. apply keeps_arena_emit.
Qed.

(** X2. Below the threshold [digest] works in place.  For a value shorter
    than 4096 bytes the call never touches the arena: in every state, and
    whether it returns or throws, the blocks, the arena's top and the size
    of the memory are as before.  Nor does it look at the capacity of the
    input region: a value that fits in the memory behind [iRef] is copied
    there, whatever lies there, and after the call the memory from [iRef]
    on holds the value (the output region lying elsewhere). *)
Theorem digest_small_in_place (value : bytes) (s : Wasm) :
  blen value < 4096 ->
  (blocks (final (digest H iRef oRef value s)) = blocks s
   /\ heapTop (final (digest H iRef oRef value s)) = heapTop s
   /\ blen (memory (final (digest H iRef oRef value s))) = blen (memory s))
  /\ (0 <= oRef -> oRef + 32 <= heapTop s -> heapTop s <= blen (memory s) ->
      0 <= iRef -> iRef + blen value <= blen (memory s) ->
      oRef + 32 <= iRef \/ iRef + blen value <= oRef ->
      exists s',
        digest H iRef oRef value s = Ok (vec_to_list (H value)) s'
        /\ read (memory s') iRef (blen value) = value).
Proof.
  intros Hsmall. split.
  - revert s. change (keeps_arena (digest H iRef oRef value)). unfold digest.
    destruct (Z.ltb_spec (blen value) 4096) as [_|Hbig]; [|lia].
    repeat first
      [ apply keeps_arena_U8_set
      | apply keeps_arena_wasm_hash
      | apply keeps_arena_U8_subarray
      | apply keeps_arena_bind
      | intros _ ].
  - intros Ho Hotop Htop Hi Hfit Hdisj.
    destruct (digest_writes value s Ho Hotop Htop ltac:(lia))
      as (s' & E & _ & _ & _ & Hin & _).
    exists s'. split; [exact E|]. apply Hin; assumption.
Qed.

(** X4. [merge] never touches the arena: whatever the arguments and the
    state of the instance, and whether the call returns or throws, the
    blocks, the arena's top and the size of the memory are as before. *)
Theorem merge_keeps_arena (a b : bytes) (s : Wasm) :
  blocks (final (merge H iRef oRef a b s)) = blocks s
  /\ heapTop (final (merge H iRef oRef a b s)) = heapTop s
  /\ blen (memory (final (merge H iRef oRef a b s))) = blen (memory s).
Proof.
  revert s. change (keeps_arena (merge H iRef oRef a b)). unfold merge.
  repeat first
    [ apply keeps_arena_U8_set
    | apply keeps_arena_wasm_hash
    | apply keeps_arena_U8_subarray
    | apply keeps_arena_bind
    | intros _ ].
Qed.

(** X5. [merge] reports arguments that do not fit in the memory behind
    [iRef] as a [RangeError], raised by the copy, before the hash primitive
    is run. *)
Theorem merge_out_of_memory (a b : bytes) (s : Wasm) :
  0 <= iRef -> blen (memory s) < iRef + blen a + blen b ->
  exists s',
    merge H iRef oRef a b s = Throw RangeError s'
    /\ hashCalls s' = hashCalls s.
Proof.
  intros Hi Hbig. pose proof (blen_nonneg a). pose proof (blen_nonneg b).
  unfold merge. cbv beta delta [bind]. unfold U8_set at 1.
  destruct (in_bounds (memory s) iRef (blen a)) eqn:Ea.
  - apply in_bounds_iff in Ea. st.
    unfold U8_set. st.
    replace (in_bounds _ (iRef + blen a) (blen b)) with false.
    + eexists. split; reflexivity.
    + symmetry. apply not_true_is_false. rewrite in_bounds_iff.
      rewrite length_write by lia. lia.
  - eexists. split; reflexivity.
Qed.

(** X6. [merge] does not look at the capacity of the input region: two
    arguments that fit in the memory behind [iRef] are copied there and
    hashed, however long they are, so that after the call the memory from
    [iRef] on holds [a] followed by [b] (the output region lying
    elsewhere). *)
Theorem merge_ignores_capacity (a b : bytes) (s : Wasm) :
  0 <= iRef -> iRef + blen a + blen b <= blen (memory s) ->
  0 <= oRef -> oRef + 32 <= blen (memory s) ->
  oRef + 32 <= iRef \/ iRef + blen a + blen b <= oRef ->
  exists s',
    merge H iRef oRef a b s = Ok (vec_to_list (H (a ++ b))) s'
    /\ read (memory s') iRef (blen a + blen b) = a ++ b.
Proof.
  intros Hi Hfit Ho Hofit Hdisj.
  pose proof (blen_nonneg a). pose proof (blen_nonneg b).
  set (d := vec_to_list (H (a ++ b))).
  assert (Hd : blen d = 32) by apply blen_digest.
  unfold merge, oEnd, DIGEST_SIZE. cbv beta delta [bind].
  rewrite U8_set_ok by lia. st.
  set (m1 := write (memory s) iRef a).
  assert (Hl1 : blen m1 = blen (memory s)) by (apply length_write; lia).
  rewrite U8_set_ok by (st; lia). st.
  set (m2 := write m1 (iRef + blen a) b).
  assert (Hl2 : blen m2 = blen (memory s))
    by (unfold m2; rewrite length_write; lia).
  assert (Hin : read m2 iRef (blen a + blen b) = a ++ b)
    by (apply read_write_two; lia).
  rewrite wasm_hash_ok by (st; lia). st. rewrite Hin. fold d.
  rewrite U8_subarray_ok by (st; rewrite ?length_write by lia; lia). st.
  rewrite read_write_same_len by lia.
  eexists. split; [reflexivity|]. st.
  rewrite read_write_disjoint by lia. exact Hin.
Qed.

(** *** More about [digestValues] *)

(** X7. The check of [digestValues], for every integral [valueSize]: the
    call throws the error for a misaligned buffer exactly when [valueSize]
    is zero (the quotient is an infinity or NaN, also for an empty buffer)
    or does not divide [values.byteLength]; the instance is then as it was
    before the call. *)
Theorem digestValues_rejects_iff (values : Buffer) (valueSize : Z) (s : Wasm) :
  ((exists s', digestValues H values valueSize s = Throw MisalignedBuffer s')
   <-> valueSize = 0 \/ byteLength values mod valueSize <> 0)
  /\ (forall s', digestValues H values valueSize s = Throw MisalignedBuffer s' ->
      s' = s).
Proof.
  unfold digestValues, JS.div_isInteger.
  destruct (Z.eqb_spec valueSize 0) as [Hz|Hnz]; cbn [negb].
  { split.
    - split; [intros _; left; exact Hz | intros _; exists s; reflexivity].
    - intros s' [= <-]. reflexivity. }
  destruct (Z.eqb_spec (byteLength values mod valueSize) 0) as [Hm|Hm];
    cbn [negb].
  2:{ split.
      - split; [intros _; right; exact Hm | intros _; exists s; reflexivity].
      - intros s' [= <-]. reflexivity. }
  assert (Hrest : throws_only (fun e => e <> MisalignedBuffer)
            (v <- (if isWasm values then ret (byteOffset values, false)
                   else vRef <- newArray (byteLength values) ;;
                        d <- bufferBytes values ;;
                        U8_set d vRef ;; ret (vRef, true)) ;;
             resRef <- newArray (byteLength values / valueSize * DIGEST_SIZE) ;;
             hashValues1 H v.1 resRef valueSize (byteLength values / valueSize) ;;
             when v.2 (release v.1) ;;
             ret (WasmVector resRef (byteLength values / valueSize) DIGEST_SIZE))).
  { throws_tac. }
  split.
  - split.
    + intros [s' E]. exfalso. exact (Hrest _ _ _ E eq_refl).
    + intros [Hz|Hnd]; contradiction.
  - intros s' E. exfalso. exact (Hrest _ _ _ E eq_refl).
Qed.

(** X8. What [digestValues] leaves behind: one new block, the region of
    the vector it returns, of 32 bytes per record; a copy made of a buffer
    of the host is released again.  The hash primitive has run once per
    record, the vector returned is a well-formed vector of the memory, and
    the bytes of [values] read as before. *)
Theorem digestValues_result_block (values : Buffer) (valueSize : Z) (s : Wasm) :
  ok s = true -> buffer_ok s values = true ->
  0 < valueSize -> byteLength values mod valueSize = 0 ->
  exists resRef v s',
    digestValues H values valueSize s = Ok v s'
    /\ toBuffer v = WasmView resRef (byteLength values / valueSize * 32)
    /\ blocks s' = (resRef, byteLength values / valueSize * 32) :: blocks s
    /\ hashCalls s' =
       (Z.to_nat (byteLength values / valueSize) + hashCalls s)%nat
    /\ ok s' = true
    /\ vector_ok s' v = true
    /\ contents (memory s') values = contents (memory s) values.
Proof.
  intros Hok Hb Hvs Hmod.
  destruct (digestValues_run values valueSize s Hok Hb Hvs Hmod)
    as (resRef & s' & E & Hok' & Hres & Hbl & Hc & _ & Htop & Hfr).
  cbv zeta in *.
  exists resRef, (WasmVector resRef (byteLength values / valueSize) DIGEST_SIZE), s'.
  apply buffer_ok_iff in Hb.
  assert (Hcount : 0 <= byteLength values / valueSize).
  { apply Z.div_pos; [|lia]. destruct values; cbn [byteLength] in *;
      [lia | apply blen_nonneg]. }
  split; [exact E|]. split; [reflexivity|]. split; [exact Hbl|].
  split; [exact Hc|]. split; [exact Hok'|]. split.
  - apply vector_ok_iff. unfold WasmVector, DIGEST_SIZE.
    cbn [v_length v_elementSize toBuffer byteLength].
    split; [lia|]. split; [split; reflexivity|]. split; [reflexivity|].
    apply buffer_ok_iff. lia.
  - destruct values as [off len|d]; cbn [contents]; [|reflexivity].
    apply Hfr; lia.
Qed.

(** X9. [digestValues] and [buildMerkleNodes] compose: the vector of
    digests [digestValues] returns lives in the memory and is taken by
    [buildMerkleNodes] as it is, and the lowest row of the tree holds, for
    every pair of records, the digest of their two digests.  The tree
    buffer is released again. *)
Theorem merkle_nodes_of_records (values : Buffer) (valueSize depth : Z) (s : Wasm) :
  ok s = true -> buffer_ok s values = true ->
  0 < valueSize -> byteLength values mod valueSize = 0 ->
  0 <= depth <= 26 -> byteLength values / valueSize <= 2 ^ depth ->
  exists v s1 buf s2,
    digestValues H values valueSize s = Ok v s1
    /\ buildMerkleNodes H iRef oRef depth v s1 = Ok buf s2
    /\ blocks s2 = blocks s1
    /\ forall i, 0 <= i < byteLength values / valueSize / 2 ->
       slot buf (2 ^ depth / 2 + i) =
       vec_to_list
         (H (vec_to_list (H (read (contents (memory s) values)
                                  (2 * i * valueSize) valueSize))
             ++ vec_to_list (H (read (contents (memory s) values)
                                     ((2 * i + 1) * valueSize) valueSize)))).
Proof.
  intros Hok Hb Hvs Hmod Hdepth Hcap.
  destruct (digestValues_run values valueSize s Hok Hb Hvs Hmod)
    as (resRef & s1 & E1 & Hok1 & Hres & Hbl & _ & Hrows & Htop & _).
  cbv zeta in *.
  set (count := byteLength values / valueSize) in *.
  set (v := WasmVector resRef count DIGEST_SIZE) in *.
  pose proof Hok1 as Hok1'. apply engine_ok_iff in Hok1'.
  assert (Hcount : 0 <= count).
  { apply Z.div_pos; [|lia]. apply buffer_ok_iff in Hb.
    destruct values; cbn [byteLength] in *; [lia | apply blen_nonneg]. }
  assert (Hv : vector_ok s1 v = true).
  { apply vector_ok_iff. unfold v, WasmVector, DIGEST_SIZE.
    cbn [v_length v_elementSize toBuffer byteLength].
    split; [lia|]. split; [split; reflexivity|]. split; [reflexivity|].
    apply buffer_ok_iff. lia. }
  destruct (buildMerkleNodes_ok depth v s1 Hok1 Hv Hdepth)
    as (buf & s2 & E2 & _ & Hb2 & _ & _ & Hpairs & _).
  { exact Hcap. }
  { intros _. unfold v, WasmVector, DIGEST_SIZE. cbn [v_elementSize]. lia. }
  exists v, s1, buf, s2. split; [exact E1|]. split; [exact E2|].
  split; [exact Hb2|].
  intros i Hi.
  assert (Hi2 : 2 * i + 2 <= count).
  { pose proof (Z.div_mod count 2 ltac:(lia)).
    pose proof (Z.mod_pos_bound count 2 ltac:(lia)). lia. }
  rewrite Hpairs by exact Hi. do 2 f_equal.
  unfold v, WasmVector, DIGEST_SIZE. cbn [v_elementSize toBuffer contents].
  rewrite read_read by lia.
  replace (2 * 32) with (32 + 32) by lia.
  rewrite read_split by lia.
  f_equal.
  - replace (resRef + i * (32 + 32)) with (resRef + 32 * (2 * i)) by lia.
    apply Hrows. lia.
  - replace (resRef + i * (32 + 32) + 32) with (resRef + 32 * (2 * i + 1)) by lia.
    apply Hrows. lia.
Qed.

(** *** More about [buildMerkleNodes] *)

(** X10. [buildMerkleNodes] gives back what it takes from the arena: the
    tree buffer and the copy of leaves of the host are both released, the
    blocks are those from before the call, and the engine is well-formed
    again. *)
Theorem buildMerkleNodes_releases (depth : Z) (leaves : Vector) (s : Wasm) :
  ok s = true -> vector_ok s leaves = true ->
  0 <= depth <= 26 -> v_length leaves <= 2 ^ depth ->
  (v_length leaves mod 2 = 1 -> v_elementSize leaves + 32 <= iCap) ->
  exists buf s',
    buildMerkleNodes H iRef oRef depth leaves s = Ok buf s'
    /\ blocks s' = blocks s
    /\ ok s' = true.
Proof.
  intros Hok Hv Hdepth HLN Hodd.
  destruct (buildMerkleNodes_ok depth leaves s Hok Hv Hdepth HLN Hodd)
    as (buf & s' & E & _ & Hb & Hok' & _).
  exists buf, s'. repeat split; assumption.
Qed.

Lemma shl_count_mod_32 (a b : Z) : JS.shl a (b + 32) = JS.shl a b.
Proof.
  unfold JS.shl, JS.ToUint32. do 2 f_equal.
  assert (Hmm : forall x, x mod 2 ^ 32 mod 32 = x mod 32).
  { intros x. rewrite (Z.mod_eq x (2 ^ 32)) by (change (2 ^ 32) with 4294967296; lia).
    replace (x - 2 ^ 32 * (x / 2 ^ 32))
      with (x + (- (x / 2 ^ 32) * 2 ^ 27) * 32)
      by (change (2 ^ 32) with (2 ^ 27 * 32); lia).
    apply Z_mod_plus_full. }
  rewrite !Hmm.
  replace (b + 32) with (b + 1 * 32) by lia. apply Z_mod_plus_full.
Qed.

(** X11. The depth is a shift count, and [1 << depth] takes it modulo 32:
    [buildMerkleNodes(depth + 32, leaves)] is [buildMerkleNodes(depth,
    leaves)], for every depth and in every state.  A depth of 32 builds the
    one-slot buffer of depth 0. *)
Theorem buildMerkleNodes_depth_mod_32 (depth : Z) (leaves : Vector) (s : Wasm) :
  buildMerkleNodes H iRef oRef (depth + 32) leaves s
  = buildMerkleNodes H iRef oRef depth leaves s.
Proof.
  unfold buildMerkleNodes. rewrite shl_count_mod_32. reflexivity.
Qed.

(** The parents of a row given by index, against a row given by index. *)
Lemma parents_seq (g h : Z -> bytes) (n : nat) (a b : Z) :
  (forall j, 0 <= j < Z.of_nat n ->
     h (b + j) = vec_to_list (H (g (a + 2 * j) ++ g (a + 2 * j + 1)))) ->
  parents H (map g (seqZ a (2 * Z.of_nat n))) = map h (seqZ b (Z.of_nat n)).
Proof.
  revert a b. induction n as [|n IH]; intros a b Hh.
  - reflexivity.
  - replace (2 * Z.of_nat (S n)) with (Z.succ (Z.succ (2 * Z.of_nat n))) by lia.
    rewrite (seqZ_cons a) by lia. rewrite Z.pred_succ.
    rewrite (seqZ_cons (Z.succ a)) by lia. rewrite Z.pred_succ.
    rewrite (seqZ_cons b) by lia.
    replace (Z.pred (Z.of_nat (S n))) with (Z.of_nat n) by lia.
    cbn [map parents]. f_equal.
    + specialize (Hh 0 ltac:(lia)).
      replace (b + 0) with b in Hh by lia.
      replace (a + 2 * 0) with a in Hh by lia.
      replace (a + 1) with (Z.succ a) in Hh by lia.
      symmetry. exact Hh.
    + apply IH. intros j Hj.
      specialize (Hh (j + 1) ltac:(lia)).
      replace (Z.succ b + j) with (b + (j + 1)) by lia.
      rewrite Hh.
      replace (a + 2 * (j + 1)) with (Z.succ (Z.succ a) + 2 * j) by lia.
      reflexivity.
Qed.

(** X12. What [buildMerkleNodes] computes: for a tree of depth 1 to 26 the
    element at index 1 of the buffer is the Merkle root of the leaves,
    padded with zero leaves up to [2 ^ depth]: the one element left after
    [depth] rounds of hashing adjacent pairs. *)
Theorem buildMerkleNodes_root (depth : Z) (leaves : Vector) (s : Wasm) :
  ok s = true -> vector_ok s leaves = true ->
  1 <= depth <= 26 -> v_length leaves <= 2 ^ depth ->
  (v_length leaves mod 2 = 1 -> v_elementSize leaves + 32 <= iCap) ->
  exists buf s',
    buildMerkleNodes H iRef oRef depth leaves s = Ok buf s'
    /\ [slot buf 1] =
       Nat.iter (Z.to_nat depth) (parents H)
         (map (paddedLeaf (memory s) leaves) (seqZ 0 (2 ^ depth))).
Proof.
  intros Hok Hv Hdepth HLN Hodd.
  pose proof Hv as Hv'. apply vector_ok_iff in Hv'.
  destruct Hv' as (HL & Hes & HB & Hbuf).
  pose proof Hok as Hok'. apply engine_ok_iff in Hok'.
  destruct (buildMerkleNodes_ok depth leaves s Hok Hv ltac:(lia) HLN Hodd)
    as (buf & s' & E & Hlen & _ & _ & _ & Hpairs & Hlast & Hpad & Htree).
  exists buf, s'. split; [exact E|].
  set (L := v_length leaves) in *. set (es := v_elementSize leaves) in *.
  set (D := contents (memory s) (toBuffer leaves)) in *.
  assert (HDl : blen D = L * es).
  { unfold D. rewrite blen_contents by (assumption || lia). exact HB. }
  pose proof (Z.div_mod L 2 ltac:(lia)) as HLdm.
  pose proof (Z.mod_pos_bound L 2 ltac:(lia)) as Hc.
  assert (Hq : 0 <= L / 2) by (apply Z.div_pos; lia).
  (* the size of the rows *)
  assert (Hpow : forall k, 0 <= k -> 2 ^ (k + 1) = 2 * 2 ^ k).
  { intros k Hk. rewrite Z.pow_add_r by lia. change (2 ^ 1) with 2. lia. }
  assert (Hpos : forall k, 0 <= k -> 0 < 2 ^ k).
  { intros k Hk. apply Z.pow_pos_nonneg; lia. }
  assert (Hp : 2 ^ depth / 2 = 2 ^ (depth - 1)).
  { replace depth with (depth - 1 + 1) at 1 by lia.
    rewrite Hpow by lia. rewrite Z.mul_comm. apply Z.div_mul. lia. }
  assert (HN : 2 ^ depth = 2 * 2 ^ (depth - 1)).
  { replace depth with (depth - 1 + 1) at 1 by lia. apply Hpow. lia. }
  rewrite Hp in *.
  pose proof (Hpos (depth - 1) ltac:(lia)) as Hppos.
  set (p := 2 ^ (depth - 1)) in *.
  (* the lowest row *)
  assert (Hlow : treeRow buf (depth - 1)
                 = parents H (map (paddedLeaf (memory s) leaves) (seqZ 0 (2 ^ depth)))).
  { unfold treeRow. fold p. rewrite HN.
    rewrite <- (Z2Nat.id p) at 2 3 by lia. symmetry.
    apply parents_seq. rewrite Z2Nat.id by lia. intros j Hj.
    unfold paddedLeaf. fold L.
    replace (0 + 2 * j) with (2 * j) by lia.
    destruct (Z.ltb_spec (2 * j + 1) L) as [Hin|Hout].
    - destruct (Z.ltb_spec (2 * j) L); [|lia].
      rewrite Hpairs by lia. do 2 f_equal.
      unfold element. fold D es.
      replace (2 * es) with (es + es) by lia.
      rewrite read_split by nia. f_equal; f_equal; lia.
    - destruct (Z.ltb_spec (2 * j) L) as [Hin0|Hout0].
      + assert (Hj2 : j = L / 2) by lia. subst j.
        rewrite Hlast by lia. do 3 f_equal.
        unfold element. fold D es.
        replace (2 * (L / 2)) with (L - 1) by lia. f_equal. lia.
      + apply Hpad. lia. }
  (* the rows above *)
  assert (Hrow : forall k, 0 <= k < depth - 1 ->
            treeRow buf k = parents H (treeRow buf (k + 1))).
  { intros k Hk. unfold treeRow. rewrite (Hpow k) by lia.
    pose proof (Hpos k ltac:(lia)) as Hkpos.
    rewrite <- (Z2Nat.id (2 ^ k)) at 2 4 by lia. symmetry.
    apply parents_seq. rewrite Z2Nat.id by lia. intros j Hj.
    assert (Hkp : 2 * 2 ^ k <= p).
    { unfold p. rewrite <- Hpow by lia. apply Z.pow_le_mono_r; lia. }
    rewrite Htree by lia.
    replace (2 * (2 ^ k + j)) with (2 * 2 ^ k + 2 * j) by lia.
    reflexivity. }
  assert (Hiter : forall m : nat, Z.of_nat m <= depth - 1 ->
            treeRow buf (depth - 1 - Z.of_nat m)
            = Nat.iter m (parents H) (treeRow buf (depth - 1))).
  { induction m as [|m IH]; intros Hm.
    - replace (depth - 1 - Z.of_nat 0) with (depth - 1) by lia. reflexivity.
    - rewrite Nat.iter_succ. rewrite <- IH by lia.
      rewrite Hrow by lia. do 2 f_equal. lia. }
  specialize (Hiter (Z.to_nat (depth - 1)) ltac:(lia)).
  rewrite Z2Nat.id in Hiter by lia.
  replace (depth - 1 - (depth - 1)) with 0 in Hiter by lia.
  change (treeRow buf 0) with [slot buf 1] in Hiter.
  rewrite Hiter, Hlow.
  replace (Z.to_nat depth) with (S (Z.to_nat (depth - 1))) by lia.
  rewrite Nat.iter_succ_r. reflexivity.
Qed.

(** *** The success path of [mergeVectorRows] *)

Lemma to_N_byte_of_Z (z : Z) : Z.of_N (Byte.to_N (byte_of_Z z)) = z mod 256.
Proof.
  unfold byte_of_Z.
  pose proof (Z.mod_pos_bound z 256 ltac:(lia)) as Hb.
  destruct (Byte.of_N (Z.to_N (z mod 256))) as [y|] eqn:E.
  - apply Byte.to_of_N in E. simpl. rewrite E. lia.
  - apply Byte.of_N_None_iff in E. lia.
Qed.

Lemma le_value_le_bytes (n : nat) (v : Z) :
  0 <= v < 256 ^ Z.of_nat n -> le_value (le_bytes n v) = v.
Proof.
  revert v. induction n as [|n IH]; intros v Hv.
  - cbn in *. lia.
  - cbn [le_bytes le_value]. rewrite to_N_byte_of_Z.
    replace (Z.of_nat (S n)) with (Z.succ (Z.of_nat n)) in Hv by lia.
    rewrite Z.pow_succ_r in Hv by lia.
    rewrite IH.
    + pose proof (Z.div_mod v 256 ltac:(lia)). lia.
    + split; [apply Z.div_pos; lia|].
      apply Z.div_lt_upper_bound; lia.
Qed.

Lemma blen_le_bytes (n : nat) (v : Z) : blen (le_bytes n v) = Z.of_nat n.
Proof.
  unfold blen. f_equal. revert v.
  induction n as [|n IH]; intros v; cbn [le_bytes length]; [reflexivity|].
  rewrite IH. reflexivity.
Qed.

Lemma U64_set_ok (idx v : Z) (t : Wasm) :
  0 <= idx -> idx * 8 + 8 <= blen (memory t) ->
  U64_set idx v t
  = Ok tt (set_memory (write (memory t) (idx * 8) (le_bytes 8 (v mod 2 ^ 64))) t).
Proof.
  intros Hidx Hfit. unfold U64_set.
  destruct (Z.leb_spec 0 idx); [|lia].
  destruct (Z.ltb_spec idx (blen (memory t) / 8)) as [|Hge]; [reflexivity|].
  exfalso.
  assert (idx + 1 <= blen (memory t) / 8)
    by (apply Z.div_le_lower_bound; lia).
  lia.
Qed.

Lemma ushr_by_3 (a : Z) :
  0 <= a < 2 ^ 32 -> a mod 8 = 0 -> JS.ushr a 3 * 8 = a.
Proof.
  intros Ha Hm. unfold JS.ushr, JS.ToUint32.
  rewrite (Z.mod_small a) by lia.
  change (3 mod 2 ^ 32 mod 32) with 3.
  rewrite Z.shiftr_div_pow2 by lia. change (2 ^ 3) with 8.
  pose proof (Z.div_mod a 8 ltac:(lia)). lia.
Qed.

Lemma remove_block_app (a n : Z) (l1 l2 : list (Z * Z)) :
  a ∉ map fst l1 ->
  remove_block a (l1 ++ (a, n) :: l2) = Some (l1 ++ l2).
Proof.
  induction l1 as [|b l1 IH]; intros Hnot; cbn [app remove_block].
  - cbn [fst]. rewrite Z.eqb_refl. reflexivity.
  - cbn [map] in Hnot. apply not_elem_of_cons in Hnot as [Hne Hnot].
    destruct (Z.eqb_spec b.1 a) as [Heq|_]; [congruence|].
    rewrite IH by exact Hnot. reflexivity.
Qed.

Lemma release_app (a n : Z) (l1 l2 : list (Z * Z)) (t : Wasm) :
  blocks t = l1 ++ (a, n) :: l2 -> a ∉ map fst l1 ->
  release a t = Ok tt (mkWasm (memory t) (l1 ++ l2) (heapTop t) (hashCalls t)).
Proof.
  intros Hb Hnot. unfold release. rewrite Hb, remove_block_app by exact Hnot.
  reflexivity.
Qed.

(** Releasing the copies, in the order they were made. *)
Lemma releaseAll_ok (newb : list (Z * Z)) (pre rest : list (Z * Z)) (t : Wasm) :
  blocks t = pre ++ rev newb ++ rest ->
  NoDup (map fst newb) ->
  (forall a, a ∈ map fst newb -> a ∉ map fst pre) ->
  exists t',
    releaseAll (map fst newb) t = Ok tt t'
    /\ blocks t' = pre ++ rest
    /\ memory t' = memory t /\ heapTop t' = heapTop t
    /\ hashCalls t' = hashCalls t.
Proof.
  revert t. induction newb as [|b newb IH]; intros t Hb Hnd Hpre.
  - exists t. cbn in *. repeat split; assumption.
  - cbn [map releaseAll]. cbn [map] in Hnd. apply NoDup_cons in Hnd as [Hb1 Hnd].
    destruct b as [a n]. cbn [fst] in *.
    cbn [rev] in Hb. rewrite <- app_assoc in Hb. cbn [app] in Hb.
    rewrite app_assoc in Hb.
    erewrite bind_Ok.
    2:{ apply (release_app a n (pre ++ rev newb) rest t Hb).
        rewrite map_app. intros Hin. apply elem_of_app in Hin as [Hin|Hin].
        - apply (Hpre a); [left|exact Hin].
        - apply Hb1. apply list_elem_of_In. apply in_rev.
          rewrite <- map_rev. apply list_elem_of_In. exact Hin. }
    destruct (IH (mkWasm (memory t) ((pre ++ rev newb) ++ rest) (heapTop t)
                         (hashCalls t))) as (t' & E & Hbl & Hm & Ht & Hc).
    + st. rewrite <- app_assoc. reflexivity.
    + exact Hnd.
    + intros x Hx. apply Hpre. right. exact Hx.
    + exists t'. repeat split; assumption.
Qed.

(** Reading the array of references back. *)
Lemma loadRefs_ok (refs : list Z) (a : Z) (t : Wasm) :
  0 <= a -> a + 8 * Z.of_nat (length refs) <= blen (memory t) ->
  (forall j r, refs !! j = Some r ->
     0 <= r < 2 ^ 64
     /\ read (memory t) (a + 8 * Z.of_nat j) 8 = le_bytes 8 r) ->
  loadRefs (length refs) a t = Ok refs t.
Proof.
  revert a. induction refs as [|r refs IH]; intros a Ha Hfit Hslots.
  - reflexivity.
  - cbn [length loadRefs]. cbn [length] in Hfit.
    erewrite bind_Ok by (apply load_ok; lia).
    destruct (Hslots 0%nat r eq_refl) as [Hr Hrd].
    replace (a + 8 * Z.of_nat 0) with a in Hrd by lia.
    rewrite Hrd. rewrite le_value_le_bytes by (change (256 ^ Z.of_nat 8) with (2 ^ 64); lia).
    erewrite bind_Ok.
    2:{ apply IH; [lia|lia|]. intros j r' Hj.
        destruct (Hslots (S j) r' Hj) as [Hr' Hrd'].
        split; [exact Hr'|]. rewrite <- Hrd'. f_equal. lia. }
    reflexivity.
Qed.

(** Reading one row of elements. *)
Lemma loadRow_ok (refs : list Z) (i elementSize : Z) (t : Wasm) :
  0 <= elementSize ->
  Forall (fun r => 0 <= r + i * elementSize
                   /\ r + i * elementSize + elementSize <= blen (memory t)) refs ->
  loadRow refs i elementSize t
  = Ok (concat (map (fun r => read (memory t) (r + i * elementSize) elementSize)
                    refs)) t.
Proof.
  intros Hes Hall. induction Hall as [|r refs [Hr Hfit] Hall IH].
  - reflexivity.
  - cbn [loadRow map concat].
    erewrite bind_Ok by (apply load_ok; lia).
    erewrite bind_Ok by exact IH. reflexivity.
Qed.

Lemma map_ext_Forall {A B} (f g : A -> B) (l : list A) :
  Forall (fun x => f x = g x) l -> map f l = map g l.
Proof.
  induction 1 as [|x l Hx _ IH]; cbn [map]; [reflexivity|].
  rewrite Hx, IH. reflexivity.
Qed.

(** The rows of [mergeArrayElements]: [n] rows from row [i] on, the
    elements read below [lim] and the digests written from [resRef] on. *)
Lemma mergeRows_ok (n : nat) (refs : list Z) (resRef i elementSize lim : Z)
    (t : Wasm) :
  0 <= elementSize -> 0 <= i ->
  Forall (fun r => 0 <= r /\ r + (i + Z.of_nat n) * elementSize <= lim) refs ->
  0 <= resRef -> lim <= resRef -> resRef + 32 * Z.of_nat n <= blen (memory t) ->
  exists t',
    mergeRows H n refs resRef i elementSize t = Ok tt t'
    /\ region_step 0 resRef (resRef + 32 * Z.of_nat n) n t t'
    /\ forall k, 0 <= k < Z.of_nat n ->
       read (memory t') (resRef + 32 * k) 32 =
       vec_to_list
         (H (concat (map (fun r => read (memory t) (r + (i + k) * elementSize)
                                        elementSize) refs))).
Proof.
  intros Hes. revert resRef i t.
  induction n as [|n IH]; intros resRef i t Hi Hall Hres Hlim Hfit.
  - exists t. split; [reflexivity|]. split.
    + replace (resRef + 32 * Z.of_nat 0) with resRef by lia.
      apply region_step_refl.
    + intros k Hk. lia.
  - cbn [mergeRows]. unfold DIGEST_SIZE.
    assert (Hn : Z.of_nat (S n) = Z.of_nat n + 1) by lia.
    rewrite Hn in *.
    erewrite bind_Ok.
    2:{ apply loadRow_ok; [exact Hes|].
        eapply Forall_impl; [exact Hall|]. cbn beta. intros r [Hr Hend]. nia. }
    set (row := concat _).
    erewrite bind_Ok by (apply emit_ok; lia).
    set (d := vec_to_list (H row)).
    assert (Hd : blen d = 32) by apply blen_digest.
    set (t1 := mkWasm _ _ _ _).
    assert (Hl1 : blen (memory t1) = blen (memory t))
      by (unfold t1; st; apply length_write; lia).
    destruct (IH (resRef + 32) (i + 1) t1) as (t' & E & R & Hrows); try lia.
    { eapply Forall_impl; [exact Hall|]. cbn beta. intros r [Hr Hend].
      split; [exact Hr|]. replace (i + 1 + Z.of_nat n) with (i + (Z.of_nat n + 1)) by lia.
      exact Hend. }
    exists t'. split; [exact E|].
    destruct R as [Rl Rf Rb Rt Rc].
    assert (Hsrc : forall k, 0 <= k <= Z.of_nat n ->
              map (fun r => read (memory t1) (r + (i + k) * elementSize) elementSize) refs
              = map (fun r => read (memory t) (r + (i + k) * elementSize) elementSize) refs).
    { intros k Hk. apply map_ext_Forall.
      eapply Forall_impl; [exact Hall|]. cbn beta. intros r [Hr Hend].
      unfold t1. st. fold d. apply read_write_disjoint; try lia; nia. }
    split.
    + constructor.
      * lia.
      * intros off len Hoff Hlen Hout. rewrite Rf by lia.
        unfold t1. st. fold d. apply read_write_disjoint; lia.
      * rewrite Rb. reflexivity.
      * rewrite Rt. reflexivity.
      * rewrite Rc. unfold t1. st. lia.
    + intros k Hk. destruct (decide (k = 0)) as [->|Hk0].
      * replace (resRef + 32 * 0) with resRef by lia.
        rewrite Rf by lia. unfold t1. st. fold d.
        rewrite read_write_same_len by lia.
        unfold d, row. do 4 f_equal. replace (i + 0) with i by lia. reflexivity.
      * replace (resRef + 32 * k) with (resRef + 32 + 32 * (k - 1)) by lia.
        rewrite Hrows by lia.
        replace (i + 1 + (k - 1)) with (i + k) by lia.
        rewrite Hsrc by lia. reflexivity.
Qed.

Lemma mergeArrayElements_ok (refs : list Z)
    (vRefs resRef elementCount elementSize lim : Z) (t : Wasm) :
  0 <= elementSize -> 0 <= elementCount ->
  0 <= vRefs -> vRefs + 8 * Z.of_nat (length refs) <= blen (memory t) ->
  (forall j r, refs !! j = Some r ->
     0 <= r < 2 ^ 64
     /\ read (memory t) (vRefs + 8 * Z.of_nat j) 8 = le_bytes 8 r) ->
  Forall (fun r => 0 <= r /\ r + elementCount * elementSize <= lim) refs ->
  0 <= resRef -> lim <= resRef -> resRef + 32 * elementCount <= blen (memory t) ->
  exists t',
    mergeArrayElements H vRefs resRef (Z.of_nat (length refs)) elementCount
      elementSize t = Ok tt t'
    /\ region_step 0 resRef (resRef + 32 * elementCount)
         (Z.to_nat elementCount) t t'
    /\ forall k, 0 <= k < elementCount ->
       read (memory t') (resRef + 32 * k) 32 =
       vec_to_list
         (H (concat (map (fun r => read (memory t) (r + k * elementSize)
                                        elementSize) refs))).
Proof.
  intros Hes Hcnt Hv Hvfit Hslots Hall Hres Hlim Hfit.
  unfold mergeArrayElements. rewrite Nat2Z.id.
  erewrite bind_Ok by (apply loadRefs_ok; assumption).
  destruct (mergeRows_ok (Z.to_nat elementCount) refs resRef 0 elementSize lim t)
    as (t' & E & R & Hrows); rewrite ?Z2Nat.id by lia; try lia.
  { eapply Forall_impl; [exact Hall|]. cbn beta. intros r [Hr Hend].
    split; [exact Hr|]. replace (0 + elementCount) with elementCount by lia.
    exact Hend. }
  rewrite Z2Nat.id in R, Hrows by lia.
  exists t'. split; [exact E|]. split; [exact R|].
  intros k Hk. rewrite Hrows by lia. reflexivity.
Qed.

Lemma topAfter_ge (vs : list Vector) (top : Z) : top <= topAfter vs top.
Proof.
  revert top. induction vs as [|v vs IH]; intros top; cbn [topAfter]; [lia|].
  destruct (toBuffer v) as [off len|d]; [apply IH|].
  pose proof (IH (align16 top + 16 + blen d)).
  pose proof (align16_ge top). pose proof (blen_nonneg d). lia.
Qed.

(** One round of the loop of [buildRefs]: the reference of the vector is
    stored in slot [i] of the array at [vRefs], after a vector of the host
    has been copied into a block of its own. *)
Lemma buildRefs_step (v : Vector) (vRefs vIdx i e : Z) (done : list Z)
    (t : Wasm) (K : list Z -> M (list Z)) :
  vIdx * 8 = vRefs -> 0 <= vRefs -> 0 <= i ->
  vRefs + 8 * i + 8 <= e -> e <= heapTop t -> heapTop t <= blen (memory t) ->
  below vRefs v ->
  Forall (fun a => a <= heapTop t) done ->
  topAfter [v] (heapTop t) < 2 ^ 64 ->
  exists ref nb t1,
    (r <- (if isWasm (toBuffer v) then ret (byteOffset (toBuffer v), done)
           else
             vRef <- newArray (byteLength (toBuffer v)) ;;
             d <- bufferBytes (toBuffer v) ;;
             U8_set d vRef ;;
             ret (vRef, if bool_decide (vRef ∈ done) then done
                        else done ++ [vRef])) ;;
     U64_set (vIdx + i) r.1 ;; K r.2) t
    = K (done ++ map fst nb) t1
    /\ heapTop t1 = topAfter [v] (heapTop t)
    /\ heapTop t1 <= blen (memory t1)
    /\ blocks t1 = rev nb ++ blocks t
    /\ hashCalls t1 = hashCalls t
    /\ NoDup (map fst nb)
    /\ Forall (fun a => heapTop t < a /\ a <= heapTop t1) (map fst nb)
    /\ (forall off len, 0 <= off -> 0 <= len -> off + len <= heapTop t ->
        off + len <= vRefs + 8 * i \/ vRefs + 8 * i + 8 <= off ->
        read (memory t1) off len = read (memory t) off len)
    /\ 0 <= ref < 2 ^ 64
    /\ read (memory t1) (vRefs + 8 * i) 8 = le_bytes 8 ref
    /\ ref + byteLength (toBuffer v) <= heapTop t1
    /\ (ref + byteLength (toBuffer v) <= vRefs \/ e <= ref)
    /\ read (memory t1) ref (byteLength (toBuffer v))
       = contents (memory t) (toBuffer v).
Proof.
  intros HvIdx HvRefs Hi Hslot He Hfit Hbelow Hdone Htop64.
  unfold below in Hbelow. cbn [topAfter] in Htop64 |- *.
  assert (Hidx : (vIdx + i) * 8 = vRefs + 8 * i) by lia.
  pose proof (blen_le_bytes 8) as Hle8.
  destruct (toBuffer v) as [off len|d] eqn:Ebuf;
    cbn [isWasm byteOffset byteLength contents].
  - destruct Hbelow as (Hoff & Hlen & Hend).
    cbv beta delta [bind]. unfold ret at 1. cbn [fst snd].
    rewrite U64_set_ok by lia. rewrite Hidx.
    rewrite (Z.mod_small off) by lia.
    exists off, [], (set_memory (write (memory t) (vRefs + 8 * i) (le_bytes 8 off)) t).
    cbn [map rev app]. rewrite app_nil_r. split; [reflexivity|]. st.
    rewrite length_write by (rewrite ?Hle8; lia).
    split; [reflexivity|]. split; [lia|]. split; [reflexivity|].
    split; [reflexivity|]. split; [constructor|]. split; [constructor|].
    split; [|split; [lia|split; [|split; [lia|split; [lia|]]]]].
    + intros o l Ho Hl Hend' Hout.
      apply read_write_disjoint; rewrite ?Hle8; lia.
    + apply read_write_same_len; rewrite ?Hle8; lia.
    + apply read_write_disjoint; rewrite ?Hle8; lia.
  - pose proof (blen_nonneg d) as Hd.
    destruct (newArray_ok (blen d) t Hd) as (a & t0 & E & A).
    assert (Ha : a = align16 (heapTop t) + 16).
    { unfold newArray in E. destruct (blen d <? 0); [discriminate|].
      injection E as <- _. reflexivity. }
    destruct A as [Afresh _ Atop Afits [k Agrow] Ablocks Acalls].
    assert (Hl0 : blen (memory t0) = blen (memory t) + blen k)
      by (rewrite Agrow; apply blen_app).
    pose proof (blen_nonneg k) as Hk.
    assert (Hnotin : bool_decide (a ∈ done) = false).
    { apply bool_decide_eq_false. intros Hin.
      rewrite Forall_forall in Hdone. specialize (Hdone a Hin). lia. }
    cbv beta delta [bind bufferBytes]. rewrite E. cbn [contents].
    rewrite U8_set_ok by lia. unfold ret at 1. cbn [fst snd]. st.
    rewrite Hnotin.
    set (m1 := write (memory t0) a d).
    assert (Hl1 : blen m1 = blen (memory t0)) by (apply length_write; lia).
    rewrite U64_set_ok by (st; lia). st. rewrite Hidx.
    rewrite (Z.mod_small a) by lia.
    exists a, [(a, blen d)],
      (set_memory (write m1 (vRefs + 8 * i) (le_bytes 8 a)) (set_memory m1 t0)).
    cbn [map rev app fst]. split; [reflexivity|]. st.
    rewrite length_write by (rewrite ?Hle8; lia).
    split; [lia|]. split; [lia|]. split; [rewrite Ablocks; reflexivity|].
    split; [exact Acalls|].
    split; [apply NoDup_singleton|].
    split; [repeat constructor; lia|].
    split; [|split; [lia|split; [|split; [lia|split; [lia|]]]]].
    + intros o l Ho Hl Hend' Hout.
      rewrite read_write_disjoint by (rewrite ?Hle8; lia).
      unfold m1. rewrite read_write_disjoint by lia.
      rewrite Agrow. apply read_app_l; lia.
    + apply read_write_same_len; rewrite ?Hle8; lia.
    + rewrite read_write_disjoint by (rewrite ?Hle8; lia).
      unfold m1. apply read_write_same; lia.
Qed.

Lemma topAfter_cons (v : Vector) (vs : list Vector) (top : Z) :
  topAfter (v :: vs) top = topAfter vs (topAfter [v] top).
Proof. cbn [topAfter]. destruct (toBuffer v); reflexivity. Qed.

Lemma below_byteLength (lim : Z) (v : Vector) :
  below lim v -> 0 <= byteLength (toBuffer v).
Proof.
  unfold below. destruct (toBuffer v) as [off len|d]; cbn [byteLength].
  - lia.
  - intros _. apply blen_nonneg.
Qed.

(** The loop of [buildRefs]: afterwards the array at [vRefs] holds, from
    slot [i] on, the references [refs] of the vectors, every reference
    leads to the bytes its vector had in [m0], and the copies made are the
    blocks [newb]. *)
Lemma buildRefs_ok (vs : list Vector) (m0 : bytes) (vRefs vIdx e : Z) :
  forall (i : Z) (done : list Z) (t : Wasm),
  vIdx * 8 = vRefs -> 0 <= vRefs -> 0 <= i ->
  e = vRefs + 8 * (i + Z.of_nat (length vs)) ->
  e <= heapTop t -> heapTop t <= blen (memory t) ->
  Forall (below vRefs) vs ->
  Forall (fun v => contents (memory t) (toBuffer v) = contents m0 (toBuffer v)) vs ->
  Forall (fun a => a <= heapTop t) done ->
  topAfter vs (heapTop t) < 2 ^ 64 ->
  exists refs newb t',
    buildRefs vs vIdx i done t = Ok (done ++ map fst newb) t'
    /\ heapTop t' = topAfter vs (heapTop t)
    /\ heapTop t' <= blen (memory t')
    /\ blocks t' = rev newb ++ blocks t
    /\ hashCalls t' = hashCalls t
    /\ NoDup (map fst newb)
    /\ Forall (fun a => heapTop t < a /\ a <= heapTop t') (map fst newb)
    /\ (forall off len, 0 <= off -> 0 <= len -> off + len <= heapTop t ->
        off + len <= vRefs + 8 * i \/ e <= off ->
        read (memory t') off len = read (memory t) off len)
    /\ (forall j r, refs !! j = Some r ->
        0 <= r < 2 ^ 64
        /\ read (memory t') (vRefs + 8 * (i + Z.of_nat j)) 8 = le_bytes 8 r)
    /\ Forall2 (fun r v =>
                  0 <= r /\ r + byteLength (toBuffer v) <= heapTop t'
                  /\ read (memory t') r (byteLength (toBuffer v))
                     = contents m0 (toBuffer v)) refs vs.
Proof.
  induction vs as [|v rest IH];
    intros i done t HvIdx HvRefs Hi He Htop Hfit Hbelow Hc0 Hdone H64.
  - exists [], [], t. cbn [buildRefs map rev app topAfter].
    rewrite app_nil_r. split; [reflexivity|].
    split; [reflexivity|]. split; [exact Hfit|]. split; [reflexivity|].
    split; [reflexivity|]. split; [constructor|]. split; [constructor|].
    split; [intros off len _ _ _ _; reflexivity|].
    split; [intros j r Hj; discriminate Hj | constructor].
  - cbn [length] in He.
    apply Forall_cons in Hbelow as [Hbv Hbrest].
    apply Forall_cons in Hc0 as [Hcv Hcrest].
    rewrite topAfter_cons in H64.
    pose proof (topAfter_ge rest (topAfter [v] (heapTop t))) as Hge2.
    pose proof (topAfter_ge [v] (heapTop t)) as Hge1.
    pose proof (below_byteLength _ _ Hbv) as Hlenv.
    destruct (buildRefs_step v vRefs vIdx i e done t
                (fun d => buildRefs rest vIdx (i + 1) d))
      as (ref & nb & t1 & E1 & Ht1 & Hfit1 & Hb1 & Hc1 & Hnd1 & Hall1 & Hfr1
          & Href & Hslot1 & Hend1 & Hout1 & Hdata1); try assumption; try lia.
    destruct (IH (i + 1) (done ++ map fst nb) t1)
      as (refs & newb & t' & E2 & Ht' & Hfit' & Hb' & Hc' & Hnd' & Hall' & Hfr'
          & Hslots' & Hdata'); try assumption; try lia.
    { eapply Forall_impl; [apply Forall_and; split; [exact Hbrest|exact Hcrest]|].
      cbn beta. intros v' [Hbv' Hcv']. rewrite <- Hcv'.
      unfold below in Hbv'.
      destruct (toBuffer v') as [off len|d]; cbn [contents]; [|reflexivity].
      apply Hfr1; lia. }
    { apply Forall_app. split.
      - eapply Forall_impl; [exact Hdone|]. cbn beta. intros a Ha. lia.
      - eapply Forall_impl; [exact Hall1|]. cbn beta. intros a Ha. lia. }
    { rewrite Ht1. exact H64. }
    assert (Hmono : heapTop t1 <= heapTop t') by (rewrite Ht', Ht1; exact Hge2).
    exists (ref :: refs), (nb ++ newb), t'.
    split.
    { etransitivity; [exact E1|]. cbn beta. rewrite E2.
      rewrite map_app, app_assoc. reflexivity. }
    split; [rewrite topAfter_cons, Ht', Ht1; reflexivity|].
    split; [exact Hfit'|].
    split; [rewrite Hb', Hb1, rev_app_distr, app_assoc; reflexivity|].
    split; [rewrite Hc'; exact Hc1|].
    split.
    { rewrite map_app. apply NoDup_app. split; [exact Hnd1|].
      split; [|exact Hnd'].
      intros a Ha Ha'. rewrite Forall_forall in Hall1, Hall'.
      specialize (Hall1 a Ha). specialize (Hall' a Ha'). lia. }
    split.
    { rewrite map_app. apply Forall_app. split.
      - eapply Forall_impl; [exact Hall1|]. cbn beta. intros a Ha. lia.
      - eapply Forall_impl; [exact Hall'|]. cbn beta. intros a Ha. lia. }
    split.
    { intros off len Hoff Hlen Hend Hout.
      rewrite Hfr' by lia. apply Hfr1; lia. }
    split.
    { intros j r Hj. destruct j as [|j]; cbn in Hj.
      - injection Hj as <-. split; [exact Href|].
        replace (vRefs + 8 * (i + Z.of_nat 0)) with (vRefs + 8 * i) by lia.
        rewrite Hfr' by lia. exact Hslot1.
      - destruct (Hslots' j r Hj) as [Hr Hrd]. split; [exact Hr|].
        rewrite <- Hrd. f_equal. lia. }
    constructor; [|exact Hdata'].
    split; [lia|]. split; [lia|].
    rewrite Hfr' by lia. rewrite Hdata1. exact Hcv.
Qed.

Lemma map_Forall2 {A B C} (f : A -> C) (g : B -> C) (l : list A) (k : list B) :
  Forall2 (fun x y => f x = g y) l k -> map f l = map g k.
Proof.
  induction 1 as [|x y l k Hxy _ IH]; cbn [map]; [reflexivity|].
  rewrite Hxy, IH. reflexivity.
Qed.

(** One run of [mergeVectorRows] on vectors of equal length and element
    size, all that the call allocates before the result lying in a 32-bit
    memory. *)
Lemma mergeVectorRows_run (v0 : Vector) (rest : list Vector) (s : Wasm) :
  let vs := v0 :: rest in
  let cnt := v_length v0 in
  let es := v_elementSize v0 in
  ok s = true ->
  Forall (uniform s cnt es) vs ->
  es <= 64 -> JS.rem 64 es = Some 0 ->
  topAfter vs (align16 (heapTop s) + 16 + 8 * Z.of_nat (length vs)) < 2 ^ 32 ->
  exists resRef s',
    mergeVectorRows H vs s = Ok (WasmVector resRef cnt DIGEST_SIZE) s'
    /\ blocks s' = (resRef, cnt * 32) :: blocks s
    /\ ok s' = true
    /\ hashCalls s' = (Z.to_nat cnt + hashCalls s)%nat
    /\ heapTop s' = resRef + cnt * 32
    /\ 0 <= resRef
    /\ (forall k, 0 <= k < cnt ->
        read (memory s') (resRef + 32 * k) 32 =
        vec_to_list (H (concat (map (fun v => element (memory s) v k) vs))))
    /\ (forall off len, 0 <= off -> 0 <= len -> off + len <= heapTop s ->
        read (memory s') off len = read (memory s) off len).
Proof.
  intros vs cnt es Hok Huni Hes64 Hrem H32.
  apply engine_ok_iff in Hok.
  destruct Hok as (Hi & Hcap & Hitop & Ho & Hotop & Htop).
  assert (Hv0 : uniform s cnt es v0) by (apply Forall_cons in Huni; tauto).
  destruct Hv0 as (Hv0 & _ & _). apply vector_ok_iff in Hv0.
  destruct Hv0 as (Hcnt & Hes & _ & _). fold cnt es in Hcnt, Hes.
  assert (P32 : (2:Z) ^ 32 = 4294967296) by reflexivity.
  assert (P64 : (2:Z) ^ 64 = 18446744073709551616) by reflexivity.
  set (n := Z.of_nat (length vs)) in *.
  assert (Hn : 0 <= n) by (unfold n; lia).
  change (mergeVectorRows H vs s) with (mergeVectorRows H (v0 :: rest) s).
  unfold mergeVectorRows. cbv zeta. fold vs cnt es. fold n.
  destruct (Z.ltb_spec 64 es) as [|_]; [lia|].
  rewrite bool_decide_eq_true_2 by exact Hrem. cbn [negb].
  unfold DIGEST_SIZE.
  (* the array of references *)
  destruct (newArray_ok (n * 8) s ltac:(lia)) as (vRefs & s1 & E1 & A1).
  assert (HvRefs : vRefs = align16 (heapTop s) + 16).
  { unfold newArray in E1. destruct (n * 8 <? 0); [discriminate|].
    injection E1 as <- _. reflexivity. }
  destruct A1 as [A1fresh A1al A1top A1fits [k1 A1grow] A1blocks A1calls].
  erewrite bind_Ok by exact E1.
  rewrite <- HvRefs in H32.
  pose proof (topAfter_ge vs (vRefs + 8 * n)) as Hge.
  assert (HvIdx : JS.ushr vRefs 3 * 8 = vRefs) by (apply ushr_by_3; lia).
  assert (Hbelow0 : Forall (below (heapTop s)) vs).
  { eapply Forall_impl; [exact Huni|]. cbn beta. intros v (Hv & _ & _).
    apply vector_ok_iff in Hv. destruct Hv as (_ & _ & _ & Hb).
    apply buffer_ok_iff in Hb. unfold below.
    destruct (toBuffer v); [lia|exact I]. }
  assert (Hbelow : Forall (below vRefs) vs).
  { eapply Forall_impl; [exact Hbelow0|]. cbn beta. intros v. unfold below.
    destruct (toBuffer v); [lia|exact (fun x => x)]. }
  destruct (buildRefs_ok vs (memory s) vRefs (JS.ushr vRefs 3) (vRefs + 8 * n)
              0 [] s1)
    as (refs & newb & s2 & E2 & Ht2 & Hfit2 & Hb2 & Hc2 & Hnd & Hall & Hfr2
        & Hslots & Hdata); try assumption; try lia.
  { eapply Forall_impl; [exact Hbelow0|]. cbn beta. intros v Hv.
    unfold below in Hv. destruct (toBuffer v) as [off len|d]; cbn [contents];
      [|reflexivity].
    rewrite A1grow. apply read_app_l; lia. }
  { constructor. }
  { rewrite A1top. replace (vRefs + n * 8) with (vRefs + 8 * n) by lia. lia. }
  cbn [app] in E2. erewrite bind_Ok by exact E2.
  assert (Hs2 : vRefs + 8 * n <= heapTop s2).
  { rewrite Ht2, A1top.
    pose proof (topAfter_ge vs (vRefs + n * 8)). lia. }
  assert (Hs2' : heapTop s2 < 2 ^ 32).
  { rewrite Ht2, A1top. replace (vRefs + n * 8) with (vRefs + 8 * n) by lia.
    exact H32. }
  (* the result *)
  destruct (newArray_ok (cnt * 32) s2 ltac:(lia)) as (resRef & s3 & E3 & A3).
  destruct A3 as [A3fresh _ A3top A3fits [k3 A3grow] A3blocks A3calls].
  erewrite bind_Ok by exact E3.
  assert (Hl3 : blen (memory s3) = blen (memory s2) + blen k3)
    by (rewrite A3grow; apply blen_app).
  pose proof (blen_nonneg k3) as Hk3.
  assert (Hlen : length refs = length vs) by (eapply Forall2_length; exact Hdata).
  assert (Hsize : Forall2 (fun r v => 0 <= r /\ r + cnt * es <= heapTop s2
                     /\ read (memory s2) r (cnt * es)
                        = contents (memory s) (toBuffer v)
                     /\ v_elementSize v = es) refs vs).
  { clear - Hdata Huni. induction Hdata as [|r v refs' vs' Hrv _ IH].
    - constructor.
    - apply Forall_cons in Huni as [(Hv & Hvl & Hve) Huni].
      apply vector_ok_iff in Hv. destruct Hv as (_ & _ & HB & _).
      rewrite HB, Hvl, Hve in Hrv.
      constructor; [|apply IH; exact Huni]. tauto. }
  destruct (mergeArrayElements_ok refs vRefs resRef cnt es (heapTop s2) s3)
    as (s4 & E4 & R4 & Hrows); try lia.
  { intros j r Hj. destruct (Hslots j r Hj) as [Hr Hrd]. split; [exact Hr|].
    apply lookup_lt_Some in Hj. rewrite Hlen in Hj.
    rewrite A3grow. rewrite read_app_l by (unfold n in *; lia).
    exact Hrd. }
  { clear - Hsize. induction Hsize as [|r v refs' vs' Hrv _ IH]; constructor.
    - tauto.
    - exact IH. }
  rewrite Hlen in E4. fold n in E4. erewrite bind_Ok by exact E4.
  destruct R4 as [R4l R4f R4b R4t R4c].
  (* releasing the array and the copies *)
  assert (Hnewb : forall a, a ∈ map fst newb -> heapTop s1 < a /\ a <= heapTop s2).
  { intros a Ha. rewrite Forall_forall in Hall. apply Hall. exact Ha. }
  erewrite bind_Ok.
  2:{ apply (release_app vRefs (n * 8) ((resRef, cnt * 32) :: rev newb) (blocks s)).
      - rewrite R4b, A3blocks, Hb2, A1blocks. reflexivity.
      - cbn [map fst]. intros Hin. apply elem_of_cons in Hin as [Heq|Hin].
        + lia.
        + rewrite map_rev in Hin. apply list_elem_of_In in Hin.
          apply in_rev in Hin. apply list_elem_of_In in Hin.
          specialize (Hnewb _ Hin). lia. }
  set (s5 := mkWasm _ _ _ _).
  destruct (releaseAll_ok newb [(resRef, cnt * 32)] (blocks s) s5)
    as (s6 & E6 & Hb6 & Hm6 & Ht6 & Hc6).
  { reflexivity. }
  { exact Hnd. }
  { intros a Ha. cbn [map fst]. specialize (Hnewb _ Ha).
    intros Hin. apply list_elem_of_singleton in Hin. lia. }
  erewrite bind_Ok by exact E6. unfold ret.
  exists resRef, s6. split; [reflexivity|].
  unfold s5 in *. st.
  split; [exact Hb6|].
  split; [apply engine_ok_iff; rewrite Hm6, Ht6; st; lia|].
  split; [rewrite Hc6; st; rewrite R4c, A3calls, Hc2, A1calls; reflexivity|].
  split; [rewrite Ht6; st; lia|].
  split; [lia|].
  split.
  - intros k Hk. rewrite Hm6. st. rewrite Hrows by lia. do 3 f_equal.
    apply map_Forall2.
    eapply Forall2_impl; [exact Hsize|]. cbn beta.
    intros r v (Hr & Hend & Hrd & Hve).
    unfold element. rewrite Hve, <- Hrd.
    rewrite A3grow. rewrite read_app_l by nia.
    rewrite read_read by nia. reflexivity.
  - intros off len Hoff Hlen' Hend. rewrite Hm6. st.
    rewrite R4f by lia. rewrite A3grow. rewrite read_app_l by lia.
    rewrite Hfr2 by lia. rewrite A1grow. apply read_app_l; lia.
Qed.

Lemma rem_64_divisor (es : Z) :
  In es [1; 2; 4; 8; 16; 32; 64] -> es <= 64 /\ JS.rem 64 es = Some 0.
Proof.
  cbn [In]. intros Hin.
  repeat (destruct Hin as [<-|Hin]; [split; [lia|reflexivity]|]).
  contradiction.
Qed.

Lemma element_WasmVector (m : bytes) (base cnt k : Z) :
  0 <= base -> 0 <= k < cnt ->
  element m (WasmVector base cnt DIGEST_SIZE) k = read m (base + 32 * k) 32.
Proof.
  intros Hb Hk. unfold element, WasmVector, DIGEST_SIZE.
  cbn [toBuffer v_elementSize contents].
  rewrite read_read by lia. f_equal. lia.
Qed.

(** X13. What [mergeVectorRows] computes.  For vectors of one length whose
    elements have one size, a divisor of 64, the call returns a vector of
    the memory with as many elements of 32 bytes, and element [k] of it is
    the digest of the concatenation, in the order of the list, of element
    [k] of every vector.  The vectors may live in the memory or on the
    host, in any mix; the array of references and the copies the call
    allocates before the result have to lie in a memory of 32-bit
    addresses. *)
Theorem mergeVectorRows_rows (v0 : Vector) (rest : list Vector) (s : Wasm) :
  let vs := v0 :: rest in
  let cnt := v_length v0 in
  let es := v_elementSize v0 in
  ok s = true ->
  Forall (uniform s cnt es) vs ->
  In es [1; 2; 4; 8; 16; 32; 64] ->
  topAfter vs (align16 (heapTop s) + 16 + 8 * Z.of_nat (length vs)) < 2 ^ 32 ->
  exists v s',
    mergeVectorRows H vs s = Ok v s'
    /\ v_length v = cnt /\ v_elementSize v = digestSize
    /\ vector_ok s' v = true
    /\ forall k, 0 <= k < cnt ->
       element (memory s') v k =
       vec_to_list (H (concat (map (fun u => element (memory s) u k) vs))).
Proof.
  intros vs cnt es Hok Huni Hes H32.
  destruct (rem_64_divisor es Hes) as [Hes64 Hrem].
  destruct (mergeVectorRows_run v0 rest s Hok Huni Hes64 Hrem H32)
    as (resRef & s' & E & _ & _ & _ & Htop & Hres & Hrows & _).
  fold vs cnt es in E, Htop, Hrows.
  assert (Hcnt : 0 <= cnt).
  { apply Forall_cons in Huni as [(Hv & _ & _) _].
    apply vector_ok_iff in Hv. tauto. }
  exists (WasmVector resRef cnt DIGEST_SIZE), s'.
  split; [exact E|]. split; [reflexivity|]. split; [reflexivity|]. split.
  - apply vector_ok_iff. unfold WasmVector, DIGEST_SIZE.
    cbn [v_length v_elementSize toBuffer byteLength].
    split; [lia|]. split; [split; reflexivity|]. split; [reflexivity|].
    apply buffer_ok_iff. lia.
  - intros k Hk. rewrite element_WasmVector by lia. apply Hrows, Hk.
Qed.

(** X14. What [mergeVectorRows] leaves behind: one new block, the region
    of the vector it returns.  The array of references and the copy made of
    every vector of the host are released again, whatever their number.
    The hash primitive has run once per row, every vector given reads as
    before, and the instance is ready for the next call. *)
Theorem mergeVectorRows_releases (v0 : Vector) (rest : list Vector) (s : Wasm) :
  let vs := v0 :: rest in
  let cnt := v_length v0 in
  let es := v_elementSize v0 in
  ok s = true ->
  Forall (uniform s cnt es) vs ->
  In es [1; 2; 4; 8; 16; 32; 64] ->
  topAfter vs (align16 (heapTop s) + 16 + 8 * Z.of_nat (length vs)) < 2 ^ 32 ->
  exists v s',
    mergeVectorRows H vs s = Ok v s'
    /\ blocks s' = (byteOffset (toBuffer v), cnt * 32) :: blocks s
    /\ hashCalls s' = (Z.to_nat cnt + hashCalls s)%nat
    /\ ok s' = true
    /\ Forall (fun u => contents (memory s') (toBuffer u)
                        = contents (memory s) (toBuffer u)) vs.
Proof.
  intros vs cnt es Hok Huni Hes H32.
  destruct (rem_64_divisor es Hes) as [Hes64 Hrem].
  destruct (mergeVectorRows_run v0 rest s Hok Huni Hes64 Hrem H32)
    as (resRef & s' & E & Hbl & Hok' & Hc & _ & _ & _ & Hfr).
  fold vs cnt es in E, Hbl, Hc.
  exists (WasmVector resRef cnt DIGEST_SIZE), s'.
  split; [exact E|]. split; [exact Hbl|]. split; [exact Hc|].
  split; [exact Hok'|].
  eapply Forall_impl; [exact Huni|]. cbn beta. intros u (Hu & _ & _).
  apply vector_ok_iff in Hu. destruct Hu as (_ & _ & _ & Hb).
  apply buffer_ok_iff in Hb.
  destruct (toBuffer u) as [off len|d]; cbn [contents]; [|reflexivity].
  apply Hfr; lia.
Qed.

(** X15. [mergeVectorRows] on one vector and [digestValues] on its bytes
    agree: for an element size that divides 64, both return a vector of
    the digests of the elements, one by one. *)
Theorem mergeVectorRows_one_vector (v : Vector) (s : Wasm) :
  ok s = true -> vector_ok s v = true ->
  In (v_elementSize v) [1; 2; 4; 8; 16; 32; 64] ->
  topAfter [v] (align16 (heapTop s) + 16 + 8) < 2 ^ 32 ->
  exists d1 s1 d2 s2,
    mergeVectorRows H [v] s = Ok d1 s1
    /\ digestValues H (toBuffer v) (v_elementSize v) s = Ok d2 s2
    /\ v_length d1 = v_length d2
    /\ forall k, 0 <= k < v_length v ->
       element (memory s1) d1 k = element (memory s2) d2 k.
Proof.
  intros Hok Hv Hes H32.
  destruct (rem_64_divisor _ Hes) as [Hes64 Hrem].
  pose proof Hv as Hv'. apply vector_ok_iff in Hv'.
  destruct Hv' as (Hcnt & Hsz & HB & Hb).
  destruct (mergeVectorRows_run v [] s Hok) as
    (r1 & s1 & E1 & _ & _ & _ & _ & Hr1 & Hrows1 & _);
    [constructor; [repeat split; assumption | constructor]
    | assumption | assumption | exact H32 |].
  assert (Hmod : byteLength (toBuffer v) mod v_elementSize v = 0)
    by (rewrite HB; apply Z.mod_mul; lia).
  destruct (digestValues_run (toBuffer v) (v_elementSize v) s Hok Hb
              ltac:(lia) Hmod)
    as (r2 & s2 & E2 & _ & Hr2 & _ & _ & Hrows2 & _).
  cbv zeta in E2, Hrows2.
  assert (Hdiv : byteLength (toBuffer v) / v_elementSize v = v_length v)
    by (rewrite HB; apply Z.div_mul; lia).
  rewrite Hdiv in E2, Hrows2.
  eexists _, s1, _, s2. split; [exact E1|]. split; [exact E2|].
  split; [reflexivity|].
  intros k Hk. rewrite !element_WasmVector by lia.
  rewrite Hrows1, Hrows2 by lia. cbn [map concat]. rewrite app_nil_r.
  reflexivity.
Qed.

(** X16. What [buildMerkleNodes] leaves alone.  Below the arena's top
    the call writes scratch bytes only: the last leaf and 32 zero bytes from
    [iRef] on when the number of leaves is odd, and 64 bytes from [iRef] on
    and the output region when there are fewer than [2 ^ depth] leaves.  A
    buffer of the memory that lies behind the scratch bytes of the call
    reads the same after it; with an even number of [2 ^ depth] leaves that
    is every buffer below the arena's top.  This holds for the leaves, when
    they live there, and for every other vector of the memory.  Nothing is
    assumed about the size of the input region. *)
Theorem buildMerkleNodes_keeps_resident_data
    (depth : Z) (leaves : Vector) (b : Buffer) (s : Wasm) :
  let L := v_length leaves in
  let es := v_elementSize leaves in
  0 <= iRef -> 0 <= oRef -> 0 <= heapTop s <= blen (memory s) ->
  vector_ok s leaves = true ->
  0 <= depth <= 26 -> L <= 2 ^ depth ->
  (L mod 2 = 1 -> iRef + es + 32 <= heapTop s) ->
  (L < 2 ^ depth -> iRef + 64 <= heapTop s /\ oRef + 32 <= heapTop s) ->
  buffer_ok s b = true ->
  (L mod 2 = 1 -> iRef + es + 32 <= byteOffset b) ->
  (L < 2 ^ depth -> iRef + 64 <= byteOffset b /\ oRef + 32 <= byteOffset b) ->
  exists buf s',
    buildMerkleNodes H iRef oRef depth leaves s = Ok buf s'
    /\ contents (memory s') b = contents (memory s) b.
Proof.
  intros L es Hi Ho [Htop0 Htop] Hv Hdepth HLN Hodd Hpad Hb Hbodd Hbpad.
  apply buffer_ok_iff in Hb.
  destruct b as [off len|d]; cbn [contents byteOffset] in *.
  - destruct (buildMerkleNodes_run depth leaves off s)
      as (buf & s' & E & _ & _ & _ & _ & _ & _ & _ & _ & Hframe);
      try assumption; try lia.
    exists buf, s'. split; [exact E|]. apply Hframe; lia.
  - destruct (buildMerkleNodes_run depth leaves (heapTop s) s)
      as (buf & s' & E & _);
      try assumption; try lia.
    exists buf, s'. split; [exact E|]. reflexivity.
Qed.

End EngineFacts.

(** ** The claims on the sample engine *)

Import Sample.

Lemma merge_digest_concat_witness :
  (engine_ok 0 4096 4096 wasm0 = true /\ blen (leaf 1) + blen (leaf 2) <= 4096)
  /\ exists d s1 s2,
       merge sampleH 0 4096 (leaf 1) (leaf 2) wasm0 = Ok d s1
       /\ digest sampleH 0 4096 (leaf 1 ++ leaf 2) wasm0 = Ok d s2
       /\ blen d = 32.
Proof.
  assert (H1 : engine_ok 0 4096 4096 wasm0 = true) by (vm_compute; reflexivity).
  assert (H2 : blen (leaf 1) + blen (leaf 2) <= 4096) by (vm_compute; discriminate).
  split; [split; assumption|].
  exact (merge_digest_concat sampleH 0 4096 4096 (leaf 1) (leaf 2) wasm0 H1 H2).
Defined.

Lemma digestValues_records_witness :
  (engine_ok 0 4096 4096 wasm0 = true
   /\ buffer_ok wasm0 (HostBuffer (leaf 1 ++ leaf 2)) = true
   /\ 0 < 32
   /\ byteLength (HostBuffer (leaf 1 ++ leaf 2)) mod 32 = 0)
  /\ exists v s',
       digestValues sampleH (HostBuffer (leaf 1 ++ leaf 2)) 32 wasm0 = Ok v s'
       /\ v_length v = byteLength (HostBuffer (leaf 1 ++ leaf 2)) / 32
       /\ v_elementSize v = 32
       /\ forall i, 0 <= i < v_length v ->
          forall t, engine_ok 0 4096 4096 t = true ->
          exists t',
            digest sampleH 0 4096
              (Mem.read (contents (memory wasm0) (HostBuffer (leaf 1 ++ leaf 2)))
                        (i * 32) 32) t
            = Ok (element (memory s') v i) t'.
Proof.
  assert (H1 : engine_ok 0 4096 4096 wasm0 = true) by (vm_compute; reflexivity).
  assert (H2 : buffer_ok wasm0 (HostBuffer (leaf 1 ++ leaf 2)) = true) by reflexivity.
  assert (H3 : 0 < 32) by reflexivity.
  assert (H4 : byteLength (HostBuffer (leaf 1 ++ leaf 2)) mod 32 = 0)
    by (vm_compute; reflexivity).
  split; [repeat split; assumption|].
  exact (digestValues_records sampleH 0 4096 4096 _ 32 wasm0 H1 H2 H3 H4).
Defined.

Lemma digestValues_misaligned_witness :
  0 < 5
  /\ digestValues sampleH (HostBuffer (leaf 1)) 5 wasm0 = Throw MisalignedBuffer wasm0.
Proof.
  assert (H1 : 0 < 5) by reflexivity.
  split; [exact H1|].
  apply (proj1 (digestValues_misaligned sampleH (HostBuffer (leaf 1)) 5 wasm0 H1)).
  vm_compute. discriminate.
Defined.


Lemma mergeVectorRows_element_size_witness :
  (64 < 48 \/ JS.rem 64 48 <> Some 0)
  /\ mergeVectorRows sampleH [mkVector 1 48 (HostBuffer (replicate 48 x00))] wasm0
     = Throw InvalidElementSize wasm0.
Proof.
  assert (H1 : 64 < 48 \/ JS.rem 64 48 <> Some 0) by (right; vm_compute; discriminate).
  split; [exact H1|].
  exact (proj1 (mergeVectorRows_element_size sampleH
                  (mkVector 1 48 (HostBuffer (replicate 48 x00))) [] wasm0) H1).
Defined.

(** C7 fails on the code: with a second vector of elements of 65 bytes the
    call does not throw; it hashes the rows with the element size of the
    first vector. *)
Lemma mergeVectorRows_second_vector_unchecked :
  64 < v_elementSize (mkVector 1 65 (HostBuffer (replicate 65 x00)))
  /\ exists v s',
       mergeVectorRows sampleH
         [leaves 1 (leaf 1); mkVector 1 65 (HostBuffer (replicate 65 x00))] wasm0
       = Ok v s'
       /\ hashCalls s' = 1%nat.
Proof.
  split; [reflexivity|].
  eexists _, _. split; vm_compute; reflexivity.
Qed.

Lemma buildMerkleNodes_leaf_pairs_witness :
  (engine_ok 0 4096 4096 wasm0 = true
   /\ vector_ok wasm0 twoLeaves = true
   /\ 0 <= 1 <= 26
   /\ v_length twoLeaves = 2 ^ 1
   /\ v_length twoLeaves = 2 * 1
   /\ 2 * v_elementSize twoLeaves <= 4096)
  /\ exists buf s',
       buildMerkleNodes sampleH 0 4096 1 twoLeaves wasm0 = Ok buf s'
       /\ blen buf = 2 ^ 1 * 32
       /\ forall i, 0 <= i < 1 ->
          forall t, engine_ok 0 4096 4096 t = true ->
          exists t',
            merge sampleH 0 4096 (element (memory wasm0) twoLeaves (2 * i))
                                 (element (memory wasm0) twoLeaves (2 * i + 1)) t
            = Ok (slot buf (2 ^ 1 / 2 + i)) t'.
Proof.
  assert (H1 : engine_ok 0 4096 4096 wasm0 = true) by (vm_compute; reflexivity).
  assert (H2 : vector_ok wasm0 twoLeaves = true) by (vm_compute; reflexivity).
  assert (H3 : 0 <= 1 <= 26) by lia.
  assert (H4 : v_length twoLeaves = 2 ^ 1) by reflexivity.
  assert (H5 : v_length twoLeaves = 2 * 1) by reflexivity.
  assert (H6 : 2 * v_elementSize twoLeaves <= 4096) by (vm_compute; discriminate).
  split; [repeat split; assumption || apply H3|].
  exact (buildMerkleNodes_leaf_pairs sampleH 0 4096 4096 1 twoLeaves 1 wasm0
           H1 H2 H3 H4 H5 H6).
Defined.

Lemma buildMerkleNodes_tree_witness :
  (engine_ok 0 4096 4096 wasm0 = true
   /\ vector_ok wasm0 fourLeaves = true
   /\ 0 <= 2 <= 26
   /\ v_length fourLeaves <= 2 ^ 2
   /\ (v_length fourLeaves mod 2 = 1 -> v_elementSize fourLeaves + 32 <= 4096))
  /\ exists buf s',
       buildMerkleNodes sampleH 0 4096 2 fourLeaves wasm0 = Ok buf s'
       /\ blen buf = 2 ^ 2 * 32
       /\ forall j, 1 <= j < 2 ^ 2 / 2 ->
          forall t, engine_ok 0 4096 4096 t = true ->
          exists t',
            merge sampleH 0 4096 (slot buf (2 * j)) (slot buf (2 * j + 1)) t
            = Ok (slot buf j) t'.
Proof.
  assert (H1 : engine_ok 0 4096 4096 wasm0 = true) by (vm_compute; reflexivity).
  assert (H2 : vector_ok wasm0 fourLeaves = true) by (vm_compute; reflexivity).
  assert (H3 : 0 <= 2 <= 26) by lia.
  assert (H4 : v_length fourLeaves <= 2 ^ 2) by (vm_compute; discriminate).
  assert (H5 : v_length fourLeaves mod 2 = 1 -> v_elementSize fourLeaves + 32 <= 4096)
    by (intros _; vm_compute; discriminate).
  split; [repeat split; assumption || apply H3|].
  exact (buildMerkleNodes_tree sampleH 0 4096 4096 2 fourLeaves wasm0
           H1 H2 H3 H4 H5).
Defined.

(** C3 fails on the code: with four leaves and depth 2 the root, which is
    [merge(merge(L0, L1), merge(L2, L3))], is the element at index 1 of the
    buffer; the element at the front is something else. *)
Lemma buildMerkleNodes_root_not_in_front :
  exists buf s' n01 n23 root t1 t2 t3,
    buildMerkleNodes sampleH 0 4096 2 fourLeaves wasm0 = Ok buf s'
    /\ merge sampleH 0 4096 (leaf 1) (leaf 2) wasm0 = Ok n01 t1
    /\ merge sampleH 0 4096 (leaf 3) (leaf 4) wasm0 = Ok n23 t2
    /\ merge sampleH 0 4096 n01 n23 wasm0 = Ok root t3
    /\ slot buf 1 = root
    /\ slot buf 0 <> root.
Proof.
  eexists _, _, _, _, _, _, _, _.
  split; [vm_compute; reflexivity|].
  split; [vm_compute; reflexivity|].
  split; [vm_compute; reflexivity|].
  split; [vm_compute; reflexivity|].
  split; [vm_compute; reflexivity|].
  vm_compute. discriminate.
Qed.

Lemma buildMerkleNodes_odd_leaf_witness :
  (engine_ok 0 4096 4096 wasm0 = true
   /\ vector_ok wasm0 threeLeaves = true
   /\ 0 <= 2 <= 26
   /\ v_length threeLeaves <= 2 ^ 2
   /\ v_length threeLeaves mod 2 = 1
   /\ v_elementSize threeLeaves + 32 <= 4096)
  /\ exists buf s',
       buildMerkleNodes sampleH 0 4096 2 threeLeaves wasm0 = Ok buf s'
       /\ forall t, engine_ok 0 4096 4096 t = true ->
          exists t',
            merge sampleH 0 4096
              (element (memory wasm0) threeLeaves (v_length threeLeaves - 1))
              NULL_BUFFER t
            = Ok (slot buf (2 ^ 2 / 2 + v_length threeLeaves / 2)) t'.
Proof.
  assert (H1 : engine_ok 0 4096 4096 wasm0 = true) by (vm_compute; reflexivity).
  assert (H2 : vector_ok wasm0 threeLeaves = true) by (vm_compute; reflexivity).
  assert (H3 : 0 <= 2 <= 26) by lia.
  assert (H4 : v_length threeLeaves <= 2 ^ 2) by (vm_compute; discriminate).
  assert (H5 : v_length threeLeaves mod 2 = 1) by reflexivity.
  assert (H6 : v_elementSize threeLeaves + 32 <= 4096) by (vm_compute; discriminate).
  split; [repeat split; assumption || apply H3|].
  exact (buildMerkleNodes_odd_leaf sampleH 0 4096 4096 2 threeLeaves wasm0
           H1 H2 H3 H4 H5 H6).
Defined.

Lemma buildMerkleNodes_padding_witness :
  (engine_ok 0 4096 4096 wasm0 = true
   /\ vector_ok wasm0 oneLeaf = true
   /\ 0 <= 2 <= 26
   /\ v_length oneLeaf < 2 ^ 2
   /\ (v_length oneLeaf mod 2 = 1 -> v_elementSize oneLeaf + 32 <= 4096))
  /\ exists buf s',
       buildMerkleNodes sampleH 0 4096 2 oneLeaf wasm0 = Ok buf s'
       /\ blen buf = 2 ^ 2 * 32
       /\ forall i,
          v_length oneLeaf / 2 + v_length oneLeaf mod 2 <= i < 2 ^ 2 - 2 ^ 2 / 2 ->
          forall t, engine_ok 0 4096 4096 t = true ->
          exists t',
            merge sampleH 0 4096 NULL_BUFFER NULL_BUFFER t
            = Ok (slot buf (2 ^ 2 / 2 + i)) t'.
Proof.
  assert (H1 : engine_ok 0 4096 4096 wasm0 = true) by (vm_compute; reflexivity).
  assert (H2 : vector_ok wasm0 oneLeaf = true) by (vm_compute; reflexivity).
  assert (H3 : 0 <= 2 <= 26) by lia.
  assert (H4 : v_length oneLeaf < 2 ^ 2) by reflexivity.
  assert (H5 : v_length oneLeaf mod 2 = 1 -> v_elementSize oneLeaf + 32 <= 4096)
    by (intros _; vm_compute; discriminate).
  split; [repeat split; assumption || apply H3|].
  exact (buildMerkleNodes_padding sampleH 0 4096 4096 2 oneLeaf wasm0
           H1 H2 H3 H4 H5).
Defined.

Lemma buildMerkleNodes_depth_0_witness :
  (engine_ok 0 4096 4096 wasm0 = true
   /\ vector_ok wasm0 oneLeaf = true
   /\ v_length oneLeaf <= 1
   /\ (v_length oneLeaf = 1 -> v_elementSize oneLeaf + 32 <= 4096))
  /\ exists buf s',
       buildMerkleNodes sampleH 0 4096 0 oneLeaf wasm0 = Ok buf s'
       /\ blen buf = 32
       /\ hashCalls s' = S (hashCalls wasm0)
       /\ (forall nRef t,
           exists r, calcOtherNodes sampleH nRef (JS.ushr (JS.shl 1 0) 1) t = Ok r t)
       /\ (v_length oneLeaf = 0 ->
           forall t, engine_ok 0 4096 4096 t = true ->
           exists t', merge sampleH 0 4096 NULL_BUFFER NULL_BUFFER t = Ok buf t')
       /\ (v_length oneLeaf = 1 ->
           forall t, engine_ok 0 4096 4096 t = true ->
           exists t',
             merge sampleH 0 4096 (element (memory wasm0) oneLeaf 0) NULL_BUFFER t
             = Ok buf t').
Proof.
  assert (H1 : engine_ok 0 4096 4096 wasm0 = true) by (vm_compute; reflexivity).
  assert (H2 : vector_ok wasm0 oneLeaf = true) by (vm_compute; reflexivity).
  assert (H3 : v_length oneLeaf <= 1) by (vm_compute; discriminate).
  assert (H4 : v_length oneLeaf = 1 -> v_elementSize oneLeaf + 32 <= 4096)
    by (intros _; vm_compute; discriminate).
  split; [repeat split; assumption|].
  exact (buildMerkleNodes_depth_0 sampleH 0 4096 4096 oneLeaf wasm0 H1 H2 H3 H4).
Defined.

(** *** Instances of the further properties *)


Lemma merge_out_of_memory_witness :
  (0 <= 0 /\ blen (memory smallWasm) < 0 + blen (leaf 1 ++ leaf 2) + blen (leaf 3))
  /\ exists s',
       merge sampleH 0 4096 (leaf 1 ++ leaf 2) (leaf 3) smallWasm
       = Throw RangeError s'
       /\ hashCalls s' = hashCalls smallWasm.
Proof.
  assert (H1 : 0 <= 0) by lia.
  assert (H2 : blen (memory smallWasm) < 0 + blen (leaf 1 ++ leaf 2) + blen (leaf 3))
    by (vm_compute; reflexivity).
  split; [split; assumption|].
  exact (merge_out_of_memory sampleH 0 4096 (leaf 1 ++ leaf 2) (leaf 3) smallWasm
           H1 H2).
Defined.

Lemma merge_ignores_capacity_witness :
  (0 <= 0
   /\ 0 + blen (replicate 4000 x00) + blen (replicate 96 x01) <= blen (memory wasm0)
   /\ 0 <= 4096
   /\ 4096 + 32 <= blen (memory wasm0)
   /\ (4096 + 32 <= 0
       \/ 0 + blen (replicate 4000 x00) + blen (replicate 96 x01) <= 4096))
  /\ exists s',
       merge sampleH 0 4096 (replicate 4000 x00) (replicate 96 x01) wasm0
       = Ok (vec_to_list (sampleH (replicate 4000 x00 ++ replicate 96 x01))) s'
       /\ Mem.read (memory s') 0
            (blen (replicate 4000 x00) + blen (replicate 96 x01))
          = replicate 4000 x00 ++ replicate 96 x01.
Proof.
  assert (H1 : 0 <= 0) by lia.
  assert (H2 : 0 + blen (replicate 4000 x00) + blen (replicate 96 x01)
               <= blen (memory wasm0)) by (vm_compute; discriminate).
  assert (H3 : 0 <= 4096) by lia.
  assert (H4 : 4096 + 32 <= blen (memory wasm0)) by (vm_compute; discriminate).
  assert (H5 : 4096 + 32 <= 0
               \/ 0 + blen (replicate 4000 x00) + blen (replicate 96 x01) <= 4096)
    by (right; vm_compute; discriminate).
  split; [repeat split; assumption|].
  exact (merge_ignores_capacity sampleH 0 4096 (replicate 4000 x00)
           (replicate 96 x01) wasm0 H1 H2 H3 H4 H5).
Defined.

Lemma digestValues_result_block_witness :
  (engine_ok 0 4096 4096 wasm0 = true
   /\ buffer_ok wasm0 (HostBuffer (leaf 1 ++ leaf 2)) = true
   /\ 0 < 32
   /\ byteLength (HostBuffer (leaf 1 ++ leaf 2)) mod 32 = 0)
  /\ exists resRef v s',
       digestValues sampleH (HostBuffer (leaf 1 ++ leaf 2)) 32 wasm0 = Ok v s'
       /\ toBuffer v
          = WasmView resRef (byteLength (HostBuffer (leaf 1 ++ leaf 2)) / 32 * 32)
       /\ blocks s'
          = (resRef, byteLength (HostBuffer (leaf 1 ++ leaf 2)) / 32 * 32)
            :: blocks wasm0
       /\ hashCalls s' =
          (Z.to_nat (byteLength (HostBuffer (leaf 1 ++ leaf 2)) / 32)
           + hashCalls wasm0)%nat
       /\ engine_ok 0 4096 4096 s' = true
       /\ vector_ok s' v = true
       /\ contents (memory s') (HostBuffer (leaf 1 ++ leaf 2))
          = contents (memory wasm0) (HostBuffer (leaf 1 ++ leaf 2)).
Proof.
  assert (H1 : engine_ok 0 4096 4096 wasm0 = true) by (vm_compute; reflexivity).
  assert (H2 : buffer_ok wasm0 (HostBuffer (leaf 1 ++ leaf 2)) = true) by reflexivity.
  assert (H3 : 0 < 32) by reflexivity.
  assert (H4 : byteLength (HostBuffer (leaf 1 ++ leaf 2)) mod 32 = 0)
    by (vm_compute; reflexivity).
  split; [repeat split; assumption|].
  exact (digestValues_result_block sampleH 0 4096 4096 _ 32 wasm0 H1 H2 H3 H4).
Defined.

Lemma merkle_nodes_of_records_witness :
  (engine_ok 0 4096 4096 wasm0 = true
   /\ buffer_ok wasm0 (HostBuffer (replicate 20 x01)) = true
   /\ 0 < 5
   /\ byteLength (HostBuffer (replicate 20 x01)) mod 5 = 0
   /\ 0 <= 2 <= 26
   /\ byteLength (HostBuffer (replicate 20 x01)) / 5 <= 2 ^ 2)
  /\ exists v s1 buf s2,
       digestValues sampleH (HostBuffer (replicate 20 x01)) 5 wasm0 = Ok v s1
       /\ buildMerkleNodes sampleH 0 4096 2 v s1 = Ok buf s2
       /\ blocks s2 = blocks s1
       /\ forall i, 0 <= i < byteLength (HostBuffer (replicate 20 x01)) / 5 / 2 ->
          slot buf (2 ^ 2 / 2 + i) =
          vec_to_list
            (sampleH
               (vec_to_list
                  (sampleH (Mem.read (contents (memory wasm0)
                                        (HostBuffer (replicate 20 x01)))
                                     (2 * i * 5) 5))
                ++ vec_to_list
                     (sampleH (Mem.read (contents (memory wasm0)
                                           (HostBuffer (replicate 20 x01)))
                                        ((2 * i + 1) * 5) 5)))).
Proof.
  assert (H1 : engine_ok 0 4096 4096 wasm0 = true) by (vm_compute; reflexivity).
  assert (H2 : buffer_ok wasm0 (HostBuffer (replicate 20 x01)) = true) by reflexivity.
  assert (H3 : 0 < 5) by reflexivity.
  assert (H4 : byteLength (HostBuffer (replicate 20 x01)) mod 5 = 0)
    by (vm_compute; reflexivity).
  assert (H5 : 0 <= 2 <= 26) by lia.
  assert (H6 : byteLength (HostBuffer (replicate 20 x01)) / 5 <= 2 ^ 2)
    by (vm_compute; discriminate).
  split; [repeat split; assumption || apply H5|].
  exact (merkle_nodes_of_records sampleH 0 4096 4096 _ 5 2 wasm0
           H1 H2 H3 H4 H5 H6).
Defined.

Lemma buildMerkleNodes_releases_witness :
  (engine_ok 0 4096 4096 wasm0 = true
   /\ vector_ok wasm0 threeLeaves = true
   /\ 0 <= 2 <= 26
   /\ v_length threeLeaves <= 2 ^ 2
   /\ (v_length threeLeaves mod 2 = 1 -> v_elementSize threeLeaves + 32 <= 4096))
  /\ exists buf s',
       buildMerkleNodes sampleH 0 4096 2 threeLeaves wasm0 = Ok buf s'
       /\ blocks s' = blocks wasm0
       /\ engine_ok 0 4096 4096 s' = true.
Proof.
  assert (H1 : engine_ok 0 4096 4096 wasm0 = true) by (vm_compute; reflexivity).
  assert (H2 : vector_ok wasm0 threeLeaves = true) by (vm_compute; reflexivity).
  assert (H3 : 0 <= 2 <= 26) by lia.
  assert (H4 : v_length threeLeaves <= 2 ^ 2) by (vm_compute; discriminate).
  assert (H5 : v_length threeLeaves mod 2 = 1 -> v_elementSize threeLeaves + 32 <= 4096)
    by (intros _; vm_compute; discriminate).
  split; [repeat split; assumption || apply H3|].
  exact (buildMerkleNodes_releases sampleH 0 4096 4096 2 threeLeaves wasm0
           H1 H2 H3 H4 H5).
Defined.

Lemma buildMerkleNodes_root_witness :
  (engine_ok 0 4096 4096 wasm0 = true
   /\ vector_ok wasm0 threeLeaves = true
   /\ 1 <= 2 <= 26
   /\ v_length threeLeaves <= 2 ^ 2
   /\ (v_length threeLeaves mod 2 = 1 -> v_elementSize threeLeaves + 32 <= 4096))
  /\ exists buf s',
       buildMerkleNodes sampleH 0 4096 2 threeLeaves wasm0 = Ok buf s'
       /\ [slot buf 1] =
          Nat.iter (Z.to_nat 2) (parents sampleH)
            (map (paddedLeaf (memory wasm0) threeLeaves) (seqZ 0 (2 ^ 2))).
Proof.
  assert (H1 : engine_ok 0 4096 4096 wasm0 = true) by (vm_compute; reflexivity).
  assert (H2 : vector_ok wasm0 threeLeaves = true) by (vm_compute; reflexivity).
  assert (H3 : 1 <= 2 <= 26) by lia.
  assert (H4 : v_length threeLeaves <= 2 ^ 2) by (vm_compute; discriminate).
  assert (H5 : v_length threeLeaves mod 2 = 1 -> v_elementSize threeLeaves + 32 <= 4096)
    by (intros _; vm_compute; discriminate).
  split; [repeat split; assumption || apply H3|].
  exact (buildMerkleNodes_root sampleH 0 4096 4096 2 threeLeaves wasm0
           H1 H2 H3 H4 H5).
Defined.

Lemma mergeVectorRows_rows_witness :
  (engine_ok 0 4096 4096 residentWasm = true
   /\ Forall (uniform residentWasm (v_length residentLeaves)
                (v_elementSize residentLeaves)) [residentLeaves; twoLeaves]
   /\ In (v_elementSize residentLeaves) [1; 2; 4; 8; 16; 32; 64]
   /\ topAfter [residentLeaves; twoLeaves]
        (Arena.align16 (heapTop residentWasm) + 16
         + 8 * Z.of_nat (length [residentLeaves; twoLeaves])) < 2 ^ 32)
  /\ exists v s',
       mergeVectorRows sampleH [residentLeaves; twoLeaves] residentWasm = Ok v s'
       /\ v_length v = v_length residentLeaves
       /\ v_elementSize v = digestSize
       /\ vector_ok s' v = true
       /\ forall k, 0 <= k < v_length residentLeaves ->
          element (memory s') v k =
          vec_to_list
            (sampleH (concat (map (fun u => element (memory residentWasm) u k)
                                  [residentLeaves; twoLeaves]))).
Proof.
  assert (H1 : engine_ok 0 4096 4096 residentWasm = true) by (vm_compute; reflexivity).
  assert (H2 : Forall (uniform residentWasm (v_length residentLeaves)
                         (v_elementSize residentLeaves)) [residentLeaves; twoLeaves]).
  { repeat (constructor; [split; [vm_compute; reflexivity | split; reflexivity]|]).
    constructor. }
  assert (H3 : In (v_elementSize residentLeaves) [1; 2; 4; 8; 16; 32; 64])
    by (do 5 right; left; reflexivity).
  assert (H4 : topAfter [residentLeaves; twoLeaves]
                 (Arena.align16 (heapTop residentWasm) + 16
                  + 8 * Z.of_nat (length [residentLeaves; twoLeaves])) < 2 ^ 32)
    by (vm_compute; reflexivity).
  split; [repeat split; assumption|].
  exact (mergeVectorRows_rows sampleH 0 4096 4096 residentLeaves [twoLeaves]
           residentWasm
           H1 H2 H3 H4).
Defined.

Lemma mergeVectorRows_releases_witness :
  (engine_ok 0 4096 4096 wasm0 = true
   /\ Forall (uniform wasm0 (v_length twoLeaves) (v_elementSize twoLeaves))
        [twoLeaves; twoLeaves; twoLeaves]
   /\ In (v_elementSize twoLeaves) [1; 2; 4; 8; 16; 32; 64]
   /\ topAfter [twoLeaves; twoLeaves; twoLeaves]
        (Arena.align16 (heapTop wasm0) + 16
         + 8 * Z.of_nat (length [twoLeaves; twoLeaves; twoLeaves])) < 2 ^ 32)
  /\ exists v s',
       mergeVectorRows sampleH [twoLeaves; twoLeaves; twoLeaves] wasm0 = Ok v s'
       /\ blocks s'
          = (byteOffset (toBuffer v), v_length twoLeaves * 32) :: blocks wasm0
       /\ hashCalls s' = (Z.to_nat (v_length twoLeaves) + hashCalls wasm0)%nat
       /\ engine_ok 0 4096 4096 s' = true
       /\ Forall (fun u => contents (memory s') (toBuffer u)
                           = contents (memory wasm0) (toBuffer u))
            [twoLeaves; twoLeaves; twoLeaves].
Proof.
  assert (H1 : engine_ok 0 4096 4096 wasm0 = true) by (vm_compute; reflexivity).
  assert (H2 : Forall (uniform wasm0 (v_length twoLeaves) (v_elementSize twoLeaves))
                 [twoLeaves; twoLeaves; twoLeaves]).
  { repeat (constructor; [split; [vm_compute; reflexivity | split; reflexivity]|]).
    constructor. }
  assert (H3 : In (v_elementSize twoLeaves) [1; 2; 4; 8; 16; 32; 64])
    by (do 5 right; left; reflexivity).
  assert (H4 : topAfter [twoLeaves; twoLeaves; twoLeaves]
                 (Arena.align16 (heapTop wasm0) + 16
                  + 8 * Z.of_nat (length [twoLeaves; twoLeaves; twoLeaves])) < 2 ^ 32)
    by (vm_compute; reflexivity).
  split; [repeat split; assumption|].
  exact (mergeVectorRows_releases sampleH 0 4096 4096 twoLeaves
           [twoLeaves; twoLeaves] wasm0 H1 H2 H3 H4).
Defined.

Lemma mergeVectorRows_one_vector_witness :
  (engine_ok 0 4096 4096 wasm0 = true
   /\ vector_ok wasm0 twoLeaves = true
   /\ In (v_elementSize twoLeaves) [1; 2; 4; 8; 16; 32; 64]
   /\ topAfter [twoLeaves] (Arena.align16 (heapTop wasm0) + 16 + 8) < 2 ^ 32)
  /\ exists d1 s1 d2 s2,
       mergeVectorRows sampleH [twoLeaves] wasm0 = Ok d1 s1
       /\ digestValues sampleH (toBuffer twoLeaves) (v_elementSize twoLeaves) wasm0
          = Ok d2 s2
       /\ v_length d1 = v_length d2
       /\ forall k, 0 <= k < v_length twoLeaves ->
          element (memory s1) d1 k = element (memory s2) d2 k.
Proof.
  assert (H1 : engine_ok 0 4096 4096 wasm0 = true) by (vm_compute; reflexivity).
  assert (H2 : vector_ok wasm0 twoLeaves = true) by (vm_compute; reflexivity).
  assert (H3 : In (v_elementSize twoLeaves) [1; 2; 4; 8; 16; 32; 64])
    by (do 5 right; left; reflexivity).
  assert (H4 : topAfter [twoLeaves] (Arena.align16 (heapTop wasm0) + 16 + 8) < 2 ^ 32)
    by (vm_compute; reflexivity).
  split; [repeat split; assumption|].
  exact (mergeVectorRows_one_vector sampleH 0 4096 4096 twoLeaves wasm0
           H1 H2 H3 H4).
Defined.

Lemma digest_small_in_place_witness :
  blen (replicate 2000 x01) < 4096
  /\ (blocks (final (digest sampleH 2432 2384 (replicate 2000 x01) tightWasm))
      = blocks tightWasm
      /\ heapTop (final (digest sampleH 2432 2384 (replicate 2000 x01) tightWasm))
         = heapTop tightWasm
      /\ blen (memory (final (digest sampleH 2432 2384 (replicate 2000 x01)
                                tightWasm)))
         = blen (memory tightWasm))
  /\ exists s',
       digest sampleH 2432 2384 (replicate 2000 x01) tightWasm
       = Ok (vec_to_list (sampleH (replicate 2000 x01))) s'
       /\ Mem.read (memory s') 2432 (blen (replicate 2000 x01))
          = replicate 2000 x01.
Proof.
  assert (H1 : blen (replicate 2000 x01) < 4096) by (vm_compute; reflexivity).
  split; [exact H1|].
  split; [exact (proj1 (digest_small_in_place sampleH 2432 2384
                          (replicate 2000 x01) tightWasm H1))|].
  apply (proj2 (digest_small_in_place sampleH 2432 2384
                  (replicate 2000 x01) tightWasm H1)).
  - lia.
  - vm_compute; discriminate.
  - vm_compute; discriminate.
  - lia.
  - vm_compute; discriminate.
  - left. lia.
Defined.


Lemma buildMerkleNodes_keeps_resident_data_witness :
  (0 <= 2432
   /\ 0 <= 2384
   /\ 0 <= heapTop tightWasm <= blen (memory tightWasm)
   /\ vector_ok tightWasm tightLeaves = true
   /\ 0 <= 2 <= 26
   /\ v_length tightLeaves <= 2 ^ 2
   /\ (v_length tightLeaves mod 2 = 1 ->
       2432 + v_elementSize tightLeaves + 32 <= heapTop tightWasm)
   /\ (v_length tightLeaves < 2 ^ 2 ->
       2432 + 64 <= heapTop tightWasm /\ 2384 + 32 <= heapTop tightWasm)
   /\ buffer_ok tightWasm (toBuffer tightLeaves) = true
   /\ (v_length tightLeaves mod 2 = 1 ->
       2432 + v_elementSize tightLeaves + 32 <= byteOffset (toBuffer tightLeaves))
   /\ (v_length tightLeaves < 2 ^ 2 ->
       2432 + 64 <= byteOffset (toBuffer tightLeaves)
       /\ 2384 + 32 <= byteOffset (toBuffer tightLeaves)))
  /\ exists buf s',
       buildMerkleNodes sampleH 2432 2384 2 tightLeaves tightWasm = Ok buf s'
       /\ contents (memory s') (toBuffer tightLeaves)
          = contents (memory tightWasm) (toBuffer tightLeaves).
Proof.
  assert (H1 : 0 <= 2432) by lia.
  assert (H2 : 0 <= 2384) by lia.
  assert (H3 : 0 <= heapTop tightWasm <= blen (memory tightWasm))
    by (split; vm_compute; discriminate).
  assert (H4 : vector_ok tightWasm tightLeaves = true) by (vm_compute; reflexivity).
  assert (H5 : 0 <= 2 <= 26) by lia.
  assert (H6 : v_length tightLeaves <= 2 ^ 2) by (vm_compute; discriminate).
  assert (H7 : v_length tightLeaves mod 2 = 1 ->
               2432 + v_elementSize tightLeaves + 32 <= heapTop tightWasm)
    by (intros _; vm_compute; discriminate).
  assert (H8 : v_length tightLeaves < 2 ^ 2 ->
               2432 + 64 <= heapTop tightWasm /\ 2384 + 32 <= heapTop tightWasm)
    by (intros _; split; vm_compute; discriminate).
  assert (H9 : buffer_ok tightWasm (toBuffer tightLeaves) = true)
    by (vm_compute; reflexivity).
  assert (H10 : v_length tightLeaves mod 2 = 1 ->
                2432 + v_elementSize tightLeaves + 32
                <= byteOffset (toBuffer tightLeaves))
    by (intros _; vm_compute; discriminate).
  assert (H11 : v_length tightLeaves < 2 ^ 2 ->
                2432 + 64 <= byteOffset (toBuffer tightLeaves)
                /\ 2384 + 32 <= byteOffset (toBuffer tightLeaves))
    by (intros _; split; vm_compute; discriminate).
  split; [repeat split; assumption || apply H3 || apply H5 || apply H8
                        || apply H11; vm_compute; reflexivity|].
  exact (buildMerkleNodes_keeps_resident_data sampleH 2432 2384 2 tightLeaves
           (toBuffer tightLeaves) tightWasm H1 H2 H3 H4 H5 H6 H7 H8 H9 H10 H11).
Defined.
